(** * Variable-width freehand strokes: the drawing directive

    A shallow embedding of [FreehandDrawingDirective]
    (src/app/drawing/freehand-drawing.directive.ts) and of the properties
    its specification states about it.

    The directive is an object with mutable fields that draws into a PixiJS
    display tree.  It is modelled here as a state record threaded through a
    small state-and-exception monad: a call either completes or throws, and in
    both cases the fields that were assigned before are kept, as they are on
    the JavaScript object. *)

From Stdlib Require Import ZArith List Bool Lia Floats.
Import ListNotations.

Set Implicit Arguments.

(** ** Numbers

    Every coordinate, angle and thickness of the directive is a JavaScript
    [number].  The directive is written once over the operations it applies
    to numbers; [JS.jsNumber] below interprets them as IEEE-754 doubles, the
    way the program runs. *)

Class Number (num : Type) : Type := {
  ofZ : Z -> num;                      (* an integer literal *)
  NaN : num;                           (* what [undefined] converts to *)
  nadd : num -> num -> num;
  nsub : num -> num -> num;
  nmul : num -> num -> num;
  ndiv : num -> num -> num;
  nneg : num -> num;
  nlt : num -> num -> bool;            (* a < b *)
  nseq : num -> num -> bool;           (* a === b *)
  isNaN : num -> bool;
  Math_PI : num;
  Math_sqrt : num -> num;
  Math_sin : num -> num;
  Math_cos : num -> num;
  Math_atan2 : num -> num -> num
}.

Declare Scope num_scope.
Delimit Scope num_scope with num.
Infix "+" := nadd : num_scope.
Infix "-" := nsub : num_scope.
Infix "*" := nmul : num_scope.
Infix "/" := ndiv : num_scope.
Infix "<?" := nlt : num_scope.
Notation "- a" := (nneg a) : num_scope.

(** A decimal literal [a/b] with small [a] and [b]: the division of two
    exactly represented integers is correctly rounded, so on doubles
    [ratio 33 100] is the double that the literal [0.33] denotes. *)
Definition ratio {num} {N : Number num} (a b : Z) : num := (ofZ a / ofZ b)%num.

(** [ToNumber] of a numeric field that may not have been assigned yet. *)
Definition toNumber {num} {N : Number num} (v : option num) : num :=
  match v with Some n => n | None => NaN end.

Module JS.

(** [Math.sin], [Math.cos] and [Math.atan2] are implementation-approximated
    in ECMAScript; an engine's choice of them is a parameter. *)
Class MathImpl : Type := {
  impl_sin : float -> float;
  impl_cos : float -> float;
  impl_atan2 : float -> float -> float
}.

Definition floatOfZ (z : Z) : float :=
  if (z <? 0)%Z then PrimFloat.opp (PrimFloat.of_uint63 (Uint63.of_Z (- z)))
  else PrimFloat.of_uint63 (Uint63.of_Z z).

#[export] Instance jsNumber {E : MathImpl} : Number float := {|
  ofZ := floatOfZ;
  NaN := PrimFloat.nan;
  nadd := PrimFloat.add;
  nsub := PrimFloat.sub;
  nmul := PrimFloat.mul;
  ndiv := PrimFloat.div;
  nneg := PrimFloat.opp;
  nlt := PrimFloat.ltb;
  nseq := PrimFloat.eqb;
  isNaN := PrimFloat.is_nan;
  Math_PI := 0x1.921fb54442d18p+1%float;
  Math_sqrt := PrimFloat.sqrt;
  Math_sin := impl_sin;
  Math_cos := impl_cos;
  Math_atan2 := impl_atan2
|}.

(** One concrete engine, by truncated power series; it is used to run the
    directive on sample input. *)
Definition horner (cs : list float) (t : float) : float :=
  fold_right (fun c acc => c + t * acc)%float 0%float cs.

Definition inverses (ds : list Z) : list float :=
  map (fun d => (1 / floatOfZ d)%float) ds.

Definition series_sin (a : float) : float :=
  (a * horner (inverses [1; -6; 120; -5040; 362880; -39916800; 6227020800;
                         -1307674368000; 355687428096000;
                         -121645100408832000]%Z) (a * a))%float.

Definition series_cos (a : float) : float :=
  horner (inverses [1; -2; 24; -720; 40320; -3628800; 479001600;
                    -87178291200; 20922789888000;
                    -6402373705728000]%Z) (a * a).

Definition halve_tangent (u : float) : float :=
  (u / (1 + PrimFloat.sqrt (1 + u * u)))%float.

Definition series_atan (u : float) : float :=
  let v := halve_tangent (halve_tangent u) in
  (4 * (v * horner (inverses [1; -3; 5; -7; 9; -11; 13; -15; 17]%Z) (v * v)))%float.

Definition half_pi : float := 0x1.921fb54442d18p+0%float.
Definition pi : float := 0x1.921fb54442d18p+1%float.

Definition series_atan2 (b a : float) : float :=
  if (PrimFloat.abs b <=? PrimFloat.abs a)%float then
    if (0 <? a)%float then series_atan (b / a)
    else if (a <? 0)%float then
      if (b <? 0)%float then (series_atan (b / a) - pi)%float
      else (series_atan (b / a) + pi)%float
    else 0%float
  else
    if (0 <? b)%float then (half_pi - series_atan (a / b))%float
    else (- half_pi - series_atan (a / b))%float.

Definition seriesMath : MathImpl := {|
  impl_sin := series_sin;
  impl_cos := series_cos;
  impl_atan2 := series_atan2
|}.

End JS.

(** ** JavaScript arrays indexed by an integer *)

(** [a[i]]: [undefined] outside [0 .. length-1]. *)
Definition arrayGet {A} (a : list A) (i : Z) : option A :=
  if (i <? 0)%Z then None else nth_error a (Z.to_nat i).

(** [a.splice(start, 1)]: a negative [start] counts from the end, the start
    is clamped into [0 .. length], and at most one element is deleted. *)
Definition splice1 {A} (a : list A) (start : Z) : list A :=
  let len := Z.of_nat (length a) in
  let actualStart :=
    if (start <? 0)%Z then Z.max (len + start) 0 else Z.min start len in
  let deleteCount := Z.min 1 (len - actualStart) in
  firstn (Z.to_nat actualStart) a
    ++ skipn (Z.to_nat (actualStart + deleteCount)) a.

Fixpoint replace {A} (i : nat) (v : A) (a : list A) : list A :=
  match a, i with
  | [], _ => []
  | _ :: rest, O => v :: rest
  | h :: rest, S j => h :: replace j v rest
  end.

(** ** The display tree

    The directive draws with PixiJS 4.8.2 (README.md).  It uses a [Graphics]
    as a list of drawing commands that calls append to and [clear()] empties,
    and a [Container] as a list of children, with the methods [addChild],
    [removeChild] and [removeChildAt].  A [Container] of that version has
    neither a property [numChildren] nor a method [contains], which the
    directive also uses: they are modelled below as JavaScript evaluates
    them, an undefined property and a call of it.  Objects live in a store
    and are named by their position in it, so that the directive's fields
    and the containers can share them. *)

Definition ref : Type := nat.

Fixpoint removeAt (i : nat) (kids : list ref) : list ref :=
  match kids, i with
  | [], _ => []
  | _ :: rest, O => rest
  | k :: rest, S j => k :: removeAt j rest
  end.

(** [children.indexOf(child)] followed by the removal at that position. *)
Fixpoint removeFirst (child : ref) (kids : list ref) : list ref :=
  match kids with
  | [] => []
  | k :: rest => if Nat.eqb k child then rest else k :: removeFirst child rest
  end.

Inductive Event : Type := beginStroke | endStroke.

Inductive Exn : Type :=
| TypeError      (* a method called on undefined, null or the wrong object *)
| PixiError      (* getChildAt: index out of the children's range *)
| OutOfFuel.     (* a loop of the model stopped before its condition failed *)

(** ** Calls that complete or throw

    The result of a call carries the state it leaves behind in both cases. *)

Inductive Res (S A : Type) : Type :=
| Ok (a : A) (s : S)
| Throw (e : Exn) (s : S).

Arguments Ok {S A} a s.
Arguments Throw {S A} e s.

Definition M (S A : Type) : Type := S -> Res S A.

Definition ret {S A} (a : A) : M S A := fun s => Ok a s.

Definition bind {S A B} (m : M S A) (k : A -> M S B) : M S B :=
  fun s => match m s with
           | Ok a s1 => k a s1
           | Throw e s1 => Throw e s1
           end.

Definition throw {S A} (e : Exn) : M S A := fun s => Throw e s.
Definition get {S} : M S S := fun s => Ok s s.
Definition modify {S} (f : S -> S) : M S unit := fun s => Ok tt (f s).

(** The state a call leaves behind, completed or not. *)
Definition after {S A} (r : Res S A) : S :=
  match r with Ok _ s => s | Throw _ s => s end.

Definition completes {S A} (r : Res S A) : bool :=
  match r with Ok _ _ => true | Throw _ _ => false end.

Notation "v <- m ;; k" := (bind m (fun v => k))
  (at level 61, m at next level, right associativity).
Notation "m ;; k" := (bind m (fun _ => k))
  (at level 61, right associativity).

Section Directive.

Context {num : Type} {N : Number num}.
Local Open Scope num_scope.

Inductive DrawCmd : Type :=
| beginFill (color alpha : num)
| endFill
| moveTo (x y : num)
| lineTo (x y : num)
| quadraticCurveTo (cpX cpY toX toY : num)
| drawCircle (x y radius : num).

Inductive DisplayObject : Type :=
| Graphics (cmds : list DrawCmd)
| Container (children : list ref).

(** *** The fields of the directive, grouped as the class declares them *)

Record Inputs : Type := {
  interactive : bool;
  cache : bool;
  smoothing : num;
  fillColor : num
}.

(** "cached drawing properties" *)
Record Draw : Type := {
  _lastRotation : num;
  _lineRotation : num;
  _L1Sin1 : num;
  _L1Cos1 : num;
  _controlX1 : num;
  _controlY1 : num;
  _controlX2 : num;
  _controlY2 : num;
  _taperThickness : num;
  _taper : num
}.

(** "mouse status/properties/etc" *)
Record Mouse : Type := {
  _mouseMoved : bool;
  _lastSmoothedMouseX : num;
  _lastSmoothedMouseY : num;
  _smoothedMouseX : num;
  _smoothedMouseY : num;
  _lastMouseX : num;
  _lastMouseY : num;
  _startX : num;
  _startY : num;
  _mouseDeltaX : num;
  _mouseDeltaY : num;
  _lastMouseChangeVectorX : num;
  _lastMouseChangeVectorY : num;
  _mousePressed : bool
}.

(** "line thickness properties"; the two thicknesses are not assigned by the
    constructor, nor by [clear]. *)
Record Thickness : Type := {
  _lastThickness : option num;
  _lineThickness : option num;
  _tipTaperFactor : num;
  _minThickness : num;
  _thicknessFactor : num;
  _thicknessSmoothingFactor : num
}.

(** "optional cached x- and y-coordinates" *)
Record Points : Type := {
  _x : list num;
  _y : list num
}.

(** The display objects and the fields that refer to them.  The container of
    all strokes is created once by [__pixiSetup] and never replaced; the model
    keeps its list of children. *)
Record Scene : Type := {
  objects : list DisplayObject;
  _strokeContainer : list ref;
  _strokes : list ref;
  _curStrokeContainer : option ref;
  _stroke : option ref;
  _tip : option ref
}.

Record State : Type := {
  inputs : Inputs;
  draw : Draw;
  mouse : Mouse;
  thick : Thickness;
  pts : Points;
  scene : Scene;
  emitted : list Event;          (* notifications, oldest first *)
  _handlersAssigned : bool
}.

Definition withInputs (f : Inputs -> Inputs) (s : State) : State :=
  {| inputs := f (inputs s); draw := draw s; mouse := mouse s;
     thick := thick s; pts := pts s; scene := scene s;
     emitted := emitted s; _handlersAssigned := _handlersAssigned s |}.

Definition withDraw (f : Draw -> Draw) (s : State) : State :=
  {| inputs := inputs s; draw := f (draw s); mouse := mouse s;
     thick := thick s; pts := pts s; scene := scene s;
     emitted := emitted s; _handlersAssigned := _handlersAssigned s |}.

Definition withMouse (f : Mouse -> Mouse) (s : State) : State :=
  {| inputs := inputs s; draw := draw s; mouse := f (mouse s);
     thick := thick s; pts := pts s; scene := scene s;
     emitted := emitted s; _handlersAssigned := _handlersAssigned s |}.

Definition withThick (f : Thickness -> Thickness) (s : State) : State :=
  {| inputs := inputs s; draw := draw s; mouse := mouse s;
     thick := f (thick s); pts := pts s; scene := scene s;
     emitted := emitted s; _handlersAssigned := _handlersAssigned s |}.

Definition withPts (f : Points -> Points) (s : State) : State :=
  {| inputs := inputs s; draw := draw s; mouse := mouse s;
     thick := thick s; pts := f (pts s); scene := scene s;
     emitted := emitted s; _handlersAssigned := _handlersAssigned s |}.

Definition withScene (f : Scene -> Scene) (s : State) : State :=
  {| inputs := inputs s; draw := draw s; mouse := mouse s;
     thick := thick s; pts := pts s; scene := f (scene s);
     emitted := emitted s; _handlersAssigned := _handlersAssigned s |}.

Definition withEmitted (f : list Event -> list Event) (s : State) : State :=
  {| inputs := inputs s; draw := draw s; mouse := mouse s;
     thick := thick s; pts := pts s; scene := scene s;
     emitted := f (emitted s); _handlersAssigned := _handlersAssigned s |}.

Definition withHandlersAssigned (b : bool) (s : State) : State :=
  {| inputs := inputs s; draw := draw s; mouse := mouse s;
     thick := thick s; pts := pts s; scene := scene s;
     emitted := emitted s; _handlersAssigned := b |}.

(** The directive's methods are actions on its state. *)
Definition Action (A : Type) : Type := M State A.

(** *** Assignments to single fields *)

Definition set_objects (v : list DisplayObject) (c : Scene) : Scene :=
  {| objects := v; _strokeContainer := _strokeContainer c;
     _strokes := _strokes c; _curStrokeContainer := _curStrokeContainer c;
     _stroke := _stroke c; _tip := _tip c |}.

Definition set_strokeContainer (v : list ref) (c : Scene) : Scene :=
  {| objects := objects c; _strokeContainer := v;
     _strokes := _strokes c; _curStrokeContainer := _curStrokeContainer c;
     _stroke := _stroke c; _tip := _tip c |}.

Definition set_strokes (v : list ref) (c : Scene) : Scene :=
  {| objects := objects c; _strokeContainer := _strokeContainer c;
     _strokes := v; _curStrokeContainer := _curStrokeContainer c;
     _stroke := _stroke c; _tip := _tip c |}.

Definition set_curStrokeContainer (v : option ref) (c : Scene) : Scene :=
  {| objects := objects c; _strokeContainer := _strokeContainer c;
     _strokes := _strokes c; _curStrokeContainer := v;
     _stroke := _stroke c; _tip := _tip c |}.

Definition set_stroke (v : option ref) (c : Scene) : Scene :=
  {| objects := objects c; _strokeContainer := _strokeContainer c;
     _strokes := _strokes c; _curStrokeContainer := _curStrokeContainer c;
     _stroke := v; _tip := _tip c |}.

Definition set_tip (v : option ref) (c : Scene) : Scene :=
  {| objects := objects c; _strokeContainer := _strokeContainer c;
     _strokes := _strokes c; _curStrokeContainer := _curStrokeContainer c;
     _stroke := _stroke c; _tip := v |}.

Definition set_lastRotation (v : num) (d : Draw) : Draw :=
  {| _lastRotation := v; _lineRotation := _lineRotation d;
     _L1Sin1 := _L1Sin1 d; _L1Cos1 := _L1Cos1 d;
     _controlX1 := _controlX1 d; _controlY1 := _controlY1 d;
     _controlX2 := _controlX2 d; _controlY2 := _controlY2 d;
     _taperThickness := _taperThickness d; _taper := _taper d |}.

Definition set_taperThickness (v : num) (d : Draw) : Draw :=
  {| _lastRotation := _lastRotation d; _lineRotation := _lineRotation d;
     _L1Sin1 := _L1Sin1 d; _L1Cos1 := _L1Cos1 d;
     _controlX1 := _controlX1 d; _controlY1 := _controlY1 d;
     _controlX2 := _controlX2 d; _controlY2 := _controlY2 d;
     _taperThickness := v; _taper := _taper d |}.

Definition set_taper (v : num) (d : Draw) : Draw :=
  {| _lastRotation := _lastRotation d; _lineRotation := _lineRotation d;
     _L1Sin1 := _L1Sin1 d; _L1Cos1 := _L1Cos1 d;
     _controlX1 := _controlX1 d; _controlY1 := _controlY1 d;
     _controlX2 := _controlX2 d; _controlY2 := _controlY2 d;
     _taperThickness := _taperThickness d; _taper := v |}.

Definition set_lastThickness (v : option num) (t : Thickness) : Thickness :=
  {| _lastThickness := v; _lineThickness := _lineThickness t;
     _tipTaperFactor := _tipTaperFactor t; _minThickness := _minThickness t;
     _thicknessFactor := _thicknessFactor t;
     _thicknessSmoothingFactor := _thicknessSmoothingFactor t |}.

Definition set_lineThickness (v : option num) (t : Thickness) : Thickness :=
  {| _lastThickness := _lastThickness t; _lineThickness := v;
     _tipTaperFactor := _tipTaperFactor t; _minThickness := _minThickness t;
     _thicknessFactor := _thicknessFactor t;
     _thicknessSmoothingFactor := _thicknessSmoothingFactor t |}.

Definition set_mousePressed (v : bool) (m : Mouse) : Mouse :=
  {| _mouseMoved := _mouseMoved m;
     _lastSmoothedMouseX := _lastSmoothedMouseX m;
     _lastSmoothedMouseY := _lastSmoothedMouseY m;
     _smoothedMouseX := _smoothedMouseX m;
     _smoothedMouseY := _smoothedMouseY m;
     _lastMouseX := _lastMouseX m; _lastMouseY := _lastMouseY m;
     _startX := _startX m; _startY := _startY m;
     _mouseDeltaX := _mouseDeltaX m; _mouseDeltaY := _mouseDeltaY m;
     _lastMouseChangeVectorX := _lastMouseChangeVectorX m;
     _lastMouseChangeVectorY := _lastMouseChangeVectorY m;
     _mousePressed := v |}.

(** *** PixiJS calls *)

Definition objectAt (s : State) (r : ref) : option DisplayObject :=
  nth_error (objects (scene s)) r.

Definition store (r : ref) (o : DisplayObject) (s : State) : State :=
  withScene (fun c => set_objects (replace r o (objects c)) c) s.

(** [new PIXI.Graphics()], [new PIXI.Container()] *)
Definition new (o : DisplayObject) : Action ref :=
  fun s => Ok (length (objects (scene s)))
              (withScene (fun c => set_objects (objects c ++ [o]) c) s).

(** A method of [Graphics] called through a field or variable [g]. *)
Definition onGraphics (g : option ref)
    (f : list DrawCmd -> list DrawCmd) : Action unit :=
  fun s =>
    match g with
    | None => Throw TypeError s
    | Some r =>
        match objectAt s r with
        | Some (Graphics cmds) => Ok tt (store r (Graphics (f cmds)) s)
        | _ => Throw TypeError s
        end
    end.

Definition paint (g : option ref) (cmds : list DrawCmd) : Action unit :=
  onGraphics g (fun drawn => drawn ++ cmds).

Definition Graphics_clear (g : option ref) : Action unit :=
  onGraphics g (fun _ => []).

(** A method of [Container] called through [c]; [f] returns [None] where
    PixiJS throws on the children it finds. *)
Definition onContainer (c : option ref)
    (f : list ref -> option (list ref)) : Action unit :=
  fun s =>
    match c with
    | None => Throw TypeError s
    | Some r =>
        match objectAt s r with
        | Some (Container kids) =>
            match f kids with
            | Some kids' => Ok tt (store r (Container kids') s)
            | None => Throw PixiError s
            end
        | _ => Throw TypeError s
        end
    end.

(** The children pushed by the directive are always new objects, which have
    no parent to be detached from. *)
Definition addChild (c : option ref) (child : ref) : Action unit :=
  onContainer c (fun kids => Some (kids ++ [child])).

Definition removeChildAt (c : option ref) (i : nat) : Action unit :=
  onContainer c (fun kids =>
    if (i <? length kids)%nat then Some (removeAt i kids) else None).

Definition removeChild (c : option ref) (child : option ref) : Action unit :=
  onContainer c (fun kids =>
    match child with
    | Some k => Some (removeFirst k kids)
    | None => Some kids
    end).

Definition children (c : option ref) : Action (list ref) :=
  fun s =>
    match c with
    | None => Throw TypeError s
    | Some r =>
        match objectAt s r with
        | Some (Container kids) => Ok kids s
        | _ => Throw TypeError s
        end
    end.

(** [c.numChildren]: no display object of PixiJS 4.8.2 has this property
    (the children are counted by [c.children.length]), so that on an object
    it evaluates to [undefined]; on [undefined] it throws. *)
Definition numChildren (c : option ref) : Action (option nat) :=
  fun s =>
    match c with
    | None => Throw TypeError s
    | Some _ => Ok None s
    end.

(** [v > 0] for a value that may be [undefined]: [undefined] converts to
    NaN, and every comparison with NaN is false. *)
Definition isPositive (v : option nat) : bool :=
  match v with
  | Some n => (0 <? n)%nat
  | None => false
  end.

(** [_strokeContainer.contains(child)]: a [Container] of PixiJS 4.8.2 has no
    method [contains], so that the call throws, whatever the children and
    the argument are. *)
Definition contains (kids : list ref) (child : option ref) : Action bool :=
  throw TypeError.

(** *** The directive's getters *)

Definition numStrokes (s : State) : nat := length (_strokes (scene s)).
Definition get_x (s : State) : list num := _x (pts s).
Definition get_y (s : State) : list num := _y (pts s).

(** *** [clear] *)

Definition zeroDraw : Draw :=
  {| _lastRotation := ofZ 0; _lineRotation := ofZ 0;
     _L1Sin1 := ofZ 0; _L1Cos1 := ofZ 0;
     _controlX1 := ofZ 0; _controlY1 := ofZ 0;
     _controlX2 := ofZ 0; _controlY2 := ofZ 0;
     _taperThickness := ofZ 0; _taper := ofZ 0 |}.

Definition zeroMouse : Mouse :=
  {| _mouseMoved := false;
     _lastSmoothedMouseX := ofZ 0; _lastSmoothedMouseY := ofZ 0;
     _smoothedMouseX := ofZ 0; _smoothedMouseY := ofZ 0;
     _lastMouseX := ofZ 0; _lastMouseY := ofZ 0;
     _startX := ofZ 0; _startY := ofZ 0;
     _mouseDeltaX := ofZ 0; _mouseDeltaY := ofZ 0;
     _lastMouseChangeVectorX := ofZ 0; _lastMouseChangeVectorY := ofZ 0;
     _mousePressed := false |}.

(** [while (c.children.length > 0) { c.children[0].clear(); c.removeChildAt(0); }] *)
Fixpoint clearChildren (fuel : nat) (c : ref) : Action unit :=
  match fuel with
  | O => throw OutOfFuel
  | S fuel' =>
      kids <- children (Some c) ;;
      match kids with
      | [] => ret tt
      | k :: _ =>
          Graphics_clear (Some k) ;;
          removeChildAt (Some c) 0 ;;
          clearChildren fuel' c
      end
  end.

(** The body of the [for] loop over [_strokes]; the test
    [_strokeContainer !== undefined] holds from [__pixiSetup] on.  Each turn
    of the inner loop removes a child, so one more turn than there are
    children is enough fuel. *)
Definition clearStroke (c : ref) : Action unit :=
  kids <- children (Some c) ;;
  clearChildren (S (length kids)) c.

Fixpoint forEach (cs : list ref) (body : ref -> Action unit) : Action unit :=
  match cs with
  | [] => ret tt
  | c :: rest => body c ;; forEach rest body
  end.

(** [while (_strokeContainer.children.length > 0) _strokeContainer.removeChildAt(0);] *)
Fixpoint emptyStrokeContainer (fuel : nat) : Action unit :=
  match fuel with
  | O => throw OutOfFuel
  | S fuel' =>
      s <- get ;;
      match _strokeContainer (scene s) with
      | [] => ret tt
      | _ :: _ =>
          modify (withScene (fun c =>
            set_strokeContainer (removeAt 0 (_strokeContainer c)) c)) ;;
          emptyStrokeContainer fuel'
      end
  end.

Definition clear : Action unit :=
  modify (fun s =>
    withHandlersAssigned false
      (withMouse (fun _ => zeroMouse) (withDraw (fun _ => zeroDraw) s))) ;;
  s <- get ;;
  forEach (_strokes (scene s)) clearStroke ;;
  s <- get ;;
  emptyStrokeContainer (S (length (_strokeContainer (scene s)))) ;;
  modify (withScene (set_strokes [])).

(** *** [beginStrokeAt] *)

(** [if (this.cache) { this._x.push(x); this._y.push(y); }] *)
Definition cachePoint (x y : num) : Action unit :=
  s <- get ;;
  if cache (inputs s)
  then modify (withPts (fun p => {| _x := _x p ++ [x]; _y := _y p ++ [y] |}))
  else ret tt.

Definition mouseDownAt (x y : num) (m : Mouse) : Mouse :=
  {| _mouseMoved := false;
     _lastSmoothedMouseX := x; _lastSmoothedMouseY := y;
     _smoothedMouseX := x; _smoothedMouseY := y;
     _lastMouseX := x; _lastMouseY := y;
     _startX := x; _startY := y;
     _mouseDeltaX := _mouseDeltaX m; _mouseDeltaY := _mouseDeltaY m;
     _lastMouseChangeVectorX := ofZ 0; _lastMouseChangeVectorY := ofZ 0;
     _mousePressed := _mousePressed m |}.

Definition beginStrokeAt (x y : num) (index : Z) : Action unit :=
  modify (withPts (fun _ => {| _x := []; _y := [] |})) ;;
  cachePoint x y ;;
  modify (fun s =>
    withDraw (set_lastRotation (Math_PI / ofZ 2))
      (withThick (set_lastThickness (Some (ofZ 0)))
         (withMouse (mouseDownAt x y) s))) ;;
  g <- new (Graphics []) ;;
  modify (withScene (set_stroke (Some g))) ;;
  t <- new (Graphics []) ;;
  modify (withScene (set_tip (Some t))) ;;
  (if (index =? -1)%Z then
     c <- new (Container []) ;;
     modify (withScene (set_curStrokeContainer (Some c))) ;;
     addChild (Some c) g ;;
     addChild (Some c) t ;;
     modify (withScene (fun sc => set_strokes (_strokes sc ++ [c]) sc)) ;;
     modify (withScene (fun sc =>
       set_strokeContainer (_strokeContainer sc ++ [c]) sc))
   else
     s <- get ;;
     let c := arrayGet (_strokes (scene s)) index in
     modify (withScene (set_curStrokeContainer c)) ;;
     n <- numChildren c ;;
     (if isPositive n then removeChildAt c 0 else ret tt) ;;
     addChild c g ;;
     addChild c t) ;;
  modify (withMouse (set_mousePressed true)) ;;
  modify (withEmitted (fun es => es ++ [beginStroke])).

(** *** [__drawTip] *)

Definition tipCircle (s : State) (x y : num) : list DrawCmd :=
  [ beginFill (fillColor (inputs s)) (ofZ 1);
    drawCircle x y (_taperThickness (draw s));
    endFill ].

Definition tipQuad (s : State) (x y : num) : list DrawCmd :=
  let m := mouse s in
  let d := draw s in
  [ beginFill (fillColor (inputs s)) (ofZ 1);
    moveTo (_smoothedMouseX m + _L1Cos1 d) (_smoothedMouseY m + _L1Sin1 d);
    lineTo (x + _taper d * _L1Cos1 d) (y + _taper d * _L1Sin1 d);
    lineTo (x - _taper d * _L1Cos1 d) (y - _taper d * _L1Sin1 d);
    lineTo (_smoothedMouseX m - _L1Cos1 d) (_smoothedMouseY m - _L1Sin1 d);
    lineTo (_smoothedMouseX m + _L1Cos1 d) (_smoothedMouseY m + _L1Sin1 d);
    endFill ].

Definition __drawTip (isFinal : bool) (x y : num) : Action unit :=
  modify (fun s =>
    withDraw (set_taperThickness
      (_tipTaperFactor (thick s) * toNumber (_lineThickness (thick s)))) s) ;;
  s <- get ;;
  let g := if isFinal then _stroke (scene s) else _tip (scene s) in
  (if isFinal then ret tt else Graphics_clear (_tip (scene s))) ;;
  s <- get ;;
  paint g (tipCircle s x y) ;;
  modify (fun s => withDraw (set_taper (_tipTaperFactor (thick s))) s) ;;
  s <- get ;;
  paint g (tipQuad s x y).

(** *** [endStrokeAt] *)

Definition endStrokeAt (x y : num) : Action unit :=
  cachePoint x y ;;
  __drawTip true x y ;;
  s <- get ;;
  Graphics_clear (_tip (scene s)) ;;
  s <- get ;;
  removeChild (_curStrokeContainer (scene s)) (_tip (scene s)) ;;
  modify (withScene (set_tip None)) ;;
  modify (withMouse (set_mousePressed false)) ;;
  modify (withEmitted (fun es => es ++ [endStroke])).

(** *** [eraseStroke] *)

Definition eraseStroke (index : Z) : Action bool :=
  s <- get ;;
  if (index <? Z.of_nat (length (_strokes (scene s))))%Z then
    let s0 := arrayGet (_strokes (scene s)) index in
    found <- contains (_strokeContainer (scene s)) s0 ;;
    (if found
     then modify (withScene (fun sc =>
            set_strokeContainer
              (match s0 with
               | Some r => removeFirst r (_strokeContainer sc)
               | None => _strokeContainer sc
               end) sc))
     else ret tt) ;;
    modify (withScene (fun sc => set_strokes (splice1 (_strokes sc) index) sc)) ;;
    ret true
  else ret false.

(** *** [updateStroke] *)

Definition mouseMovedTo (x y : num) (m : Mouse) : Mouse :=
  {| _mouseMoved := true;
     _lastSmoothedMouseX := _lastSmoothedMouseX m;
     _lastSmoothedMouseY := _lastSmoothedMouseY m;
     _smoothedMouseX := _smoothedMouseX m;
     _smoothedMouseY := _smoothedMouseY m;
     _lastMouseX := _lastMouseX m; _lastMouseY := _lastMouseY m;
     _startX := _startX m; _startY := _startY m;
     _mouseDeltaX := x - _lastMouseX m; _mouseDeltaY := y - _lastMouseY m;
     _lastMouseChangeVectorX := _lastMouseChangeVectorX m;
     _lastMouseChangeVectorY := _lastMouseChangeVectorY m;
     _mousePressed := _mousePressed m |}.

(** The dot product of the raw change with the previous raw change. *)
Definition movementDot (m : Mouse) : num :=
  _mouseDeltaX m * _lastMouseChangeVectorX m
  + _mouseDeltaY m * _lastMouseChangeVectorY m.

(** [_smoothedMouseX = _lastSmoothedMouseX = _lastMouseX], and the same in y *)
Definition restartAtLastMouse (m : Mouse) : Mouse :=
  {| _mouseMoved := _mouseMoved m;
     _lastSmoothedMouseX := _lastMouseX m;
     _lastSmoothedMouseY := _lastMouseY m;
     _smoothedMouseX := _lastMouseX m;
     _smoothedMouseY := _lastMouseY m;
     _lastMouseX := _lastMouseX m; _lastMouseY := _lastMouseY m;
     _startX := _startX m; _startY := _startY m;
     _mouseDeltaX := _mouseDeltaX m; _mouseDeltaY := _mouseDeltaY m;
     _lastMouseChangeVectorX := _lastMouseChangeVectorX m;
     _lastMouseChangeVectorY := _lastMouseChangeVectorY m;
     _mousePressed := _mousePressed m |}.

Definition turnAtCusp (s : State) : State :=
  withThick (fun t =>
      set_lastThickness
        (Some (_tipTaperFactor t * toNumber (_lastThickness t))) t)
    (withDraw (fun d => set_lastRotation (_lastRotation d + Math_PI) d)
       (withMouse restartAtLastMouse s)).

(** From the raw change of position to the end of the cusp branch. *)
Definition detectCusp (x y : num) : Action unit :=
  modify (withMouse (mouseMovedTo x y)) ;;
  s <- get ;;
  if movementDot (mouse s) <? ofZ 0 then
    __drawTip true (_lastMouseX (mouse s)) (_lastMouseY (mouse s)) ;;
    modify turnAtCusp
  else ret tt.

Definition smoothTowards (a x y : num) (m : Mouse) : Mouse :=
  {| _mouseMoved := _mouseMoved m;
     _lastSmoothedMouseX := _lastSmoothedMouseX m;
     _lastSmoothedMouseY := _lastSmoothedMouseY m;
     _smoothedMouseX := _smoothedMouseX m + a * (x - _smoothedMouseX m);
     _smoothedMouseY := _smoothedMouseY m + a * (y - _smoothedMouseY m);
     _lastMouseX := _lastMouseX m; _lastMouseY := _lastMouseY m;
     _startX := _startX m; _startY := _startY m;
     _mouseDeltaX := _mouseDeltaX m; _mouseDeltaY := _mouseDeltaY m;
     _lastMouseChangeVectorX := _lastMouseChangeVectorX m;
     _lastMouseChangeVectorY := _lastMouseChangeVectorY m;
     _mousePressed := _mousePressed m |}.

(** The constants of one segment, computed after smoothing. *)
Definition seg_dx (s : State) : num :=
  _smoothedMouseX (mouse s) - _lastSmoothedMouseX (mouse s).
Definition seg_dy (s : State) : num :=
  _smoothedMouseY (mouse s) - _lastSmoothedMouseY (mouse s).
Definition seg_dist (s : State) : num :=
  Math_sqrt (seg_dx s * seg_dx s + seg_dy s * seg_dy s).
Definition targetLineThickness (s : State) : num :=
  _minThickness (thick s) + _thicknessFactor (thick s) * seg_dist s.
Definition lineRotation (s : State) : num :=
  if negb (nseq (seg_dist s) (ofZ 0))
  then Math_PI / ofZ 2 + Math_atan2 (seg_dy s) (seg_dx s)
  else ofZ 0.
Definition lineThickness (s : State) : num :=
  toNumber (_lastThickness (thick s))
  + _thicknessSmoothingFactor (thick s)
    * (targetLineThickness s - toNumber (_lastThickness (thick s))).
Definition sin0 (s : State) : num := Math_sin (_lastRotation (draw s)).
Definition cos0 (s : State) : num := Math_cos (_lastRotation (draw s)).
Definition L0Sin0 (s : State) : num :=
  toNumber (_lastThickness (thick s)) * sin0 s.
Definition L0Cos0 (s : State) : num :=
  toNumber (_lastThickness (thick s)) * cos0 s.
Definition controlVecX (s : State) : num := ratio 33 100 * seg_dist s * sin0 s.
Definition controlVecY (s : State) : num :=
  - ratio 33 100 * seg_dist s * cos0 s.

(** The assignments from [_lineRotation] to [_controlY2]. *)
Definition segmentDraw (s : State) : Draw :=
  let m := mouse s in
  {| _lastRotation := _lastRotation (draw s);
     _lineRotation := lineRotation s;
     _L1Sin1 := lineThickness s * Math_sin (lineRotation s);
     _L1Cos1 := lineThickness s * Math_cos (lineRotation s);
     _controlX1 := _lastSmoothedMouseX m + L0Cos0 s + controlVecX s;
     _controlY1 := _lastSmoothedMouseY m + L0Sin0 s + controlVecY s;
     _controlX2 := _lastSmoothedMouseX m - L0Cos0 s + controlVecX s;
     _controlY2 := _lastSmoothedMouseY m - L0Sin0 s + controlVecY s;
     _taperThickness := _taperThickness (draw s);
     _taper := _taper (draw s) |}.

Definition segment (s : State) : State :=
  withDraw (fun _ => segmentDraw s)
    (withThick (set_lineThickness (Some (lineThickness s))) s).

(** The filled patch between the last and the new smoothed position; [s0] is
    the state after smoothing, where the locals were computed, and [s] the
    state with the segment's fields assigned. *)
Definition patch (s0 s : State) : list DrawCmd :=
  let m := mouse s in
  let d := draw s in
  [ beginFill (fillColor (inputs s)) (ofZ 1);
    moveTo (_lastSmoothedMouseX m + L0Cos0 s0)
           (_lastSmoothedMouseY m + L0Sin0 s0);
    quadraticCurveTo (_controlX1 d) (_controlY1 d)
                     (_smoothedMouseX m + _L1Cos1 d)
                     (_smoothedMouseY m + _L1Sin1 d);
    lineTo (_smoothedMouseX m - _L1Cos1 d) (_smoothedMouseY m - _L1Sin1 d);
    quadraticCurveTo (_controlX2 d) (_controlY2 d)
                     (_lastSmoothedMouseX m - L0Cos0 s0)
                     (_lastSmoothedMouseY m - L0Sin0 s0);
    lineTo (_lastSmoothedMouseX m + L0Cos0 s0)
           (_lastSmoothedMouseY m + L0Sin0 s0);
    endFill ].

Definition commitMouse (x y : num) (m : Mouse) : Mouse :=
  {| _mouseMoved := _mouseMoved m;
     _lastSmoothedMouseX := _smoothedMouseX m;
     _lastSmoothedMouseY := _smoothedMouseY m;
     _smoothedMouseX := _smoothedMouseX m;
     _smoothedMouseY := _smoothedMouseY m;
     _lastMouseX := x; _lastMouseY := y;
     _startX := _startX m; _startY := _startY m;
     _mouseDeltaX := _mouseDeltaX m; _mouseDeltaY := _mouseDeltaY m;
     _lastMouseChangeVectorX := _mouseDeltaX m;
     _lastMouseChangeVectorY := _mouseDeltaY m;
     _mousePressed := _mousePressed m |}.

Definition commit (x y : num) (s : State) : State :=
  withMouse (commitMouse x y)
    (withThick (fun t => set_lastThickness (_lineThickness t) t)
       (withDraw (fun d => set_lastRotation (_lineRotation d) d) s)).

(** From smoothing to the assignments of the "last" fields. *)
Definition extendStroke (x y : num) : Action unit :=
  modify (fun s => withMouse (smoothTowards (smoothing (inputs s)) x y) s) ;;
  s0 <- get ;;
  modify segment ;;
  s <- get ;;
  paint (_stroke (scene s)) (patch s0 s) ;;
  __drawTip false x y ;;
  modify (commit x y).

Definition updateStroke (x y : num) : Action unit :=
  s <- get ;;
  if negb (_mousePressed (mouse s)) then ret tt
  else
    cachePoint x y ;;
    detectCusp x y ;;
    extendStroke x y.

(** *** Handlers and inputs *)

Definition __assignMouseHandlers : Action unit :=
  modify (withHandlersAssigned true).

Definition __removeMouseHandlers : Action unit :=
  modify (withHandlersAssigned false).

Definition ngAfterViewInit : Action unit :=
  s <- get ;;
  if interactive (inputs s) && negb (_handlersAssigned s)
  then __assignMouseHandlers else ret tt.

Definition ngOnDestroy : Action unit :=
  s <- get ;;
  if interactive (inputs s) then __removeMouseHandlers else ret tt.

(** One property of a [SimpleChanges] object with its current value; a value
    of [cache] or [interactive] counts when it is [true]. *)
Inductive Change : Type :=
| change_cache (currentValue : bool)
| change_interactive (currentValue : bool)
| change_smoothing (currentValue : num)
| change_fillColor (currentValue : num).

Definition set_cache (v : bool) (i : Inputs) : Inputs :=
  {| interactive := interactive i; cache := v;
     smoothing := smoothing i; fillColor := fillColor i |}.

Definition set_interactive (v : bool) (i : Inputs) : Inputs :=
  {| interactive := v; cache := cache i;
     smoothing := smoothing i; fillColor := fillColor i |}.

Definition set_smoothing (v : num) (i : Inputs) : Inputs :=
  {| interactive := interactive i; cache := cache i;
     smoothing := v; fillColor := fillColor i |}.

Definition set_fillColor (v : num) (i : Inputs) : Inputs :=
  {| interactive := interactive i; cache := cache i;
     smoothing := smoothing i; fillColor := v |}.

Definition applyChange (ch : Change) : Action unit :=
  match ch with
  | change_cache v => modify (withInputs (set_cache v))
  | change_interactive v =>
      modify (withInputs (set_interactive v)) ;;
      if v then __assignMouseHandlers else __removeMouseHandlers
  | change_smoothing v =>
      if negb (isNaN v) && (ofZ 0 <? v) && (v <? ratio 75 100)
      then modify (withInputs (set_smoothing v)) else ret tt
  | change_fillColor f =>
      if negb (isNaN f)
      then modify (withInputs (set_fillColor f)) else ret tt
  end.

Fixpoint ngOnChanges (changes : list Change) : Action unit :=
  match changes with
  | [] => ret tt
  | ch :: rest => applyChange ch ;; ngOnChanges rest
  end.

(** *** The constructor *)

Definition unassignedDraw : Draw :=
  {| _lastRotation := NaN; _lineRotation := NaN;
     _L1Sin1 := NaN; _L1Cos1 := NaN;
     _controlX1 := NaN; _controlY1 := NaN;
     _controlX2 := NaN; _controlY2 := NaN;
     _taperThickness := NaN; _taper := NaN |}.

Definition unassignedMouse : Mouse :=
  {| _mouseMoved := false;
     _lastSmoothedMouseX := NaN; _lastSmoothedMouseY := NaN;
     _smoothedMouseX := NaN; _smoothedMouseY := NaN;
     _lastMouseX := NaN; _lastMouseY := NaN;
     _startX := NaN; _startY := NaN;
     _mouseDeltaX := NaN; _mouseDeltaY := NaN;
     _lastMouseChangeVectorX := NaN; _lastMouseChangeVectorY := NaN;
     _mousePressed := false |}.

(** The fields when the constructor reaches its last statement,
    [this.clear()]: the defaults are assigned and [__pixiSetup] has created
    the empty container of strokes.  The fields that [clear] is about to
    assign are still undefined; they are shown as what [undefined] converts
    to. *)
Definition constructed : State :=
  {| inputs := {| interactive := true; cache := true;
                  smoothing := ratio 3 10; fillColor := ofZ 255 |};
     draw := unassignedDraw;
     mouse := unassignedMouse;
     thick := {| _lastThickness := None; _lineThickness := None;
                 _tipTaperFactor := ratio 8 10; _minThickness := ofZ 1;
                 _thicknessFactor := ratio 3 10;
                 _thicknessSmoothingFactor := ratio 3 10 |};
     pts := {| _x := []; _y := [] |};
     scene := {| objects := []; _strokeContainer := []; _strokes := [];
                 _curStrokeContainer := None; _stroke := None;
                 _tip := None |};
     emitted := [];
     _handlersAssigned := false |}.

Definition newDirective : State := after (clear constructed).

(** *** Sessions: the calls a client makes, one after the other *)

Inductive Call : Type :=
| call_clear
| call_beginStrokeAt (x y : num) (index : Z)
| call_updateStroke (x y : num)
| call_endStrokeAt (x y : num)
| call_eraseStroke (index : Z)
| call_ngOnChanges (changes : list Change).

(** The state after a call; an exception leaves the directive as it was
    when it was thrown. *)
Definition perform (s : State) (c : Call) : State :=
  match c with
  | call_clear => after (clear s)
  | call_beginStrokeAt x y index => after (beginStrokeAt x y index s)
  | call_updateStroke x y => after (updateStroke x y s)
  | call_endStrokeAt x y => after (endStrokeAt x y s)
  | call_eraseStroke index => after (eraseStroke index s)
  | call_ngOnChanges changes => after (ngOnChanges changes s)
  end.

Definition performAll (s : State) (cs : list Call) : State :=
  fold_left perform cs s.

Definition session (cs : list Call) : State := performAll newDirective cs.

End Directive.

(** ** The directive in its page

    The constructor keeps the host element and the bounding rectangle it
    has at that time; [__assignMouseHandlers] creates three arrow functions
    and registers them as listeners of the host element.  The model above
    keeps of this the flag [_handlersAssigned] only.  Here the directive is
    taken with its listeners: the rectangle, the three handler fields, and
    the list of listeners of the host element. *)

Module Page.

Inductive MouseEventType : Type := mousedown | mouseup | mousemove.

Definition sameType (a b : MouseEventType) : bool :=
  match a, b with
  | mousedown, mousedown | mouseup, mouseup | mousemove, mousemove => true
  | _, _ => false
  end.

(** The arrow functions of [__assignMouseHandlers]; two of them are the
    same function object when the same call created them. *)
Inductive Handler : Type :=
| mouseDownHandler (assignment : nat)
| mouseUpHandler (assignment : nat)
| mouseMoveHandler (assignment : nat).

Definition sameHandler (f g : Handler) : bool :=
  match f, g with
  | mouseDownHandler i, mouseDownHandler j
  | mouseUpHandler i, mouseUpHandler j
  | mouseMoveHandler i, mouseMoveHandler j => Nat.eqb i j
  | _, _ => false
  end.

Definition Listener : Type := (MouseEventType * Handler)%type.

(** [target.addEventListener(type, f)]: a function that is already
    registered for the type is not registered again. *)
Definition addEventListener (type : MouseEventType) (f : Handler)
    (listeners : list Listener) : list Listener :=
  if existsb (fun l => sameType (fst l) type && sameHandler (snd l) f)
       listeners
  then listeners
  else listeners ++ [(type, f)].

(** The listeners that the [k]-th call of [__assignMouseHandlers] adds. *)
Definition handlersOf (k : nat) : list Listener :=
  [ (mousedown, mouseDownHandler k);
    (mouseup, mouseUpHandler k);
    (mousemove, mouseMoveHandler k) ].

(** The call of [__assignMouseHandlers] that created a handler. *)
Definition assignmentOf (f : Handler) : nat :=
  match f with
  | mouseDownHandler k | mouseUpHandler k | mouseMoveHandler k => k
  end.

Section Host.

Context {num : Type} {N : Number num}.
Local Open Scope num_scope.

Record MouseEvent : Type := {
  eventType : MouseEventType;
  clientX : num;
  clientY : num
}.

Record ClientRect : Type := {
  rect_left : num;
  rect_top : num
}.

Record Hosted : Type := {
  directive : @State num;
  _rect : ClientRect;
  _container : list Listener;      (* the listeners of the host element *)
  _mouseDown : option Handler;
  _mouseUp : option Handler;
  _mouseMove : option Handler;
  assignments : nat                (* calls of [__assignMouseHandlers] *)
}.

Definition withDirective (f : @State num -> @State num) (h : Hosted)
  : Hosted :=
  {| directive := f (directive h); _rect := _rect h;
     _container := _container h;
     _mouseDown := _mouseDown h; _mouseUp := _mouseUp h;
     _mouseMove := _mouseMove h; assignments := assignments h |}.

Definition withListeners (f : list Listener -> list Listener) (h : Hosted)
  : Hosted :=
  {| directive := directive h; _rect := _rect h;
     _container := f (_container h);
     _mouseDown := _mouseDown h; _mouseUp := _mouseUp h;
     _mouseMove := _mouseMove h; assignments := assignments h |}.

(** The three assignments of new arrow functions. *)
Definition newHandlers (h : Hosted) : Hosted :=
  {| directive := directive h; _rect := _rect h;
     _container := _container h;
     _mouseDown := Some (mouseDownHandler (assignments h));
     _mouseUp := Some (mouseUpHandler (assignments h));
     _mouseMove := Some (mouseMoveHandler (assignments h));
     assignments := S (assignments h) |}.

(** A method of the directive that does not touch the page. *)
Definition onDirective {A} (m : @Action num A) : M Hosted A :=
  fun h =>
    match m (directive h) with
    | Ok a s => Ok a (withDirective (fun _ => s) h)
    | Throw e s => Throw e (withDirective (fun _ => s) h)
    end.

(** [this._container.addEventListener(type, f)] when [f] is defined. *)
Definition listen (type : MouseEventType) (f : option Handler)
  : M Hosted unit :=
  match f with
  | Some f => modify (withListeners (addEventListener type f))
  | None => ret tt
  end.

Definition __assignMouseHandlers : M Hosted unit :=
  modify newHandlers ;;
  h <- get ;;
  listen mousedown (_mouseDown h) ;;
  listen mouseup (_mouseUp h) ;;
  listen mousemove (_mouseMove h) ;;
  onDirective (modify (withHandlersAssigned true)).

(** The three calls in [__removeMouseHandlers] are calls of
    [addEventListener], as in [__assignMouseHandlers]. *)
Definition __removeMouseHandlers : M Hosted unit :=
  h <- get ;;
  listen mousedown (_mouseDown h) ;;
  listen mouseup (_mouseUp h) ;;
  listen mousemove (_mouseMove h) ;;
  onDirective (modify (withHandlersAssigned false)).

Definition ngAfterViewInit : M Hosted unit :=
  h <- get ;;
  if interactive (inputs (directive h))
     && negb (_handlersAssigned (directive h))
  then __assignMouseHandlers else ret tt.

Definition ngOnDestroy : M Hosted unit :=
  h <- get ;;
  if interactive (inputs (directive h)) then __removeMouseHandlers
  else ret tt.

Definition applyChange (ch : @Change num) : M Hosted unit :=
  match ch with
  | change_cache v => onDirective (modify (withInputs (set_cache v)))
  | change_interactive v =>
      onDirective (modify (withInputs (set_interactive v))) ;;
      if v then __assignMouseHandlers else __removeMouseHandlers
  | change_smoothing v =>
      if negb (isNaN v) && (ofZ 0 <? v) && (v <? ratio 75 100)
      then onDirective (modify (withInputs (set_smoothing v))) else ret tt
  | change_fillColor f =>
      if negb (isNaN f)
      then onDirective (modify (withInputs (set_fillColor f))) else ret tt
  end.

Fixpoint ngOnChanges (changes : list (@Change num)) : M Hosted unit :=
  match changes with
  | [] => ret tt
  | ch :: rest => applyChange ch ;; ngOnChanges rest
  end.

(** The body of an arrow function, called with a mouse event. *)
Definition handle (f : Handler) (evt : MouseEvent) : M Hosted unit :=
  h <- get ;;
  let x := clientX evt - rect_left (_rect h) in
  let y := clientY evt - rect_top (_rect h) in
  match f with
  | mouseDownHandler _ => onDirective (beginStrokeAt x y (-1))
  | mouseUpHandler _ => onDirective (endStrokeAt x y)
  | mouseMoveHandler _ => onDirective (updateStroke x y)
  end.

(** A mouse event on the host element: the listeners of its type are called
    in the order of their registration; an exception thrown by one of them
    is reported and the next one is called. *)
Definition dispatchEvent (evt : MouseEvent) (h : Hosted) : Hosted :=
  fold_left
    (fun h' (l : Listener) =>
       if sameType (fst l) (eventType evt)
       then after (handle (snd l) evt h') else h')
    (_container h) h.

(** The directive when its constructor returns, in a host element whose
    bounding rectangle is [rect]. *)
Definition constructedIn (rect : ClientRect) : Hosted :=
  {| directive := newDirective; _rect := rect; _container := [];
     _mouseDown := None; _mouseUp := None; _mouseMove := None;
     assignments := 0 |}.

(** What happens to a directive in its page: Angular calls its hooks, the
    user moves the mouse, the client code calls the public operations. *)
Inductive Step : Type :=
| step_ngAfterViewInit
| step_ngOnChanges (changes : list (@Change num))
| step_ngOnDestroy
| step_event (evt : MouseEvent)
| step_call (c : @Call num).

Definition step (h : Hosted) (c : Step) : Hosted :=
  match c with
  | step_ngAfterViewInit => after (ngAfterViewInit h)
  | step_ngOnChanges changes => after (ngOnChanges changes h)
  | step_ngOnDestroy => after (ngOnDestroy h)
  | step_event evt => dispatchEvent evt h
  | step_call (call_ngOnChanges changes) => after (ngOnChanges changes h)
  | step_call c => withDirective (fun s => perform s c) h
  end.

Definition run (rect : ClientRect) (cs : list Step) : Hosted :=
  fold_left step cs (constructedIn rect).

(** The call that the handlers make of a mouse event. *)
Definition callOf (rect : ClientRect) (evt : MouseEvent) : @Call num :=
  let x := clientX evt - rect_left rect in
  let y := clientY evt - rect_top rect in
  match eventType evt with
  | mousedown => call_beginStrokeAt x y (-1)
  | mouseup => call_endStrokeAt x y
  | mousemove => call_updateStroke x y
  end.

(** The events of one stroke drawn with the mouse. *)
Definition gesture (down : num * num) (moves : list (num * num))
    (up : num * num) : list MouseEvent :=
  {| eventType := mousedown; clientX := fst down; clientY := snd down |}
  :: map (fun p => {| eventType := mousemove;
                      clientX := fst p; clientY := snd p |}) moves
  ++ [ {| eventType := mouseup; clientX := fst up; clientY := snd up |} ].

(** The listeners after [n] calls of [__assignMouseHandlers]. *)
Definition listenersOf (n : nat) : list Listener :=
  flat_map handlersOf (seq 0 n).

(** Every handler that was ever created is registered, and the fields hold
    the handlers created last. *)
Definition registered (h : Hosted) : Prop :=
  _container h = listenersOf (assignments h)
  /\ match assignments h with
     | O => _mouseDown h = None /\ _mouseUp h = None /\ _mouseMove h = None
     | S k => _mouseDown h = Some (mouseDownHandler k)
              /\ _mouseUp h = Some (mouseUpHandler k)
              /\ _mouseMove h = Some (mouseMoveHandler k)
     end.

End Host.

End Page.

(** ** The demo component

    [AppComponent] holds the directive as a view child and keeps a copy of
    the coordinates of the last stroke; [x] and [y] of the directive return
    copies of its logs. *)

Module App.

Section Component.

Context {num : Type} {N : Number num}.

Record AppComponent : Type := {
  cacheStrokes : bool;
  _freehandX : list num;
  _freehandY : list num
}.

(** The constructor. *)
Definition created : AppComponent :=
  {| cacheStrokes := false; _freehandX := []; _freehandY := [] |}.

Definition set_cacheStrokes (v : bool) (a : AppComponent) : AppComponent :=
  {| cacheStrokes := v;
     _freehandX := _freehandX a; _freehandY := _freehandY a |}.

Definition onBeginStroke (a : AppComponent) : AppComponent :=
  if cacheStrokes a
  then {| cacheStrokes := cacheStrokes a;
          _freehandX := []; _freehandY := [] |}
  else a.

Definition onEndStroke (_freehand : @State num) (a : AppComponent)
  : AppComponent :=
  if cacheStrokes a
  then {| cacheStrokes := cacheStrokes a;
          _freehandX := get_x _freehand; _freehandY := get_y _freehand |}
  else a.

Definition onClear : @Action num unit := clear.

(** The component with its directive, and what can happen to them, in any
    order: the component's handlers are called, [cacheStrokes] (a public
    field) is assigned, the directive's operations are called. *)
Inductive Step : Type :=
| step_onBeginStroke
| step_onEndStroke
| step_onClear
| step_cacheStrokes (v : bool)
| step_directive (c : @Call num).

Definition step (p : AppComponent * @State num) (c : Step)
  : AppComponent * @State num :=
  let (a, d) := p in
  match c with
  | step_onBeginStroke => (onBeginStroke a, d)
  | step_onEndStroke => (onEndStroke d a, d)
  | step_onClear => (a, after (onClear d))
  | step_cacheStrokes v => (set_cacheStrokes v a, d)
  | step_directive c => (a, perform d c)
  end.

Definition run (cs : list Step) : AppComponent * @State num :=
  fold_left step cs (created, newDirective).

End Component.

End App.

(** * Vocabulary of the properties *)

(** ** What a call preserves

    [preserves I m]: the state that [m] leaves behind satisfies [I] when the
    state it started from does, whether [m] completed or threw. *)

Definition preserves {S A} (I : S -> Prop) (m : M S A) : Prop :=
  forall s, I s -> I (after (m s)).

Section Vocabulary.

Context {num : Type} {N : Number num}.

(** Invariants that do not read the display objects survive every PixiJS
    call. *)
Definition ignoresObjects (I : @State num -> Prop) : Prop :=
  forall s h, I s -> I (withScene (set_objects h) s).

(** The two coordinate logs have the same length. *)
Definition logsAligned (s : @State num) : Prop :=
  length (get_x s) = length (get_y s).

(** ** Fields and display objects, apart

    Drawing changes the display objects and nothing else; the assignments
    of the directive read and write the other fields only. *)

Definition withObjects (h : list (@DisplayObject num)) (s : @State num)
  : @State num :=
  withScene (set_objects h) s.

Definition isGraphics (h : list (@DisplayObject num)) (r : ref) : Prop :=
  exists cmds, nth_error h r = Some (Graphics cmds).

(** A stroke that can be extended: [_stroke] and [_tip] are [Graphics]. *)
Definition live (s : @State num) : Prop :=
  exists g t, _stroke (scene s) = Some g /\ _tip (scene s) = Some t
    /\ isGraphics (objects (scene s)) g /\ isGraphics (objects (scene s)) t.

(** The state that [beginStrokeAt(x, y)] leaves when no index is given. *)
Definition begun (x y : num) (s : @State num) : @State num :=
  let h := objects (scene s) in
  let g := length h in
  let t := S g in
  let c := S t in
  {| inputs := inputs s;
     draw := set_lastRotation (Math_PI / ofZ 2)%num (draw s);
     mouse := set_mousePressed true (mouseDownAt x y (mouse s));
     thick := set_lastThickness (Some (ofZ 0)) (thick s);
     pts := if cache (inputs s) then {| _x := [x]; _y := [y] |}
            else {| _x := []; _y := [] |};
     scene := {| objects := h ++ [Graphics []; Graphics []; Container [g; t]];
                 _strokeContainer := _strokeContainer (scene s) ++ [c];
                 _strokes := _strokes (scene s) ++ [c];
                 _curStrokeContainer := Some c;
                 _stroke := Some g;
                 _tip := Some t |};
     emitted := emitted s ++ [beginStroke];
     _handlersAssigned := _handlersAssigned s |}.

(** The two assignments of [__drawTip]. *)
Definition tipFields (s : @State num) : @State num :=
  withDraw (set_taper (_tipTaperFactor (thick s)))
    (withDraw (set_taperThickness
       (_tipTaperFactor (thick s) * toNumber (_lineThickness (thick s)))%num)
       s).

(** The tip of section 4.3 of the specification at [(x, y)]: a disc of
    radius tip-taper factor times line thickness, and the quadrilateral from
    the trailing edge of the ribbon to the tapered offsets at [(x, y)]. *)
Definition tipCap (s : @State num) (x y : num) : list (@DrawCmd num) :=
  let fill := fillColor (inputs s) in
  let taper := _tipTaperFactor (thick s) in
  let sx := _smoothedMouseX (mouse s) in
  let sy := _smoothedMouseY (mouse s) in
  let c1 := _L1Cos1 (draw s) in
  let s1 := _L1Sin1 (draw s) in
  [ beginFill fill (ofZ 1);
    drawCircle x y (taper * toNumber (_lineThickness (thick s)));
    endFill;
    beginFill fill (ofZ 1);
    moveTo (sx + c1) (sy + s1);
    lineTo (x + taper * c1) (y + taper * s1);
    lineTo (x - taper * c1) (y - taper * s1);
    lineTo (sx - c1) (sy - s1);
    lineTo (sx + c1) (sy + s1);
    endFill ]%num.

(** [cuspAt x y s]: the test of the cusp branch when [(x, y)] arrives. *)
Definition cuspAt (x y : num) (s : @State num) : bool :=
  ((x - _lastMouseX (mouse s)) * _lastMouseChangeVectorX (mouse s)
   + (y - _lastMouseY (mouse s)) * _lastMouseChangeVectorY (mouse s)
   <? ofZ 0)%num.

Definition cacheFields (x y : num) (s : @State num) : @State num :=
  if cache (inputs s)
  then withPts (fun p => {| _x := _x p ++ [x]; _y := _y p ++ [y] |}) s
  else s.

(** The fields before smoothing. *)
Definition cuspFields (x y : num) (s : @State num) : @State num :=
  let s2 := withMouse (mouseMovedTo x y) s in
  if cuspAt x y s then turnAtCusp (tipFields s2) else s2.

(** The fields after smoothing, segment, tip and the "last" assignments. *)
Definition extendFields (x y : num) (s : @State num) : @State num :=
  commit x y
    (tipFields
       (segment (withMouse (smoothTowards (smoothing (inputs s)) x y) s))).

(** All the assignments of an [updateStroke(x, y)] that is not a no-op. *)
Definition updateFields (x y : num) (s : @State num) : @State num :=
  extendFields x y (cuspFields x y (cacheFields x y s)).

(** What the drawing of an [updateStroke(x, y)] leaves in the store [h],
    when [g] is the body of the stroke and [t] its tip. *)
Definition paintOn (r : ref) (cmds : list (@DrawCmd num))
    (h : list (@DisplayObject num)) : list (@DisplayObject num) :=
  match nth_error h r with
  | Some (Graphics drawn) => replace r (Graphics (drawn ++ cmds)) h
  | _ => h
  end.

Definition cuspObjects (x y : num) (s : @State num) (g : ref)
    (h : list (@DisplayObject num)) : list (@DisplayObject num) :=
  if cuspAt x y s
  then paintOn g (tipCap (withMouse (mouseMovedTo x y) s)
                    (_lastMouseX (mouse s)) (_lastMouseY (mouse s))) h
  else h.

Definition extendObjects (x y : num) (s : @State num) (g t : ref)
    (h : list (@DisplayObject num)) : list (@DisplayObject num) :=
  let s5 := withMouse (smoothTowards (smoothing (inputs s)) x y) s in
  let s6 := segment s5 in
  replace t (Graphics (tipCap s6 x y)) (paintOn g (patch s5 s6) h).

Definition updateObjects (x y : num) (s : @State num) (g t : ref)
    (h : list (@DisplayObject num)) : list (@DisplayObject num) :=
  let s1 := cacheFields x y s in
  extendObjects x y (cuspFields x y s1) g t (cuspObjects x y s1 g h).

(** The state that [beginStrokeAt(x, y, index)] leaves when [index] selects
    the drawable group [c], whose children were [kids]: the test on
    [numChildren] fails and no child is removed. *)
Definition restarted (x y : num) (c : ref) (kids : list ref)
    (s : @State num) : @State num :=
  let h := objects (scene s) in
  let g := length h in
  let t := S g in
  {| inputs := inputs s;
     draw := set_lastRotation (Math_PI / ofZ 2)%num (draw s);
     mouse := set_mousePressed true (mouseDownAt x y (mouse s));
     thick := set_lastThickness (Some (ofZ 0)) (thick s);
     pts := if cache (inputs s) then {| _x := [x]; _y := [y] |}
            else {| _x := []; _y := [] |};
     scene := {| objects := replace c (Container (kids ++ [g; t]))
                              (h ++ [Graphics []; Graphics []]);
                 _strokeContainer := _strokeContainer (scene s);
                 _strokes := _strokes (scene s);
                 _curStrokeContainer := Some c;
                 _stroke := Some g;
                 _tip := Some t |};
     emitted := emitted s ++ [beginStroke];
     _handlersAssigned := _handlersAssigned s |}.

(** Every stroke of the collection is a drawable group whose children are
    [Graphics]. *)
Definition groupsOfGraphics (h : list (@DisplayObject num))
    (strokes : list ref) : Prop :=
  forall r, In r strokes ->
    exists kids, nth_error h r = Some (Container kids)
      /\ forall k, In k kids -> isGraphics h k.

Definition wellFormed (s : @State num) : Prop :=
  groupsOfGraphics (objects (scene s)) (_strokes (scene s)).

(** The state that [clear()] leaves, with [h] for the display objects. *)
Definition cleared (h : list (@DisplayObject num)) (s : @State num)
  : @State num :=
  {| inputs := inputs s;
     draw := zeroDraw;
     mouse := zeroMouse;
     thick := thick s;
     pts := pts s;
     scene := {| objects := h;
                 _strokeContainer := [];
                 _strokes := [];
                 _curStrokeContainer := _curStrokeContainer (scene s);
                 _stroke := _stroke (scene s);
                 _tip := _tip (scene s) |};
     emitted := emitted s;
     _handlersAssigned := false |}.

(** ** Thickness along a stroke *)

(** The line thickness computed by each of a sequence of updates. *)
Fixpoint lineThicknesses (s : @State num) (samples : list (num * num))
  : list num :=
  match samples with
  | [] => []
  | (x, y) :: rest =>
      let s' := after (updateStroke x y s) in
      toNumber (_lineThickness (thick s')) :: lineThicknesses s' rest
  end.

Definition distance (p q : num * num) : num :=
  Math_sqrt ((fst q - fst p) * (fst q - fst p)
             + (snd q - snd p) * (snd q - snd p))%num.

(** The distances from each sample to the next, starting at [p]. *)
Fixpoint distances (p : num * num) (samples : list (num * num)) : list num :=
  match samples with
  | [] => []
  | q :: rest => distance p q :: distances q rest
  end.


Fixpoint nondecreasing (l : list num) : bool :=
  match l with
  | a :: (b :: _) as rest => negb (b <? a)%num && nondecreasing rest
  | _ => true
  end.

(** Every update of the sequence completes. *)
Fixpoint updatesComplete (s : @State num) (samples : list (num * num))
  : bool :=
  match samples with
  | [] => true
  | (x, y) :: rest =>
      completes (updateStroke x y s)
      && updatesComplete (after (updateStroke x y s)) rest
  end.

(** The state in which [updateStroke(x, y)] computes the thickness of the
    new segment: after the cusp branch and smoothing. *)
Definition beforeSegment (x y : num) (s : @State num) : @State num :=
  let s1 := cuspFields x y (cacheFields x y s) in
  withMouse (smoothTowards (smoothing (inputs s1)) x y) s1.

(** In each update of the sequence no cusp is detected, and the target
    thickness that the update computes is not below the last thickness. *)
Fixpoint targetsNotBelow (s : @State num) (samples : list (num * num))
  : bool :=
  match samples with
  | [] => true
  | (x, y) :: rest =>
      negb (cuspAt x y s)
      && negb (targetLineThickness (beforeSegment x y s)
               <? toNumber (_lastThickness (thick s)))%num
      && targetsNotBelow (after (updateStroke x y s)) rest
  end.

(** While the mouse is pressed, the stroke can be extended. *)
Definition pressedIsLive (s : @State num) : Prop :=
  _mousePressed (mouse s) = true -> live s.

End Vocabulary.

(** ** The notifications *)

(** The last of the notifications [es], or [prev] when there is none. *)
Definition lastEvent (prev : option Event) (es : list Event) : option Event :=
  fold_left (fun _ e => Some e) es prev.

(** Every [endStroke] comes directly after a [beginStroke]; [prev] is the
    notification before the first of [es]. *)
Fixpoint eachEndFollows (prev : option Event) (es : list Event) : bool :=
  match es with
  | [] => true
  | e :: rest =>
      match e, prev with
      | endStroke, Some beginStroke => true
      | endStroke, _ => false
      | beginStroke, _ => true
      end && eachEndFollows (Some e) rest
  end.

Definition endsFollowBegins (es : list Event) : bool :=
  eachEndFollows None es.

(** ** Strokes, calls and collections *)

Section StrokeVocabulary.

Context {num : Type} {N : Number num}.

(** The calls of one stroke: it begins at [(x0, y0)], is updated with each
    sample and ends at [(xe, ye)]. *)
Definition strokeCalls (x0 y0 : num) (samples : list (num * num))
    (xe ye : num) : list (@Call num) :=
  call_beginStrokeAt x0 y0 (-1)
  :: map (fun p => call_updateStroke (fst p) (snd p)) samples
  ++ [call_endStrokeAt xe ye].

(** Whether a call completes, rather than throws. *)
Definition callCompletes (s : @State num) (c : @Call num) : bool :=
  match c with
  | call_clear => completes (clear s)
  | call_beginStrokeAt x y index => completes (beginStrokeAt x y index s)
  | call_updateStroke x y => completes (updateStroke x y s)
  | call_endStrokeAt x y => completes (endStrokeAt x y s)
  | call_eraseStroke index => completes (eraseStroke index s)
  | call_ngOnChanges changes => completes (ngOnChanges changes s)
  end.

(** Every call of the sequence completes. *)
Fixpoint allComplete (s : @State num) (cs : list (@Call num)) : bool :=
  match cs with
  | [] => true
  | c :: rest => callCompletes s c && allComplete (perform s c) rest
  end.

(** A stroke in progress with body [g] and tip [t], drawn into the group
    [c], whose children are [kids]. *)
Record InStroke (g t c : ref) (kids : list ref) (s : @State num) : Prop := {
  stroke_pressed : _mousePressed (mouse s) = true;
  stroke_body : _stroke (scene s) = Some g;
  stroke_tip : _tip (scene s) = Some t;
  stroke_group : _curStrokeContainer (scene s) = Some c;
  stroke_body_drawn : isGraphics (objects (scene s)) g;
  stroke_tip_drawn : isGraphics (objects (scene s)) t;
  stroke_children : nth_error (objects (scene s)) c = Some (Container kids)
}.

(** The state that [endStrokeAt(x, y)] leaves of such a stroke. *)
Definition ended (x y : num) (g t c : ref) (kids : list ref)
    (s : @State num) : @State num :=
  let s1 := cacheFields x y s in
  withEmitted (fun es => es ++ [endStroke])
    (withMouse (set_mousePressed false)
       (withScene (set_tip None)
          (withObjects
             (replace c (Container (removeFirst t kids))
                (replace t (Graphics [])
                   (paintOn g (tipCap s1 x y) (objects (scene s)))))
             (tipFields s1)))).

(** A tip and a drawable group are there for [endStrokeAt] to work on. *)
Definition endable (s : @State num) : Prop :=
  _tip (scene s) <> None /\ _curStrokeContainer (scene s) <> None.

(** The notifications so far are in order, and the last one is a
    [beginStroke] whenever [endStrokeAt] could complete. *)
Definition announced (s : @State num) : Prop :=
  endsFollowBegins (emitted s) = true
  /\ (endable s -> lastEvent None (emitted s) = Some beginStroke).

(** What [endStrokeAt] reads of the stroke, and the notifications. *)
Definition sameStroke (s u : @State num) : Prop :=
  _tip (scene u) = _tip (scene s)
  /\ _curStrokeContainer (scene u) = _curStrokeContainer (scene s)
  /\ emitted u = emitted s
  /\ _stroke (scene u) = _stroke (scene s).

(** What [clear] leaves alone, among the fields that are not mouse or
    cached drawing properties. *)
Definition keptByClear (s u : @State num) : Prop :=
  inputs u = inputs s /\ thick u = thick s /\ pts u = pts s
  /\ emitted u = emitted s
  /\ _curStrokeContainer (scene u) = _curStrokeContainer (scene s)
  /\ _stroke (scene u) = _stroke (scene s)
  /\ _tip (scene u) = _tip (scene s).

(** The container of strokes holds the drawable groups of the collection,
    in the same order, each once. *)
Definition mirrored (s : @State num) : Prop :=
  _strokeContainer (scene s) = _strokes (scene s)
  /\ NoDup (_strokes (scene s)).

(** The collection and the container of strokes are those of [s]. *)
Definition sameLists (s u : @State num) : Prop :=
  _strokes (scene u) = _strokes (scene s)
  /\ _strokeContainer (scene u) = _strokeContainer (scene s).

(** A call of [updateStroke]. *)
Definition isUpdate (c : @Call num) : bool :=
  match c with
  | call_updateStroke _ _ => true
  | _ => false
  end.

(** The body and the tip of a stroke are two objects. *)
Definition tipApart (s : @State num) : Prop :=
  forall g t, _stroke (scene s) = Some g -> _tip (scene s) = Some t -> g <> t.

(** What [numStrokes] is after a call, from what it was before. *)
Definition countAfter (n : nat) (c : @Call num) : nat :=
  match c with
  | call_clear => 0
  | call_beginStrokeAt _ _ index => if (index =? -1)%Z then S n else n
  | _ => n
  end.

End StrokeVocabulary.

(** The values that [ngOnChanges] accepts, on doubles. *)
Definition validInputs (i : @Inputs float) : Prop :=
  (0 <? smoothing i)%float = true
  /\ (smoothing i <? 0.75)%float = true
  /\ PrimFloat.is_nan (fillColor i) = false.

(** ** Doubles as integers

    The arithmetic of the doubles is specified in the Standard Library on
    mantissas and exponents ([SpecFloat]).  Every finite double is a
    multiple of the least positive double, 2^emin, which makes its value an
    integer. *)






(** ** A directive on doubles, for sample runs *)

(** The first [n] points (9k, 12k), k = 1, 2, ...: they lie on one ray
    from the origin, each at the distance 15 from the one before. *)
Definition alongRay (n : nat) : list (float * float) :=
  map (fun k => (9 * JS.floatOfZ (Z.of_nat k),
                 12 * JS.floatOfZ (Z.of_nat k))%float)
      (seq 1 n).

Module Sample.

Definition engine : Number float := @JS.jsNumber JS.seriesMath.

Definition run (cs : list (@Call float)) : @State float :=
  @session float engine cs.

End Sample.

(** * Proofs *)

Section Preservation.

Context {S : Type}.

Lemma preserves_ret {A} (I : S -> Prop) (a : A) : preserves I (ret a).
Proof. intros s H; exact H. Qed.

Lemma preserves_throw {A} (I : S -> Prop) (e : Exn) :
  preserves I (throw (A := A) e).
Proof. intros s H; exact H. Qed.

Lemma preserves_get (I : S -> Prop) : preserves I get.
Proof. intros s H; exact H. Qed.

Lemma preserves_modify (I : S -> Prop) (f : S -> S) :
  (forall s, I s -> I (f s)) -> preserves I (modify f).
Proof. intros Hf s H; apply Hf, H. Qed.

Lemma preserves_bind {A B} (I : S -> Prop) (m : M S A) (k : A -> M S B) :
  preserves I m -> (forall a, preserves I (k a)) -> preserves I (bind m k).
Proof.
  intros Hm Hk s H. unfold bind.
  specialize (Hm s H). destruct (m s) as [a s1|e s1]; simpl in *.
  - apply Hk, Hm.
  - exact Hm.
Qed.

(** The same, for a component of the state that a call leaves alone. *)
Lemma preserved_component {A B} (proj : S -> B) (m : M S A) :
  (forall b, preserves (fun s => proj s = b) m) ->
  forall s, proj (after (m s)) = proj s.
Proof. intros H s. exact (H (proj s) s eq_refl). Qed.

(** A call that completes hands its state to the next one. *)
Lemma bind_Ok {A B} (m : M S A) (k : A -> M S B) s a s1 :
  m s = Ok a s1 -> bind m k s = k a s1.
Proof. intros H; unfold bind; rewrite H; reflexivity. Qed.

End Preservation.

Ltac preserves_steps :=
  repeat match goal with
    | |- preserves _ (ret _) => apply preserves_ret
    | |- preserves _ get => apply preserves_get
    | |- preserves _ (throw _) => apply preserves_throw
    | |- preserves _ (bind _ _) => apply preserves_bind; [ | intro ]
    | |- preserves _ (if ?b then _ else _) => destruct b
    | |- preserves _ (match ?x with _ => _ end) => destruct x
    end.

Section StateInvariants.

Context {num : Type} {N : Number num}.

Lemma preserves_new (I : @State num -> Prop) o :
  ignoresObjects I -> preserves I (new o).
Proof. intros HI s H. apply (HI s), H. Qed.

Lemma preserves_onGraphics (I : @State num -> Prop) g f :
  ignoresObjects I -> preserves I (onGraphics g f).
Proof.
  intros HI s H. unfold onGraphics.
  destruct g as [r|]; [|exact H].
  destruct (objectAt s r) as [[cmds|kids]|]; try exact H.
  apply (HI s), H.
Qed.

Lemma preserves_onContainer (I : @State num -> Prop) c f :
  ignoresObjects I -> preserves I (onContainer c f).
Proof.
  intros HI s H. unfold onContainer.
  destruct c as [r|]; [|exact H].
  destruct (objectAt s r) as [[cmds|kids]|]; try exact H.
  destruct (f kids); [apply (HI s), H | exact H].
Qed.

Lemma preserves_children (I : @State num -> Prop) c :
  preserves I (children c).
Proof.
  intros s H. unfold children.
  destruct c as [r|]; [|exact H].
  destruct (objectAt s r) as [[cmds|kids]|]; exact H.
Qed.

Lemma preserves_numChildren (I : @State num -> Prop) c :
  preserves I (numChildren c).
Proof. intros s H. unfold numChildren. destruct c; exact H. Qed.

End StateInvariants.

(** Takes a compound action apart; [leaf] proves that each assignment keeps
    the invariant, [objs] that the invariant ignores the display objects. *)
Ltac preserves_with objs leaf :=
  unfold paint, Graphics_clear, addChild, removeChildAt, removeChild,
    contains, __assignMouseHandlers, __removeMouseHandlers;
  preserves_steps;
  try match goal with
    | |- preserves _ (numChildren _) => apply preserves_numChildren
    | |- preserves _ (new _) => apply preserves_new; objs
    | |- preserves _ (onGraphics _ _) => apply preserves_onGraphics; objs
    | |- preserves _ (onContainer _ _) => apply preserves_onContainer; objs
    | |- preserves _ (children _) => apply preserves_children
    | |- preserves _ (modify _) => apply preserves_modify; leaf
    end.

(** ** The two coordinate logs grow together *)

Section Logs.

Context {num : Type} {N : Number num}.

Ltac logs :=
  preserves_with
    ltac:(intros ? ? ?; assumption)
    ltac:(intros ? ?; solve [assumption | reflexivity]).

Lemma logsAligned_cachePoint (x y : num) :
  preserves logsAligned (cachePoint x y).
Proof.
  unfold cachePoint. logs.
  intros s H. unfold logsAligned, get_x, get_y in *; simpl.
  rewrite !length_app, H. reflexivity.
Qed.

Lemma logsAligned_drawTip isFinal (x y : num) :
  preserves logsAligned (__drawTip isFinal x y).
Proof. unfold __drawTip. logs. Qed.

Lemma logsAligned_clearChildren fuel c :
  preserves logsAligned (clearChildren (num := num) fuel c).
Proof. induction fuel; simpl; logs. apply IHfuel. Qed.

Lemma logsAligned_forEach cs (body : ref -> @Action num unit) :
  (forall c, preserves logsAligned (body c)) ->
  preserves logsAligned (forEach cs body).
Proof. intros Hb. induction cs; simpl; logs; auto. Qed.

Lemma logsAligned_emptyStrokeContainer fuel :
  preserves logsAligned (emptyStrokeContainer (num := num) fuel).
Proof. induction fuel; simpl; logs. apply IHfuel. Qed.

Lemma logsAligned_clear : preserves logsAligned (clear (num := num)).
Proof.
  unfold clear. logs.
  - apply logsAligned_forEach. intro c. unfold clearStroke. logs.
    apply logsAligned_clearChildren.
  - apply logsAligned_emptyStrokeContainer.
Qed.

Lemma logsAligned_beginStrokeAt (x y : num) index :
  preserves logsAligned (beginStrokeAt x y index).
Proof. unfold beginStrokeAt. logs. apply logsAligned_cachePoint. Qed.

Lemma logsAligned_updateStroke (x y : num) :
  preserves logsAligned (updateStroke x y).
Proof.
  unfold updateStroke, detectCusp, extendStroke. logs;
    first [apply logsAligned_cachePoint | apply logsAligned_drawTip].
Qed.

Lemma logsAligned_endStrokeAt (x y : num) :
  preserves logsAligned (endStrokeAt x y).
Proof.
  unfold endStrokeAt. logs;
    first [apply logsAligned_cachePoint | apply logsAligned_drawTip].
Qed.

Lemma logsAligned_eraseStroke index :
  preserves logsAligned (eraseStroke (num := num) index).
Proof. unfold eraseStroke. logs. Qed.

Lemma logsAligned_ngOnChanges (changes : list (@Change num)) :
  preserves logsAligned (ngOnChanges changes).
Proof.
  induction changes as [|ch rest IH]; simpl; logs; [|exact IH].
  unfold applyChange. destruct ch; logs.
Qed.

Lemma logsAligned_perform (s : @State num) c :
  logsAligned s -> logsAligned (perform s c).
Proof.
  destruct c; simpl.
  - apply logsAligned_clear.
  - apply logsAligned_beginStrokeAt.
  - apply logsAligned_updateStroke.
  - apply logsAligned_endStrokeAt.
  - apply logsAligned_eraseStroke.
  - apply logsAligned_ngOnChanges.
Qed.

(** C9: after every sequence of calls of the public operations on a new
    directive, the logs returned by [x] and [y] have the same length. *)
Theorem logs_have_equal_length (cs : list (@Call num)) :
  length (get_x (session cs)) = length (get_y (session cs)).
Proof.
  unfold session, performAll.
  assert (H0 : logsAligned (newDirective (num := num))).
  { apply logsAligned_clear. reflexivity. }
  revert H0. generalize (newDirective (num := num)).
  induction cs as [|c rest IH]; intros s Hs; simpl.
  - exact Hs.
  - apply IH, logsAligned_perform, Hs.
Qed.

End Logs.

(** ** Arrays *)

Lemma arrayGet_negative {A} (a : list A) (i : Z) :
  (i < 0)%Z -> arrayGet a i = None.
Proof.
  intros Hi. unfold arrayGet.
  destruct (Z.ltb_spec i 0); [reflexivity | lia].
Qed.

(** ** [eraseStroke] *)

Section Erase.

Context {num : Type} {N : Number num}.

(** The guard is the only test that [eraseStroke] gets through: below
    [numStrokes] the call of [contains] throws before anything is
    assigned. *)
Lemma eraseStroke_run (s : @State num) (i : Z) :
  eraseStroke i s
  = if (i <? Z.of_nat (numStrokes s))%Z then Throw TypeError s
    else Ok false s.
Proof.
  unfold eraseStroke, numStrokes. cbv [bind get contains throw ret].
  destruct (i <? Z.of_nat (length (_strokes (scene s))))%Z; reflexivity.
Qed.

Lemma eraseStroke_state (s : @State num) (i : Z) :
  after (eraseStroke i s) = s.
Proof.
  rewrite eraseStroke_run.
  destruct (i <? Z.of_nat (numStrokes s))%Z; reflexivity.
Qed.

Lemma preserves_eraseStroke (I : @State num -> Prop) (i : Z) :
  preserves I (eraseStroke i).
Proof. intros s H. rewrite eraseStroke_state. exact H. Qed.

(** C2: [eraseStroke] erases no stroke.  With an index below [numStrokes]
    it throws a [TypeError] at the call of [contains], before the stroke is
    taken out of the collection, and leaves the state as it is; so it does
    on a drawing of one stroke with the index 0.  With an index of at least
    [numStrokes] it returns [false] and changes nothing. *)
Theorem eraseStroke_by_index (s : @State num) (i : Z) :
  let drawn := session [ call_beginStrokeAt (ofZ 10) (ofZ 10) (-1);
                         call_endStrokeAt (ofZ 20) (ofZ 10) ] in
  eraseStroke i s
  = (if (i <? Z.of_nat (numStrokes s))%Z then Throw TypeError s
     else Ok false s)
  /\ numStrokes drawn = 1%nat
  /\ eraseStroke 0 drawn = Throw TypeError drawn.
Proof.
  intros drawn.
  assert (H1 : numStrokes drawn = 1%nat) by (vm_compute; reflexivity).
  split; [apply eraseStroke_run|]. split; [exact H1|].
  rewrite eraseStroke_run, H1. reflexivity.
Qed.

(** C10: a negative index passes the guard, but no stroke is removed: on a
    drawing with at least one stroke [eraseStroke] with a negative index
    throws a [TypeError] at the call of [contains], and the collection and
    [numStrokes] are as before. *)
Theorem eraseStroke_negative_index (s : @State num) (k : Z) :
  (k < 0)%Z ->
  (1 <= numStrokes s)%nat ->
  eraseStroke k s = Throw TypeError s
  /\ numStrokes (after (eraseStroke k s)) = numStrokes s.
Proof.
  intros Hk Hn. rewrite eraseStroke_state. split; [|reflexivity].
  rewrite eraseStroke_run.
  destruct (Z.ltb_spec k (Z.of_nat (numStrokes s))); [reflexivity | lia].
Qed.

End Erase.

(** ** Running the calls on a known state *)

Lemma nth_error_at_length {A} (h : list A) o rest :
  nth_error (h ++ o :: rest) (length h) = Some o.
Proof. rewrite nth_error_app2 by lia. rewrite Nat.sub_diag. reflexivity. Qed.

Lemma replace_at_length {A} (h : list A) o v rest :
  replace (length h) v (h ++ o :: rest) = h ++ v :: rest.
Proof. induction h; simpl; [reflexivity | f_equal; exact IHh]. Qed.

Lemma length_snoc {A} (h : list A) a : length (h ++ [a]) = S (length h).
Proof. rewrite length_app; simpl; lia. Qed.

Lemma nth_error_replace {A} (h : list A) i j v :
  nth_error (replace i v h) j
  = if (j =? i)%nat then (if (i <? length h)%nat then Some v else None)
    else nth_error h j.
Proof.
  revert i j; induction h as [|a h IH]; intros [|i] [|j]; simpl;
    try reflexivity.
  - destruct (j =? i)%nat; reflexivity.
  - rewrite IH. destruct (j =? i)%nat; [|reflexivity].
    destruct (Nat.ltb_spec i (length h)), (Nat.ltb_spec (S i) (S (length h)));
      try reflexivity; lia.
Qed.

Lemma nth_error_replace_same {A} (h : list A) i v old :
  nth_error h i = Some old -> nth_error (replace i v h) i = Some v.
Proof.
  intros H. rewrite nth_error_replace, Nat.eqb_refl.
  assert (i < length h)%nat by (apply nth_error_Some; congruence).
  destruct (Nat.ltb_spec i (length h)); [reflexivity | lia].
Qed.

Lemma replace_replace {A} (h : list A) i v w :
  replace i w (replace i v h) = replace i w h.
Proof.
  revert i; induction h as [|a h IH]; intros [|i]; simpl; try reflexivity.
  f_equal. apply IH.
Qed.

Ltac fields :=
  cbn [withInputs withPts withScene withDraw withThick withMouse withEmitted
       withHandlersAssigned withObjects
       scene objects inputs pts draw mouse thick emitted _handlersAssigned
       set_objects set_stroke set_tip set_curStrokeContainer set_strokes
       set_strokeContainer
       _strokeContainer _strokes _curStrokeContainer _stroke _tip].

Lemma Scene_ext {num} (a b : @Scene num) :
  objects a = objects b -> _strokeContainer a = _strokeContainer b ->
  _strokes a = _strokes b -> _curStrokeContainer a = _curStrokeContainer b ->
  _stroke a = _stroke b -> _tip a = _tip b -> a = b.
Proof. destruct a, b; simpl; intros; subst; reflexivity. Qed.

Lemma State_ext {num} (a b : @State num) :
  inputs a = inputs b -> draw a = draw b -> mouse a = mouse b ->
  thick a = thick b -> pts a = pts b -> scene a = scene b ->
  emitted a = emitted b -> _handlersAssigned a = _handlersAssigned b -> a = b.
Proof. destruct a, b; simpl; intros; subst; reflexivity. Qed.

(** Two states are compared field by field. *)
Ltac same_state :=
  apply State_ext; fields; try reflexivity;
  try (apply Scene_ext; fields; try reflexivity).

Section Running.

Context {num : Type} {N : Number num}.

Lemma withObjects_self (s : @State num) :
  withObjects (objects (scene s)) s = s.
Proof. destruct s as [? ? ? ? ? [] ? ?]; reflexivity. Qed.

Lemma run_onContainer (s : @State num) r kids f kids' :
  objectAt s r = Some (Container kids) -> f kids = Some kids' ->
  onContainer (Some r) f s = Ok tt (store r (Container kids') s).
Proof. intros H1 H2. unfold onContainer. rewrite H1, H2. reflexivity. Qed.

Lemma run_onGraphics (s : @State num) r cmds f :
  objectAt s r = Some (Graphics cmds) ->
  onGraphics (Some r) f s = Ok tt (store r (Graphics (f cmds)) s).
Proof. intros H1. unfold onGraphics. rewrite H1. reflexivity. Qed.

Lemma isGraphics_replace (h : list (@DisplayObject num)) r cmds r' :
  isGraphics h r -> isGraphics h r' ->
  isGraphics (replace r (Graphics cmds) h) r'.
Proof.
  intros [c Hc] [c' Hc']. unfold isGraphics.
  rewrite nth_error_replace.
  destruct (Nat.eqb_spec r' r) as [->|Hne].
  - assert (r < length h)%nat by (apply nth_error_Some; congruence).
    destruct (Nat.ltb_spec r (length h)); [eauto | lia].
  - eauto.
Qed.

(** When no index is given, [beginStrokeAt] completes in every state. *)
Lemma beginStrokeAt_new (s : @State num) (x y : num) :
  beginStrokeAt x y (-1) s = Ok tt (begun x y s).
Proof.
  unfold beginStrokeAt, cachePoint, addChild.
  change (-1 =? -1)%Z with true. cbv iota.
  cbv [bind modify get ret new]. fields.
  destruct (cache (inputs s)) eqn:Hc; fields.
  all: erewrite run_onContainer;
    [| unfold objectAt; fields; apply nth_error_at_length | reflexivity].
  all: erewrite run_onContainer;
    [| unfold objectAt, store; fields; rewrite replace_at_length;
       apply nth_error_at_length | reflexivity].
  all: f_equal; unfold store, begun; same_state.
  all: try (rewrite Hc; reflexivity).
  all: rewrite ?replace_at_length, ?length_snoc, <- ?app_assoc; reflexivity.
Qed.

Lemma begun_live (s : @State num) (x y : num) : live (begun x y s).
Proof.
  exists (length (objects (scene s))), (S (length (objects (scene s)))).
  repeat split; try reflexivity; unfold isGraphics, begun; cbn [scene objects].
  - exists []. apply nth_error_at_length.
  - exists []. rewrite nth_error_app2 by lia.
    replace (S (length (objects (scene s))) - length (objects (scene s)))%nat
      with 1%nat by lia.
    reflexivity.
Qed.

Lemma tipCap_commands (s : @State num) (x y : num) :
  tipCircle (tipFields s) x y ++ tipQuad (tipFields s) x y = tipCap s x y.
Proof. reflexivity. Qed.

Lemma paintOn_graphics (h : list (@DisplayObject num)) r cmds r' :
  isGraphics h r' -> isGraphics (paintOn r cmds h) r'.
Proof.
  intros H. unfold paintOn.
  destruct (nth_error h r) as [[drawn|kids]|] eqn:E; try exact H.
  apply isGraphics_replace; [exists drawn; exact E | exact H].
Qed.

Lemma run_paint (h : list (@DisplayObject num)) s0 r cmds :
  isGraphics h r ->
  paint (Some r) cmds (withObjects h s0) = Ok tt (withObjects (paintOn r cmds h) s0).
Proof.
  intros [drawn H]. unfold paint, paintOn.
  erewrite run_onGraphics by exact H. rewrite H. reflexivity.
Qed.

Lemma drawTip_final_run (h : list (@DisplayObject num)) s0 (x y : num) g :
  _stroke (scene s0) = Some g ->
  isGraphics h g ->
  __drawTip true x y (withObjects h s0)
  = Ok tt (withObjects (paintOn g (tipCap s0 x y) h) (tipFields s0)).
Proof.
  intros Hg [drawn Hh].
  unfold __drawTip, paint, paintOn. cbv [bind modify get ret]. fields.
  rewrite Hg, Hh.
  erewrite run_onGraphics; [| unfold objectAt; fields; exact Hh].
  fields.
  erewrite run_onGraphics;
    [| unfold objectAt, store; fields; eapply nth_error_replace_same, Hh].
  f_equal. unfold store, tipFields. same_state.
  rewrite replace_replace, <- app_assoc. reflexivity.
Qed.

Lemma drawTip_transient_run (h : list (@DisplayObject num)) s0 (x y : num) t :
  _tip (scene s0) = Some t ->
  isGraphics h t ->
  __drawTip false x y (withObjects h s0)
  = Ok tt (withObjects (replace t (Graphics (tipCap s0 x y)) h)
             (tipFields s0)).
Proof.
  intros Ht [drawn Hh].
  unfold __drawTip, paint, Graphics_clear. cbv [bind modify get ret]. fields.
  rewrite Ht.
  erewrite run_onGraphics; [| unfold objectAt; fields; exact Hh].
  fields.
  erewrite run_onGraphics;
    [| unfold objectAt, store; fields; eapply nth_error_replace_same, Hh].
  erewrite run_onGraphics;
    [| unfold objectAt, store; fields; rewrite replace_replace; eapply nth_error_replace_same, Hh].
  f_equal. unfold store, tipFields. same_state.
  rewrite !replace_replace. reflexivity.
Qed.

Lemma detectCusp_run (h : list (@DisplayObject num)) s0 (x y : num) g :
  _stroke (scene s0) = Some g ->
  isGraphics h g ->
  detectCusp x y (withObjects h s0)
  = Ok tt (withObjects (cuspObjects x y s0 g h) (cuspFields x y s0)).
Proof.
  intros Hg Hh. unfold detectCusp, cuspFields, cuspObjects.
  cbv [bind modify get]. fields.
  change (movementDot (mouseMovedTo x y (mouse s0)) <? ofZ 0)%num
    with (cuspAt x y s0).
  destruct (cuspAt x y s0).
  - change (withMouse (mouseMovedTo x y) (withObjects h s0))
      with (withObjects h (withMouse (mouseMovedTo x y) s0)).
    rewrite (@drawTip_final_run h _ _ _ g) by assumption.
    reflexivity.
  - reflexivity.
Qed.

Lemma extendStroke_run (h : list (@DisplayObject num)) s0 (x y : num) g t :
  _stroke (scene s0) = Some g -> _tip (scene s0) = Some t ->
  isGraphics h g -> isGraphics h t ->
  extendStroke x y (withObjects h s0)
  = Ok tt (withObjects (extendObjects x y s0 g t h) (extendFields x y s0)).
Proof.
  intros Hg Ht Gg Gt. unfold extendStroke, extendFields, extendObjects.
  cbv [bind modify get]. fields.
  set (s5 := withMouse (smoothTowards (smoothing (inputs s0)) x y) s0).
  change (withMouse (smoothTowards (smoothing (inputs s0)) x y) (withObjects h s0))
    with (withObjects h s5).
  change (segment (withObjects h s5)) with (withObjects h (segment s5)).
  change (_stroke (scene (withObjects h (segment s5)))) with (_stroke (scene s0)).
  rewrite Hg.
  change (patch (withObjects h s5) (withObjects h (segment s5)))
    with (patch s5 (segment s5)).
  rewrite run_paint by exact Gg.
  rewrite (@drawTip_transient_run _ _ _ _ t);
    [| exact Ht | apply paintOn_graphics, Gt].
  reflexivity.
Qed.

Lemma cachePoint_run (h : list (@DisplayObject num)) s0 (x y : num) :
  cachePoint x y (withObjects h s0) = Ok tt (withObjects h (cacheFields x y s0)).
Proof.
  unfold cachePoint, cacheFields. cbv [bind get]. fields.
  destruct (cache (inputs s0)); reflexivity.
Qed.

Lemma cuspObjects_graphics x y (s : @State num) g h r :
  isGraphics h r -> isGraphics (cuspObjects x y s g h) r.
Proof.
  intros H. unfold cuspObjects. destruct (cuspAt x y s); [|exact H].
  apply paintOn_graphics, H.
Qed.

Lemma updateStroke_run (s : @State num) (x y : num) g t :
  _mousePressed (mouse s) = true ->
  _stroke (scene s) = Some g -> _tip (scene s) = Some t ->
  isGraphics (objects (scene s)) g -> isGraphics (objects (scene s)) t ->
  updateStroke x y s
  = Ok tt (withObjects (updateObjects x y s g t (objects (scene s)))
             (updateFields x y s)).
Proof.
  intros Hp Hg Ht Gg Gt.
  unfold updateStroke. unfold bind at 1, get at 1. rewrite Hp. cbv [negb].
  rewrite <- (withObjects_self s) at 1.
  unfold bind at 1. rewrite cachePoint_run.
  unfold bind. 
  assert (Hg1 : _stroke (scene (cacheFields x y s)) = Some g).
  { unfold cacheFields. destruct (cache (inputs s)); exact Hg. }
  assert (Ht1 : _tip (scene (cacheFields x y s)) = Some t).
  { unfold cacheFields. destruct (cache (inputs s)); exact Ht. }
  rewrite (@detectCusp_run _ _ _ _ g) by assumption.
  assert (Hg2 : _stroke (scene (cuspFields x y (cacheFields x y s))) = Some g).
  { unfold cuspFields. destruct (cuspAt _ _ _); exact Hg1. }
  assert (Ht2 : _tip (scene (cuspFields x y (cacheFields x y s))) = Some t).
  { unfold cuspFields. destruct (cuspAt _ _ _); exact Ht1. }
  rewrite (@extendStroke_run _ _ _ _ g t);
    try assumption; try (apply cuspObjects_graphics; assumption).
  reflexivity.
Qed.
(** What the assignments of [updateStroke] leave alone. *)
Lemma cacheFields_scene (s : @State num) x y :
  scene (cacheFields x y s) = scene s.
Proof. unfold cacheFields. destruct (cache (inputs s)); reflexivity. Qed.

Lemma cacheFields_mouse (s : @State num) x y :
  mouse (cacheFields x y s) = mouse s.
Proof. unfold cacheFields. destruct (cache (inputs s)); reflexivity. Qed.

Lemma cacheFields_inputs (s : @State num) x y :
  inputs (cacheFields x y s) = inputs s.
Proof. unfold cacheFields. destruct (cache (inputs s)); reflexivity. Qed.


Lemma cuspFields_scene (s : @State num) x y :
  scene (cuspFields x y s) = scene s.
Proof. unfold cuspFields. destruct (cuspAt x y s); reflexivity. Qed.

Lemma cuspFields_inputs (s : @State num) x y :
  inputs (cuspFields x y s) = inputs s.
Proof. unfold cuspFields. destruct (cuspAt x y s); reflexivity. Qed.

Lemma cuspFields_pts (s : @State num) x y :
  pts (cuspFields x y s) = pts s.
Proof. unfold cuspFields. destruct (cuspAt x y s); reflexivity. Qed.

Lemma cuspFields_pressed (s : @State num) x y :
  _mousePressed (mouse (cuspFields x y s)) = _mousePressed (mouse s).
Proof. unfold cuspFields. destruct (cuspAt x y s); reflexivity. Qed.

Lemma extendFields_scene (s : @State num) x y :
  scene (extendFields x y s) = scene s.
Proof. reflexivity. Qed.

Lemma extendFields_inputs (s : @State num) x y :
  inputs (extendFields x y s) = inputs s.
Proof. reflexivity. Qed.

Lemma extendFields_pts (s : @State num) x y :
  pts (extendFields x y s) = pts s.
Proof. reflexivity. Qed.

Lemma extendFields_pressed (s : @State num) x y :
  _mousePressed (mouse (extendFields x y s)) = _mousePressed (mouse s).
Proof. reflexivity. Qed.

Lemma updateFields_scene (s : @State num) x y :
  scene (updateFields x y s) = scene s.
Proof.
  unfold updateFields.
  rewrite extendFields_scene, cuspFields_scene. apply cacheFields_scene.
Qed.

Lemma updateFields_inputs (s : @State num) x y :
  inputs (updateFields x y s) = inputs s.
Proof.
  unfold updateFields.
  rewrite extendFields_inputs, cuspFields_inputs. apply cacheFields_inputs.
Qed.

Lemma updateFields_pts (s : @State num) x y :
  pts (updateFields x y s) = pts (cacheFields x y s).
Proof.
  unfold updateFields. rewrite extendFields_pts. apply cuspFields_pts.
Qed.

Lemma updateFields_pressed (s : @State num) x y :
  _mousePressed (mouse (updateFields x y s)) = _mousePressed (mouse s).
Proof.
  unfold updateFields.
  rewrite extendFields_pressed, cuspFields_pressed, cacheFields_mouse.
  reflexivity.
Qed.

Lemma updateObjects_graphics (s : @State num) x y g t h r :
  isGraphics h g -> isGraphics h t -> isGraphics h r ->
  isGraphics (updateObjects x y s g t h) r.
Proof.
  intros Gg Gt Gr. unfold updateObjects, extendObjects.
  apply isGraphics_replace;
    apply paintOn_graphics, cuspObjects_graphics; assumption.
Qed.

Lemma withObjects_inputs (h : list (@DisplayObject num)) u :
  inputs (withObjects h u) = inputs u.
Proof. reflexivity. Qed.

Lemma withObjects_mouse (h : list (@DisplayObject num)) u :
  mouse (withObjects h u) = mouse u.
Proof. reflexivity. Qed.

Lemma withObjects_pts (h : list (@DisplayObject num)) u :
  pts (withObjects h u) = pts u.
Proof. reflexivity. Qed.

Lemma withObjects_stroke (h : list (@DisplayObject num)) u :
  _stroke (scene (withObjects h u)) = _stroke (scene u).
Proof. reflexivity. Qed.

Lemma withObjects_tip (h : list (@DisplayObject num)) u :
  _tip (scene (withObjects h u)) = _tip (scene u).
Proof. reflexivity. Qed.

Lemma withObjects_objects (h : list (@DisplayObject num)) u :
  objects (scene (withObjects h u)) = h.
Proof. reflexivity. Qed.

(** A stroke that could be extended still can after [updateStroke]. *)
Lemma updateStroke_live (s : @State num) (x y : num) :
  _mousePressed (mouse s) = true -> live s ->
  exists s', updateStroke x y s = Ok tt s'
    /\ live s'
    /\ _mousePressed (mouse s') = true
    /\ inputs s' = inputs s
    /\ pts s' = pts (cacheFields x y s).
Proof.
  intros Hp (g & t & Hg & Ht & Gg & Gt).
  exists (withObjects (updateObjects x y s g t (objects (scene s)))
            (updateFields x y s)).
  split; [apply (@updateStroke_run s x y g t); assumption|].
  unfold live.
  rewrite withObjects_inputs, withObjects_mouse, withObjects_pts,
    withObjects_stroke, withObjects_tip, withObjects_objects.
  rewrite updateFields_scene, updateFields_pressed, updateFields_inputs,
    updateFields_pts.
  split; [|auto].
  exists g, t.
  repeat split; try assumption; apply updateObjects_graphics; assumption.
Qed.

End Running.

(** ** Cusps *)

Section Cusps.

Context {num : Type} {N : Number num}.
Local Open Scope num_scope.

Lemma tipCap_mouseMovedTo (s : @State num) (x y u v : num) :
  tipCap (withMouse (mouseMovedTo x y) (cacheFields x y s)) u v
  = tipCap s u v.
Proof. unfold cacheFields. destruct (cache (inputs s)); reflexivity. Qed.

(** In an [updateStroke(x, y)] on a stroke with a body to draw into, the
    state that smoothing starts from is, by the sign of the dot product of
    the raw change of position with the previous one, either the one of a
    cusp or the one of before the call. *)
Lemma cusp_detection_at (s : @State num) (x y : num) (g : ref)
    (drawn : list (@DrawCmd num)) :
  _mousePressed (mouse s) = true ->
  _stroke (scene s) = Some g ->
  objectAt s g = Some (Graphics drawn) ->
  let m := mouse s in
  let d := (x - _lastMouseX m) * _lastMouseChangeVectorX m
           + (y - _lastMouseY m) * _lastMouseChangeVectorY m in
  exists s1,
    updateStroke x y s = extendStroke x y s1
    /\ if d <? ofZ 0 then
         objectAt s1 g
         = Some (Graphics (drawn ++ tipCap s (_lastMouseX m) (_lastMouseY m)))
         /\ _smoothedMouseX (mouse s1) = _lastMouseX m
         /\ _smoothedMouseY (mouse s1) = _lastMouseY m
         /\ _lastSmoothedMouseX (mouse s1) = _lastMouseX m
         /\ _lastSmoothedMouseY (mouse s1) = _lastMouseY m
         /\ _lastRotation (draw s1) = _lastRotation (draw s) + Math_PI
         /\ _lastThickness (thick s1)
            = Some (_tipTaperFactor (thick s)
                    * toNumber (_lastThickness (thick s)))
       else
         objects (scene s1) = objects (scene s)
         /\ _smoothedMouseX (mouse s1) = _smoothedMouseX m
         /\ _smoothedMouseY (mouse s1) = _smoothedMouseY m
         /\ _lastSmoothedMouseX (mouse s1) = _lastSmoothedMouseX m
         /\ _lastSmoothedMouseY (mouse s1) = _lastSmoothedMouseY m
         /\ _lastRotation (draw s1) = _lastRotation (draw s)
         /\ _lastThickness (thick s1) = _lastThickness (thick s).
Proof.
  intros Hp Hg Hd m d.
  set (s0 := cacheFields x y s).
  set (h := objects (scene s)).
  assert (Hc : cuspAt x y s0 = (d <? ofZ 0)).
  { unfold s0, cacheFields. destruct (cache (inputs s)); reflexivity. }
  assert (Hg0 : _stroke (scene s0) = Some g).
  { unfold s0, cacheFields. destruct (cache (inputs s)); exact Hg. }
  exists (withObjects (cuspObjects x y s0 g h) (cuspFields x y s0)).
  split.
  - unfold updateStroke. unfold bind at 1, get at 1. rewrite Hp. cbv [negb].
    rewrite <- (withObjects_self s) at 1.
    unfold bind at 1. rewrite cachePoint_run.
    unfold bind. fold s0 h.
    rewrite (@detectCusp_run _ _ h s0 x y g);
      [reflexivity | exact Hg0 | exists drawn; exact Hd].
  - unfold cuspObjects, cuspFields. rewrite Hc.
    destruct (d <? ofZ 0).
    + unfold objectAt, paintOn. fields.
      unfold objectAt in Hd. fold h in Hd. rewrite Hd.
      split; [|unfold s0, cacheFields; destruct (cache (inputs s));
               repeat split].
      unfold s0. rewrite tipCap_mouseMovedTo.
      replace (mouse (cacheFields x y s)) with (mouse s)
        by (unfold cacheFields; destruct (cache (inputs s)); reflexivity).
      eapply nth_error_replace_same, Hd.
    + fields. unfold s0, cacheFields.
      destruct (cache (inputs s)); repeat split.
Qed.

End Cusps.

Section FirstUpdate.

Import JS.
Local Open Scope float_scope.

Lemma SFeqb_refl_finite s m e :
  SFeqb (S754_finite s m e) (S754_finite s m e) = true.
Proof.
  unfold SFeqb, SFcompare.
  destruct s; rewrite Z.compare_refl, Pos.compare_cont_refl; reflexivity.
Qed.

(** The finite doubles are the zeros and the normal and subnormal numbers. *)
Lemma is_finite_spec (x : float) :
  PrimFloat.is_finite x
  = match Prim2SF x with
    | S754_zero _ | S754_finite _ _ _ => true
    | _ => false
    end.
Proof.
  unfold PrimFloat.is_finite, PrimFloat.is_nan, PrimFloat.is_infinity.
  rewrite !eqb_spec, abs_spec.
  change (Prim2SF infinity) with (S754_infinity false).
  destruct (Prim2SF x) as [[]|[]| |s m e]; try reflexivity.
  rewrite SFeqb_refl_finite. destruct s; reflexivity.
Qed.

(** On doubles, a product with zero is a zero when the other factor is
    finite and NaN when it is not, and so is the sum of two such products:
    it compares as not less than zero. *)
Lemma dot_with_zero_vector (dx dy : float) :
  (dx * 0 + dy * 0 <? 0) = false
  /\ ((dx * 0 + dy * 0 =? 0) || PrimFloat.is_nan (dx * 0 + dy * 0)) = true
  /\ (dx * 0 + dy * 0 =? 0) = PrimFloat.is_finite dx && PrimFloat.is_finite dy
  /\ PrimFloat.is_nan (dx * 0 + dy * 0)
     = negb (PrimFloat.is_finite dx && PrimFloat.is_finite dy).
Proof.
  rewrite !is_finite_spec. unfold PrimFloat.is_nan.
  rewrite ltb_spec, !eqb_spec, add_spec, !mul_spec.
  change (Prim2SF 0) with (S754_zero false).
  destruct (Prim2SF dx) as [[]|[]| |[] ? ?],
           (Prim2SF dy) as [[]|[]| |[] ? ?]; repeat split; reflexivity.
Qed.

Context {E : MathImpl}.

(** C4: after [beginStrokeAt(x0, y0)] the last movement vector is (0, 0);
    in the first [updateStroke(x1, y1)], for any doubles, the dot product is
    a zero when the two raw changes of position [x1 - x0] and [y1 - y0] are
    finite and NaN when one of them is not; it is not negative in either
    case, the cusp branch is skipped and the call completes. *)
Theorem first_update_has_no_cusp (s : @State float) (x0 y0 x1 y1 : float) :
  exists s1 s2,
    beginStrokeAt x0 y0 (-1) s = Ok tt s1
    /\ _lastMouseChangeVectorX (mouse s1) = 0
    /\ _lastMouseChangeVectorY (mouse s1) = 0
    /\ (movementDot (mouseMovedTo x1 y1 (mouse s1)) <? 0) = false
    /\ ((movementDot (mouseMovedTo x1 y1 (mouse s1)) =? 0)
        || PrimFloat.is_nan (movementDot (mouseMovedTo x1 y1 (mouse s1))))
       = true
    /\ (movementDot (mouseMovedTo x1 y1 (mouse s1)) =? 0)
       = PrimFloat.is_finite (x1 - x0) && PrimFloat.is_finite (y1 - y0)
    /\ PrimFloat.is_nan (movementDot (mouseMovedTo x1 y1 (mouse s1)))
       = negb (PrimFloat.is_finite (x1 - x0)
               && PrimFloat.is_finite (y1 - y0))
    /\ detectCusp x1 y1 s1 = Ok tt (withMouse (mouseMovedTo x1 y1) s1)
    /\ updateStroke x1 y1 s1 = Ok tt s2
    /\ updateStroke x1 y1 s1
       = (cachePoint x1 y1 ;;
          modify (withMouse (mouseMovedTo x1 y1)) ;;
          extendStroke x1 y1) s1.
Proof.
  destruct (begun_live s x0 y0) as (g & t & Hg & Ht & Gg & Gt).
  assert (Hp : _mousePressed (mouse (begun x0 y0 s)) = true) by reflexivity.
  exists (begun x0 y0 s). eexists.
  split; [apply beginStrokeAt_new|].
  split; [reflexivity|]. split; [reflexivity|].
  split; [apply (dot_with_zero_vector (x1 - x0) (y1 - y0))|].
  split; [apply (dot_with_zero_vector (x1 - x0) (y1 - y0))|].
  split; [apply (dot_with_zero_vector (x1 - x0) (y1 - y0))|].
  split; [apply (dot_with_zero_vector (x1 - x0) (y1 - y0))|].
  split; [|split].
  - unfold detectCusp. cbv [bind modify get]. fields.
    change (nlt (movementDot (mouseMovedTo x1 y1 (mouse (begun x0 y0 s))))
                (ofZ 0))
      with ((x1 - x0) * 0 + (y1 - y0) * 0 <? 0).
    rewrite (proj1 (dot_with_zero_vector _ _)). reflexivity.
  - apply (@updateStroke_run _ _ _ x1 y1 g t); assumption.
  - unfold updateStroke. unfold bind at 1, get at 1. rewrite Hp. cbv [negb].
    unfold bind at 1 3.
    destruct (cachePoint x1 y1 (begun x0 y0 s)) as [[] s1|e s1] eqn:Hc;
      [|reflexivity].
    assert (Hm : mouse s1 = mouse (begun x0 y0 s)).
    { revert Hc. unfold cachePoint. cbv [bind get modify ret].
      destruct (cache (inputs (begun x0 y0 s))); intros [= <-]; reflexivity. }
    unfold bind at 1 2, detectCusp. cbv [bind modify get]. fields.
    rewrite Hm.
    change (nlt (movementDot (mouseMovedTo x1 y1 (mouse (begun x0 y0 s))))
                (ofZ 0))
      with ((x1 - x0) * 0 + (y1 - y0) * 0 <? 0).
    rewrite (proj1 (dot_with_zero_vector _ _)). reflexivity.
Qed.

End FirstUpdate.

(** ** The coordinate log of a stroke *)

Section CoordinateLog.

Context {num : Type} {N : Number num}.

Ltac keeps_pts :=
  preserves_with
    ltac:(intros ? ? ?; assumption)
    ltac:(intros ? ?; assumption).

Lemma cachePoint_Ok (s : @State num) (x y : num) :
  cachePoint x y s = Ok tt (cacheFields x y s).
Proof.
  unfold cachePoint, cacheFields. cbv [bind get].
  destruct (cache (inputs s)); reflexivity.
Qed.

Lemma pts_cacheFields (s : @State num) (x y : num) :
  cache (inputs s) = true ->
  pts (cacheFields x y s)
  = {| _x := _x (pts s) ++ [x]; _y := _y (pts s) ++ [y] |}.
Proof. intros H. unfold cacheFields. rewrite H. reflexivity. Qed.

Lemma drawTip_keeps_pts b isFinal (x y : num) :
  preserves (fun s => pts s = b) (__drawTip isFinal x y).
Proof. unfold __drawTip. keeps_pts. Qed.

(** [endStrokeAt] logs its point before anything can throw. *)
Lemma endStrokeAt_pts (s : @State num) (x y : num) :
  pts (after (endStrokeAt x y s)) = pts (cacheFields x y s).
Proof.
  unfold endStrokeAt.
  rewrite (bind_Ok _ _ _ (cachePoint_Ok s x y)).
  apply (preserved_component (@pts num)). intro b.
  keeps_pts. apply drawTip_keeps_pts.
Qed.

(** C5: with caching enabled, [beginStrokeAt(10,10)], [updateStroke(12,11)],
    [updateStroke(15,9)], [endStrokeAt(20,10)] leave the log with
    [x() = [10,12,15,20]] and [y() = [10,11,9,10]], whatever was drawn or
    logged before. *)
Theorem cached_coordinates (s : @State num) :
  cache (inputs s) = true ->
  let s' := performAll s
              [ call_beginStrokeAt (ofZ 10) (ofZ 10) (-1);
                call_updateStroke (ofZ 12) (ofZ 11);
                call_updateStroke (ofZ 15) (ofZ 9);
                call_endStrokeAt (ofZ 20) (ofZ 10) ] in
  get_x s' = [ofZ 10; ofZ 12; ofZ 15; ofZ 20]
  /\ get_y s' = [ofZ 10; ofZ 11; ofZ 9; ofZ 10].
Proof.
  intros Hc s'.
  assert (P : pts s' = {| _x := [ofZ 10; ofZ 12; ofZ 15; ofZ 20];
                          _y := [ofZ 10; ofZ 11; ofZ 9; ofZ 10] |}).
  { unfold s', performAll, fold_left, perform.
    rewrite beginStrokeAt_new. unfold after at 4.
    set (s1 := begun (ofZ 10) (ofZ 10) s).
    assert (P1 : pts s1 = {| _x := [ofZ 10]; _y := [ofZ 10] |}).
    { unfold s1, begun. cbn [pts]. rewrite Hc. reflexivity. }
    assert (C1 : cache (inputs s1) = true) by exact Hc.
    destruct (@updateStroke_live _ _ s1 (ofZ 12) (ofZ 11) eq_refl
                (begun_live s _ _)) as (s2 & R2 & L2 & Pr2 & I2 & P2).
    rewrite R2. unfold after at 3.
    assert (C2 : cache (inputs s2) = true) by (rewrite I2; exact C1).
    rewrite pts_cacheFields, P1 in P2 by exact C1. cbn [_x _y app] in P2.
    destruct (@updateStroke_live _ _ s2 (ofZ 15) (ofZ 9) Pr2 L2)
      as (s3 & R3 & L3 & Pr3 & I3 & P3).
    rewrite R3. unfold after at 2.
    assert (C3 : cache (inputs s3) = true) by (rewrite I3; exact C2).
    rewrite pts_cacheFields, P2 in P3 by exact C2. cbn [_x _y app] in P3.
    rewrite endStrokeAt_pts, pts_cacheFields, P3 by exact C3.
    reflexivity. }
  unfold get_x, get_y. rewrite P. split; reflexivity.
Qed.

End CoordinateLog.

(** ** Calls without a stroke in progress *)

Section Idle.

Context {num : Type} {N : Number num}.

(** [updateStroke] returns at once when the mouse is not pressed. *)
Lemma updateStroke_idle (s : @State num) (x y : num) :
  _mousePressed (mouse s) = false -> updateStroke x y s = Ok tt s.
Proof.
  intros H. unfold updateStroke. cbv [bind get]. rewrite H. reflexivity.
Qed.

(** [endStrokeAt] has no such test.  Whenever no tip is left, as on a new
    directive and after every completed stroke, it throws; with caching
    the point was logged before. *)
Lemma drawTip_keeps_no_tip isFinal (x y : num) :
  preserves (fun u => _tip (scene u) = None)
    (__drawTip (num := num) isFinal x y).
Proof.
  unfold __drawTip.
  preserves_with ltac:(intros ? ? ?; assumption)
                 ltac:(intros ? ?; assumption).
Qed.

Lemma endStrokeAt_without_tip (s : @State num) (x y : num) :
  _tip (scene s) = None ->
  completes (endStrokeAt x y s) = false
  /\ pts (after (endStrokeAt x y s)) = pts (cacheFields x y s).
Proof.
  intros Ht. split; [|apply endStrokeAt_pts].
  unfold endStrokeAt.
  rewrite (bind_Ok _ _ _ (cachePoint_Ok s x y)).
  unfold bind at 1.
  pose proof (@drawTip_keeps_no_tip true x y (cacheFields x y s)) as K.
  destruct (__drawTip true x y (cacheFields x y s)) as [[] s1|e s1];
    [|reflexivity].
  cbv [bind get]. cbn [after] in K. rewrite K; [reflexivity|].
  rewrite cacheFields_scene. exact Ht.
Qed.

(** C1: [updateStroke] with no stroke in progress is a no-op, but
    [endStrokeAt] is not.  On a new directive [endStrokeAt(x, y)] logs the
    point and throws a [TypeError]; after a completed stroke it logs the
    point, draws a second tip into the finished stroke and throws. *)
Theorem endStrokeAt_without_stroke_throws (x y : num) :
  let fresh := newDirective in
  let done := session [ call_beginStrokeAt (ofZ 10) (ofZ 10) (-1);
                        call_endStrokeAt (ofZ 20) (ofZ 10) ] in
  (_mousePressed (mouse fresh) = false
   /\ updateStroke x y fresh = Ok tt fresh
   /\ exists s', endStrokeAt x y fresh = Throw TypeError s'
        /\ get_x fresh = [] /\ get_x s' = [x]
        /\ get_y fresh = [] /\ get_y s' = [y])
  /\ (_mousePressed (mouse done) = false
      /\ updateStroke x y done = Ok tt done
      /\ exists s', endStrokeAt x y done = Throw TypeError s'
           /\ get_x done = [ofZ 10; ofZ 20]
           /\ get_x s' = [ofZ 10; ofZ 20; x]
           /\ objectAt done 0
              = Some (Graphics (tipCap done (ofZ 20) (ofZ 10)))
           /\ objectAt s' 0
              = Some (Graphics (tipCap done (ofZ 20) (ofZ 10)
                                ++ tipCap done x y))).
Proof.
  intros fresh done.
  repeat match goal with
         | |- _ /\ _ => split
         | |- exists _, _ => eexists
         | |- _ = _ => vm_compute; reflexivity
         end.
Qed.

End Idle.

(** ** Well-formed drawings *)

Lemma nth_error_app_old {A} (h l : list A) i v :
  nth_error h i = Some v -> nth_error (h ++ l) i = Some v.
Proof.
  intros H. rewrite nth_error_app1; [exact H|].
  apply nth_error_Some. congruence.
Qed.

Section WellFormed.

Context {num : Type} {N : Number num}.

Lemma isGraphics_app (h l : list (@DisplayObject num)) r :
  isGraphics h r -> isGraphics (h ++ l) r.
Proof. intros [c H]. exists c. apply nth_error_app_old, H. Qed.

Lemma isGraphics_replace_container (h : list (@DisplayObject num)) c kids r :
  isGraphics h r -> isGraphics (replace c (Container kids) h) r
                    \/ r = c.
Proof.
  intros [d H]. destruct (Nat.eq_dec r c) as [ -> | Hne ]; [right; reflexivity|].
  left. exists d. rewrite nth_error_replace.
  destruct (Nat.eqb_spec r c); [contradiction | exact H].
Qed.

Lemma groups_app (h l : list (@DisplayObject num)) strokes :
  groupsOfGraphics h strokes -> groupsOfGraphics (h ++ l) strokes.
Proof.
  intros W r Hr. destruct (W r Hr) as (kids & Hk & Hg).
  exists kids. split; [apply nth_error_app_old, Hk|].
  intros k Hin. apply isGraphics_app, Hg, Hin.
Qed.

Lemma groups_replace_graphics (h : list (@DisplayObject num)) strokes r cmds :
  isGraphics h r ->
  groupsOfGraphics h strokes ->
  groupsOfGraphics (replace r (Graphics cmds) h) strokes.
Proof.
  intros Gr W c Hc. destruct (W c Hc) as (kids & Hk & Hg).
  exists kids. split.
  - rewrite nth_error_replace.
    destruct (Nat.eqb_spec c r) as [ -> | ]; [|exact Hk].
    destruct Gr as [d Hd]. congruence.
  - intros k Hin. apply isGraphics_replace; [exact Gr | apply Hg, Hin].
Qed.

Lemma groups_replace_container (h : list (@DisplayObject num)) strokes c
    old kids :
  nth_error h c = Some (Container old) ->
  (forall k, In k kids -> isGraphics h k) ->
  groupsOfGraphics h strokes ->
  groupsOfGraphics (replace c (Container kids) h) strokes.
Proof.
  intros Hc Hkids W r Hr.
  assert (keep : forall k, isGraphics h k ->
                 isGraphics (replace c (Container kids) h) k).
  { intros k Gk. destruct (@isGraphics_replace_container h c kids k Gk) as [ H0 | -> ];
      [assumption|]. destruct Gk as [d Hd]. congruence. }
  destruct (Nat.eq_dec r c) as [ -> | Hne ].
  - exists kids. split; [eapply nth_error_replace_same, Hc|].
    intros k Hin. apply keep, Hkids, Hin.
  - destruct (W r Hr) as (v & Hv & Hg). exists v. split.
    + rewrite nth_error_replace.
      destruct (Nat.eqb_spec r c); [contradiction | exact Hv].
    + intros k Hin. apply keep, Hg, Hin.
Qed.

(** *** [clear] on a well-formed drawing *)

Lemma run_children (h : list (@DisplayObject num)) s0 c kids :
  nth_error h c = Some (Container kids) ->
  children (Some c) (withObjects h s0) = Ok kids (withObjects h s0).
Proof. intros H. unfold children, objectAt. fields. rewrite H. reflexivity. Qed.

Lemma run_removeChildAt0 (h : list (@DisplayObject num)) s0 c k rest :
  nth_error h c = Some (Container (k :: rest)) ->
  removeChildAt (Some c) 0 (withObjects h s0)
  = Ok tt (withObjects (replace c (Container rest) h) s0).
Proof.
  intros H. unfold removeChildAt.
  erewrite run_onContainer; [reflexivity | exact H | reflexivity].
Qed.

Lemma run_Graphics_clear (h : list (@DisplayObject num)) s0 r :
  isGraphics h r ->
  Graphics_clear (Some r) (withObjects h s0)
  = Ok tt (withObjects (replace r (Graphics []) h) s0).
Proof.
  intros [d H]. unfold Graphics_clear.
  erewrite run_onGraphics by exact H. reflexivity.
Qed.

Lemma clearChildren_run (kids : list ref) :
  forall (h : list (@DisplayObject num)) s0 c,
  nth_error h c = Some (Container kids) ->
  (forall k, In k kids -> isGraphics h k) ->
  exists h',
    clearChildren (S (length kids)) c (withObjects h s0)
    = Ok tt (withObjects h' s0)
    /\ nth_error h' c = Some (Container [])
    /\ (forall r, isGraphics h r -> isGraphics h' r)
    /\ (forall r v, r <> c -> nth_error h r = Some (Container v) ->
                    nth_error h' r = Some (Container v)).
Proof.
  induction kids as [|k rest IH]; intros h s0 c Hc Hk.
  - exists h. cbn [length clearChildren].
    erewrite bind_Ok by (apply run_children; exact Hc).
    repeat split; auto.
  - cbn [length]. 
    assert (Gk : isGraphics h k) by (apply Hk; left; reflexivity).
    assert (Hne : c <> k).
    { intros ->. destruct Gk as [d Hd]. congruence. }
    set (h1 := replace k (Graphics []) h).
    assert (Hc1 : nth_error h1 c = Some (Container (k :: rest))).
    { unfold h1. rewrite nth_error_replace.
      destruct (Nat.eqb_spec c k); [contradiction | exact Hc]. }
    set (h2 := replace c (Container rest) h1).
    assert (keep1 : forall r, isGraphics h r -> isGraphics h1 r).
    { intros r Gr. apply isGraphics_replace; assumption. }
    assert (keep2 : forall r, isGraphics h r -> isGraphics h2 r).
    { intros r Gr. unfold h2.
      destruct (@isGraphics_replace_container h1 c rest r (keep1 r Gr)) as [ H0 | -> ];
        [assumption|].
      destruct Gr as [d Hd]. congruence. }
    destruct (IH h2 s0 c) as (h' & Hrun & Hc' & Hg' & Ho').
    { unfold h2. eapply nth_error_replace_same, Hc1. }
    { intros k' Hin. apply keep2, Hk. right; exact Hin. }
    exists h'. split; [|split; [exact Hc'|split]].
    + change (clearChildren (S (S (length rest))) c)
        with (kids <- children (Some c) ;;
              match kids with
              | [] => ret tt
              | k :: _ =>
                  Graphics_clear (Some k) ;;
                  removeChildAt (Some c) 0 ;;
                  clearChildren (num := num) (S (length rest)) c
              end).
      erewrite bind_Ok by (apply run_children; exact Hc).
      cbv beta iota.
      erewrite bind_Ok by (apply run_Graphics_clear; exact Gk).
      fold h1.
      erewrite bind_Ok by (eapply run_removeChildAt0; exact Hc1).
      exact Hrun.
    + intros r Gr. apply Hg', keep2, Gr.
    + intros r v Hr Hv. apply Ho'; [exact Hr|].
      unfold h2, h1. rewrite !nth_error_replace.
      destruct (Nat.eqb_spec r c); [contradiction|].
      destruct (Nat.eqb_spec r k) as [ -> | ]; [|exact Hv].
      destruct Gk as [d Hd]. congruence.
Qed.

Lemma clearStrokes_run (strokes : list ref) :
  forall (h : list (@DisplayObject num)) s0,
  groupsOfGraphics h strokes ->
  exists h',
    forEach strokes clearStroke (withObjects h s0)
    = Ok tt (withObjects h' s0).
Proof.
  induction strokes as [|c rest IH]; intros h s0 W.
  - exists h. reflexivity.
  - destruct (W c (or_introl eq_refl)) as (kids & Hc & Hk).
    destruct (@clearChildren_run kids h s0 c Hc Hk) as (h1 & Hrun & Hc1 & Hg1 & Ho1).
    destruct (IH h1 s0) as (h' & Hrest).
    { intros r Hr. destruct (Nat.eq_dec r c) as [ -> | Hne ].
      - exists []. split; [exact Hc1 | intros k []].
      - destruct (W r (or_intror Hr)) as (v & Hv & Hg).
        exists v. split; [apply Ho1; assumption|].
        intros k Hin. apply Hg1, Hg, Hin. }
    exists h'. cbn [forEach]. unfold clearStroke at 1.
    unfold bind at 1. erewrite bind_Ok by (apply run_children; exact Hc).
    rewrite Hrun. exact Hrest.
Qed.

Lemma emptyStrokeContainer_run (l : list ref) :
  forall (s : @State num),
  _strokeContainer (scene s) = l ->
  emptyStrokeContainer (S (length l)) s
  = Ok tt (withScene (set_strokeContainer []) s).
Proof.
  induction l as [|c rest IH]; intros s Hl.
  - cbn [length emptyStrokeContainer]. cbv [bind get ret]. rewrite Hl.
    f_equal. same_state; congruence.
  - cbn [length].
    change (emptyStrokeContainer (S (S (length rest))))
      with (s <- get ;;
            match _strokeContainer (scene s) with
            | [] => ret tt
            | _ :: _ =>
                modify (withScene (fun c =>
                  set_strokeContainer (removeAt 0 (_strokeContainer c)) c)) ;;
                emptyStrokeContainer (num := num) (S (length rest))
            end).
    cbv [bind get modify]. rewrite Hl.
    rewrite IH; [|fields; rewrite Hl; reflexivity].
    f_equal; try same_state.
Qed.

Lemma clear_run (s : @State num) :
  wellFormed s -> exists h', clear s = Ok tt (cleared h' s).
Proof.
  intros W. unfold clear. cbv [bind modify get]. fields.
  set (s0 := withHandlersAssigned false
               (withMouse (fun _ => zeroMouse)
                  (withDraw (fun _ => zeroDraw) s))).
  destruct (@clearStrokes_run (_strokes (scene s)) (objects (scene s)) s0 W)
    as (h' & Hrun).
  exists h'.
  replace s0 with (withObjects (objects (scene s)) s0)
    by (unfold s0; same_state).
  rewrite Hrun. fields.
  rewrite emptyStrokeContainer_run by reflexivity.
  f_equal; try (unfold cleared, s0; same_state).
Qed.

(** *** [beginStrokeAt] with an index *)

Lemma beginStrokeAt_existing (s : @State num) (x y : num) i c kids :
  i <> (-1)%Z ->
  arrayGet (_strokes (scene s)) i = Some c ->
  objectAt s c = Some (Container kids) ->
  beginStrokeAt x y i s = Ok tt (restarted x y c kids s).
Proof.
  intros Hi Hc Hk. unfold objectAt in Hk.
  unfold beginStrokeAt, cachePoint, addChild, numChildren, isPositive.
  destruct (Z.eqb_spec i (-1)) as [|_]; [contradiction|].
  cbv [bind modify get ret new]. fields.
  assert (Hk2 : nth_error
                  ((objects (scene s) ++ [Graphics []]) ++ [Graphics []]) c
                = Some (Container kids)).
  { apply nth_error_app_old, nth_error_app_old, Hk. }
  destruct (cache (inputs s)) eqn:Hcache; fields; rewrite Hc; fields.
  all: repeat (erewrite run_onContainer;
    [| unfold objectAt, store; fields;
       first [ exact Hk2
             | eapply nth_error_replace_same, Hk2
             | rewrite ?replace_replace; eapply nth_error_replace_same, Hk2 ]
     | reflexivity ]).
  all: f_equal; unfold store, restarted; same_state.
  all: try (rewrite Hcache; reflexivity).
  all: rewrite ?replace_replace, ?length_snoc, <- ?app_assoc; cbn [app];
       try reflexivity.
Qed.

Lemma beginStrokeAt_missing (s : @State num) (x y : num) i :
  i <> (-1)%Z ->
  arrayGet (_strokes (scene s)) i = None ->
  exists s', beginStrokeAt x y i s = Throw TypeError s'
    /\ objects (scene s')
       = objects (scene s) ++ [Graphics []; Graphics []]
    /\ _strokes (scene s') = _strokes (scene s).
Proof.
  intros Hi Hc.
  unfold beginStrokeAt, cachePoint, numChildren.
  destruct (Z.eqb_spec i (-1)) as [|_]; [contradiction|].
  cbv [bind modify get ret new]. fields.
  destruct (cache (inputs s)); fields; rewrite Hc;
    (eexists; split; [reflexivity|]); fields;
    rewrite <- app_assoc; split; reflexivity.
Qed.

(** *** Every call keeps the drawing well formed *)

Lemma In_removeAt i (kids : list ref) k :
  In k (removeAt i kids) -> In k kids.
Proof.
  revert i; induction kids as [|a kids IH]; intros [|i] H; simpl in *; auto.
  destruct H as [H|H]; [left; exact H | right; eapply IH, H].
Qed.

Lemma In_removeFirst child (kids : list ref) k :
  In k (removeFirst child kids) -> In k kids.
Proof.
  induction kids as [|a kids IH]; simpl; auto.
  destruct (Nat.eqb a child); simpl; intros H; auto.
  destruct H as [H|H]; [left; exact H | right; apply IH, H].
Qed.

Lemma groups_shrink_container (h : list (@DisplayObject num)) strokes c
    old kids :
  nth_error h c = Some (Container old) ->
  incl kids old ->
  groupsOfGraphics h strokes ->
  groupsOfGraphics (replace c (Container kids) h) strokes.
Proof.
  intros Hc Hsub W r Hr.
  assert (keep : forall k, isGraphics h k ->
                 isGraphics (replace c (Container kids) h) k).
  { intros k Gk.
    destruct (@isGraphics_replace_container h c kids k Gk) as [ H0 | -> ];
      [assumption|]. destruct Gk as [d Hd]. congruence. }
  destruct (W r Hr) as (v & Hv & Hg).
  destruct (Nat.eq_dec r c) as [ -> | Hne ].
  - exists kids. split; [eapply nth_error_replace_same, Hc|].
    intros k Hin. apply keep, Hg.
    assert (v = old) by congruence. subst v. apply Hsub, Hin.
  - exists v. split.
    + rewrite nth_error_replace.
      destruct (Nat.eqb_spec r c); [contradiction | exact Hv].
    + intros k Hin. apply keep, Hg, Hin.
Qed.

Lemma wellFormed_onGraphics g f :
  preserves wellFormed (onGraphics (num := num) g f).
Proof.
  intros s W. unfold onGraphics.
  destruct g as [r|]; [|exact W].
  destruct (objectAt s r) as [[cmds|kids]|] eqn:E; try exact W.
  apply groups_replace_graphics; [exists cmds; exact E | exact W].
Qed.

Lemma wellFormed_onContainer c f :
  (forall kids kids', f kids = Some kids' -> incl kids' kids) ->
  preserves wellFormed (onContainer (num := num) c f).
Proof.
  intros Hf s W. unfold onContainer.
  destruct c as [r|]; [|exact W].
  destruct (objectAt s r) as [[cmds|kids]|] eqn:E; try exact W.
  destruct (f kids) as [kids'|] eqn:F; [|exact W].
  eapply groups_shrink_container; [exact E | eapply Hf, F | exact W].
Qed.

Ltac wellformed :=
  unfold paint, Graphics_clear, removeChildAt, removeChild, contains,
    __assignMouseHandlers, __removeMouseHandlers;
  preserves_steps;
  try match goal with
    | |- preserves _ (numChildren _) => apply preserves_numChildren
    | |- preserves _ (onGraphics _ _) => apply wellFormed_onGraphics
    | |- preserves _ (onContainer _ _) =>
        apply wellFormed_onContainer;
        let kids := fresh "kids" in
        let kids' := fresh "kids'" in
        let k := fresh "k" in
        intros kids kids' ? k ?;
        repeat match goal with
               | H : (if ?b then _ else _) = Some _ |- _ => destruct b
               | H : match ?c with _ => _ end = Some _ |- _ => destruct c
               | H : Some _ = Some _ |- _ => injection H as <-
               | H : None = Some _ |- _ => discriminate H
               end;
        eauto using In_removeAt, In_removeFirst
    | |- preserves _ (children _) => apply preserves_children
    | |- preserves _ (modify _) =>
        apply preserves_modify; intros ? ?; assumption
    end.

Lemma wellFormed_cachePoint (x y : num) :
  preserves wellFormed (cachePoint x y).
Proof. unfold cachePoint. wellformed. Qed.

Lemma wellFormed_drawTip isFinal (x y : num) :
  preserves wellFormed (__drawTip isFinal x y).
Proof. unfold __drawTip. wellformed. Qed.

Lemma wellFormed_updateStroke (x y : num) :
  preserves wellFormed (updateStroke x y).
Proof.
  unfold updateStroke, detectCusp, extendStroke. wellformed;
    first [apply wellFormed_cachePoint | apply wellFormed_drawTip].
Qed.

Lemma wellFormed_endStrokeAt (x y : num) :
  preserves wellFormed (endStrokeAt x y).
Proof.
  unfold endStrokeAt. wellformed;
    first [apply wellFormed_cachePoint | apply wellFormed_drawTip].
Qed.

Lemma wellFormed_eraseStroke index :
  preserves wellFormed (eraseStroke (num := num) index).
Proof. apply preserves_eraseStroke. Qed.

Lemma wellFormed_ngOnChanges (changes : list (@Change num)) :
  preserves wellFormed (ngOnChanges changes).
Proof.
  induction changes as [|ch rest IH]; simpl; wellformed; [|exact IH].
  unfold applyChange. destruct ch; wellformed.
Qed.

Lemma wellFormed_clear : preserves wellFormed (clear (num := num)).
Proof.
  intros s W. destruct (clear_run W) as (h' & Hrun). rewrite Hrun.
  intros r [].
Qed.

Lemma arrayGet_In {A} (a : list A) i v : arrayGet a i = Some v -> In v a.
Proof.
  unfold arrayGet. destruct (i <? 0)%Z; [discriminate|].
  apply nth_error_In.
Qed.

Lemma wellFormed_beginStrokeAt (x y : num) index :
  preserves wellFormed (beginStrokeAt x y index).
Proof.
  intros s W. destruct (Z.eq_dec index (-1)) as [ -> | Hi ].
  - rewrite beginStrokeAt_new. cbn [after]. unfold wellFormed, begun.
    cbn [scene objects _strokes].
    intros r Hr. apply in_app_or in Hr as [Hr|[<-|[]]].
    + apply (@groups_app _ _ (_strokes (scene s)) W r Hr).
    + exists [length (objects (scene s)); S (length (objects (scene s)))].
      split.
      * rewrite nth_error_app2 by lia.
        replace (S (S (length (objects (scene s))))
                 - length (objects (scene s)))%nat with 2%nat by lia.
        reflexivity.
      * intros k [<-|[<-|[]]]; exists [].
        -- apply nth_error_at_length.
        -- rewrite nth_error_app2 by lia.
           replace (S (length (objects (scene s)))
                    - length (objects (scene s)))%nat with 1%nat by lia.
           reflexivity.
  - destruct (arrayGet (_strokes (scene s)) index) as [c|] eqn:Hc.
    + destruct (W c (@arrayGet_In _ _ _ _ Hc)) as (kids & Hk & Hg).
      rewrite (@beginStrokeAt_existing s x y index c kids Hi Hc Hk).
      cbn [after].
      unfold wellFormed, restarted. cbn [scene objects _strokes].
      eapply groups_replace_container.
      * apply nth_error_app_old, Hk.
      * intros k Hin. apply in_app_or in Hin as [Hin|[<-|[<-|[]]]].
        -- apply isGraphics_app, Hg, Hin.
        -- exists []. apply nth_error_at_length.
        -- exists []. rewrite nth_error_app2 by lia.
           replace (S (length (objects (scene s)))
                    - length (objects (scene s)))%nat with 1%nat by lia.
           reflexivity.
      * apply groups_app, W.
    + destruct (@beginStrokeAt_missing s x y index Hi Hc) as (s' & Hrun & Ho & Hs).
      rewrite Hrun. cbn [after]. unfold wellFormed. rewrite Ho, Hs. apply groups_app, W.
Qed.

Lemma wellFormed_perform (s : @State num) c :
  wellFormed s -> wellFormed (perform s c).
Proof.
  destruct c; simpl.
  - apply wellFormed_clear.
  - apply wellFormed_beginStrokeAt.
  - apply wellFormed_updateStroke.
  - apply wellFormed_endStrokeAt.
  - apply wellFormed_eraseStroke.
  - apply wellFormed_ngOnChanges.
Qed.

Lemma wellFormed_session (cs : list (@Call num)) : wellFormed (session cs).
Proof.
  unfold session, performAll.
  assert (H0 : wellFormed (newDirective (num := num))).
  { apply wellFormed_clear. intros r []. }
  revert H0. generalize (newDirective (num := num)).
  induction cs as [|c rest IH]; intros s Hs; simpl.
  - exact Hs.
  - apply IH, wellFormed_perform, Hs.
Qed.

End WellFormed.

(** ** Strokes in progress *)

Section InProgress.

Context {num : Type} {N : Number num}.

Lemma live_onGraphics g f :
  preserves pressedIsLive (onGraphics (num := num) g f).
Proof.
  intros s J. unfold onGraphics.
  destruct g as [r|]; [|exact J].
  destruct (objectAt s r) as [[cmds|kids]|] eqn:E; try exact J.
  intros Hp. destruct (J Hp) as (g & t & Hg & Ht & Gg & Gt).
  exists g, t. repeat split; try assumption;
    apply isGraphics_replace; try assumption; exists cmds; exact E.
Qed.

Lemma live_onContainer c f :
  preserves pressedIsLive (onContainer (num := num) c f).
Proof.
  intros s J. unfold onContainer.
  destruct c as [r|]; [|exact J].
  destruct (objectAt s r) as [[cmds|kids]|] eqn:E; try exact J.
  destruct (f kids) as [kids'|]; [|exact J].
  intros Hp. destruct (J Hp) as (g & t & Hg & Ht & Gg & Gt).
  exists g, t. repeat split; try assumption.
  - destruct (@isGraphics_replace_container _ (objects (scene s)) r kids' g Gg)
      as [ H | -> ]; [exact H|].
    destruct Gg as [d Hd]. unfold objectAt in E. congruence.
  - destruct (@isGraphics_replace_container _ (objects (scene s)) r kids' t Gt)
      as [ H | -> ]; [exact H|].
    destruct Gt as [d Hd]. unfold objectAt in E. congruence.
Qed.

Ltac inprogress :=
  unfold paint, Graphics_clear, removeChildAt, removeChild, contains,
    __assignMouseHandlers, __removeMouseHandlers;
  preserves_steps;
  try match goal with
    | |- preserves _ (numChildren _) => apply preserves_numChildren
    | |- preserves _ (onGraphics _ _) => apply live_onGraphics
    | |- preserves _ (onContainer _ _) => apply live_onContainer
    | |- preserves _ (children _) => apply preserves_children
    | |- preserves _ (modify _) =>
        apply preserves_modify; intros ? ?; assumption
    end.

Lemma live_cachePoint (x y : num) :
  preserves pressedIsLive (cachePoint x y).
Proof. unfold cachePoint. inprogress. Qed.

Lemma live_drawTip isFinal (x y : num) :
  preserves pressedIsLive (__drawTip isFinal x y).
Proof. unfold __drawTip. inprogress. Qed.

Lemma live_endStrokeAt (x y : num) :
  preserves pressedIsLive (endStrokeAt x y).
Proof.
  unfold endStrokeAt.
  apply preserves_bind; [apply live_cachePoint | intros _].
  apply preserves_bind; [apply live_drawTip | intros _].
  apply preserves_bind; [apply preserves_get | intros s0].
  apply preserves_bind; [apply live_onGraphics | intros _].
  apply preserves_bind; [apply preserves_get | intros s1].
  apply preserves_bind; [apply live_onContainer | intros _].
  intros s _ Hp. discriminate Hp.
Qed.

Lemma live_updateStroke (x y : num) :
  preserves pressedIsLive (updateStroke x y).
Proof.
  intros s J.
  destruct (_mousePressed (mouse s)) eqn:Hp.
  - destruct (updateStroke_live x y Hp (J Hp)) as (s' & Hrun & Hl & _).
    rewrite Hrun. intros _. exact Hl.
  - rewrite (updateStroke_idle s x y Hp). intros Hp'. cbn [after] in Hp'.
    congruence.
Qed.

Lemma live_eraseStroke index :
  preserves pressedIsLive (eraseStroke (num := num) index).
Proof. apply preserves_eraseStroke. Qed.

Lemma live_ngOnChanges (changes : list (@Change num)) :
  preserves pressedIsLive (ngOnChanges changes).
Proof.
  induction changes as [|ch rest IH]; simpl; inprogress; [|exact IH].
  unfold applyChange. destruct ch; inprogress.
Qed.

Lemma live_clear (s : @State num) :
  wellFormed s -> pressedIsLive (after (clear s)).
Proof.
  intros W. destruct (clear_run W) as (h' & Hrun). rewrite Hrun.
  intros Hp. discriminate Hp.
Qed.

Lemma restarted_live (s : @State num) (x y : num) c kids :
  nth_error (objects (scene s)) c = Some (Container kids) ->
  live (restarted x y c kids s).
Proof.
  intros Hk.
  assert (Hlt : (c < length (objects (scene s)))%nat).
  { apply nth_error_Some. congruence. }
  exists (length (objects (scene s))), (S (length (objects (scene s)))).
  split; [reflexivity|]. split; [reflexivity|].
  unfold restarted. cbn [scene objects].
  split; exists []; rewrite nth_error_replace.
  - destruct (Nat.eqb_spec (length (objects (scene s))) c); [lia|].
    apply nth_error_at_length.
  - destruct (Nat.eqb_spec (S (length (objects (scene s)))) c); [lia|].
    rewrite nth_error_app2 by lia.
    replace (S (length (objects (scene s)))
             - length (objects (scene s)))%nat with 1%nat by lia.
    reflexivity.
Qed.

Lemma beginStrokeAt_missing_live (s : @State num) (x y : num) i :
  i <> (-1)%Z ->
  arrayGet (_strokes (scene s)) i = None ->
  live (after (beginStrokeAt x y i s)).
Proof.
  intros Hi Hc.
  unfold beginStrokeAt, cachePoint, numChildren.
  destruct (Z.eqb_spec i (-1)) as [|_]; [contradiction|].
  cbv [bind modify get ret new]. fields.
  exists (length (objects (scene s))),
         (length (objects (scene s) ++ [Graphics []])).
  destruct (cache (inputs s)); fields; rewrite Hc; cbn [after]; fields;
    (split; [reflexivity|]); (split; [reflexivity|]);
    split; exists [].
  all: try apply nth_error_at_length.
  all: rewrite <- app_assoc; apply nth_error_at_length.
Qed.

Lemma live_beginStrokeAt (s : @State num) (x y : num) index :
  wellFormed s -> pressedIsLive (after (beginStrokeAt x y index s)).
Proof.
  intros W _. destruct (Z.eq_dec index (-1)) as [ -> | Hi ].
  - rewrite beginStrokeAt_new. apply begun_live.
  - destruct (arrayGet (_strokes (scene s)) index) as [c|] eqn:Hc.
    + destruct (W c (@arrayGet_In _ _ _ _ Hc)) as (kids & Hk & _).
      rewrite (@beginStrokeAt_existing _ _ s x y index c kids Hi Hc Hk).
      apply restarted_live, Hk.
    + apply beginStrokeAt_missing_live; assumption.
Qed.

Lemma inProgress_perform (s : @State num) c :
  wellFormed s -> pressedIsLive s -> pressedIsLive (perform s c).
Proof.
  intros W J. destruct c; simpl.
  - apply live_clear, W.
  - apply live_beginStrokeAt, W.
  - apply live_updateStroke, J.
  - apply live_endStrokeAt, J.
  - apply live_eraseStroke, J.
  - apply live_ngOnChanges, J.
Qed.

Lemma inProgress_session (cs : list (@Call num)) :
  pressedIsLive (session cs).
Proof.
  unfold session, performAll.
  assert (H0 : wellFormed (newDirective (num := num))
               /\ pressedIsLive (newDirective (num := num))).
  { split.
    - apply wellFormed_clear. intros r [].
    - apply live_clear. intros r []. }
  revert H0. generalize (newDirective (num := num)).
  induction cs as [|c rest IH]; intros s [W J]; simpl.
  - exact J.
  - apply IH. split.
    + apply wellFormed_perform, W.
    + apply inProgress_perform; assumption.
Qed.

(** In every state reached by calls of the public operations,
    [updateStroke] completes. *)
Lemma updateStroke_completes (cs : list (@Call num)) (x y : num) :
  completes (updateStroke x y (session cs)) = true.
Proof.
  destruct (_mousePressed (mouse (session cs))) eqn:Hp.
  - destruct (updateStroke_live x y Hp (inProgress_session cs Hp))
      as (s' & Hrun & _).
    rewrite Hrun. reflexivity.
  - rewrite (updateStroke_idle _ x y Hp). reflexivity.
Qed.

(** C3: in every state reached by calls of the public operations in which
    a stroke is in progress, [updateStroke(x, y)] completes; when the dot
    product of the raw change of position with the previous one is negative,
    the state that smoothing starts from has a final tip cap drawn into the
    stroke at the previous raw point, both smoothed positions at that point,
    the last rotation increased by pi and the last thickness multiplied by
    the tip-taper factor; when the dot product is not negative, the display
    objects and these fields are the ones of before the call. *)
Theorem cusp_detection (cs : list (@Call num)) (x y : num) :
  let s := session cs in
  _mousePressed (mouse s) = true ->
  let m := mouse s in
  let d := ((x - _lastMouseX m) * _lastMouseChangeVectorX m
            + (y - _lastMouseY m) * _lastMouseChangeVectorY m)%num in
  exists g drawn s1 s2,
    _stroke (scene s) = Some g
    /\ objectAt s g = Some (Graphics drawn)
    /\ updateStroke x y s = extendStroke x y s1
    /\ extendStroke x y s1 = Ok tt s2
    /\ if (d <? ofZ 0)%num then
         objectAt s1 g
         = Some (Graphics (drawn ++ tipCap s (_lastMouseX m) (_lastMouseY m)))
         /\ _smoothedMouseX (mouse s1) = _lastMouseX m
         /\ _smoothedMouseY (mouse s1) = _lastMouseY m
         /\ _lastSmoothedMouseX (mouse s1) = _lastMouseX m
         /\ _lastSmoothedMouseY (mouse s1) = _lastMouseY m
         /\ _lastRotation (draw s1) = (_lastRotation (draw s) + Math_PI)%num
         /\ _lastThickness (thick s1)
            = Some (_tipTaperFactor (thick s)
                    * toNumber (_lastThickness (thick s)))%num
       else
         objects (scene s1) = objects (scene s)
         /\ _smoothedMouseX (mouse s1) = _smoothedMouseX m
         /\ _smoothedMouseY (mouse s1) = _smoothedMouseY m
         /\ _lastSmoothedMouseX (mouse s1) = _lastSmoothedMouseX m
         /\ _lastSmoothedMouseY (mouse s1) = _lastSmoothedMouseY m
         /\ _lastRotation (draw s1) = _lastRotation (draw s)
         /\ _lastThickness (thick s1) = _lastThickness (thick s).
Proof.
  intros s Hp m d.
  destruct (inProgress_session cs Hp) as (g & t & Hg & Ht & [drawn Gg] & Gt).
  destruct (@cusp_detection_at _ _ s x y g drawn Hp Hg Gg)
    as (s1 & Hrun & Hif).
  destruct (updateStroke_live x y Hp (inProgress_session cs Hp))
    as (s2 & Hdone & _).
  exists g, drawn, s1, s2.
  split; [exact Hg|]. split; [exact Gg|]. split; [exact Hrun|].
  split; [rewrite <- Hrun; exact Hdone | exact Hif].
Qed.

End InProgress.


(** ** [clear] and restarting a stroke *)

Section ClearAndRestart.

Context {num : Type} {N : Number num}.

(** In every state reached by calls of the public operations, also in the
    middle of a stroke, [clear()] completes, leaves no stroke, and resets
    the last raw position, the smoothed positions, the last movement vector,
    the mouse-pressed flag (all of the mouse fields) and the last rotation
    (all of the cached drawing fields) to zero or false; it emits nothing.
    The line thickness properties are not among its assignments. *)
Lemma clear_resets_the_drawing (cs : list (@Call num)) :
  exists s',
    clear (session cs) = Ok tt s'
    /\ numStrokes s' = 0%nat
    /\ mouse s' = zeroMouse
    /\ draw s' = zeroDraw
    /\ emitted s' = emitted (session cs)
    /\ thick s' = thick (session cs).
Proof.
  destruct (clear_run (wellFormed_session cs)) as (h' & Hrun).
  exists (cleared h' (session cs)). split; [exact Hrun|].
  repeat split.
Qed.


End ClearAndRestart.

Section SampleRuns.

Import JS.
Local Open Scope float_scope.
Local Existing Instance Sample.engine.

(** C6: [clear()] misses the last thickness.  After [beginStrokeAt(0,0)] and
    [updateStroke(10,0)] the last thickness is not zero, and [clear()]
    completes and leaves it as it is. *)
Theorem clear_keeps_the_last_thickness :
  let s := Sample.run [ call_beginStrokeAt 0 0 (-1);
                        call_updateStroke 10 0 ] in
  exists s' v,
    clear s = Ok tt s'
    /\ _lastThickness (thick s) = Some v
    /\ _lastThickness (thick s') = Some v
    /\ (v =? 0) = false.
Proof.
  intros s. eexists. eexists.
  repeat match goal with
         | |- _ /\ _ => split
         | |- _ = _ => vm_compute; reflexivity
         end.
Qed.

(** C4 as stated fails where a raw change of position overflows: the
    coordinates -2^1023 and 2^1023 are finite doubles, their difference is
    infinite, and its product with the zero of the last movement vector,
    and so the dot product, is NaN and not 0. *)
Lemma first_dot_product_is_NaN :
  let x0 := (- 0x1p+1023)%float in
  let x1 := 0x1p+1023%float in
  let s1 := after (beginStrokeAt x0 0 (-1) (Sample.run [])) in
  let dot := movementDot (mouseMovedTo x1 0 (mouse s1)) in
  PrimFloat.is_finite x0 = true
  /\ PrimFloat.is_finite x1 = true
  /\ _lastMouseChangeVectorX (mouse s1) = 0
  /\ _lastMouseChangeVectorY (mouse s1) = 0
  /\ (dot =? 0) = false
  /\ PrimFloat.is_nan dot = true.
Proof.
  intros x0 x1 s1 dot.
  repeat match goal with
         | |- _ /\ _ => split
         | |- _ = _ => vm_compute; reflexivity
         end.
Qed.


End SampleRuns.

(** ** Thickness along a stroke *)

Section ExtendFields.
Context {num : Type} {N : Number num}.
Local Open Scope num_scope.




Lemma cuspAt_cacheFields (s : @State num) x y :
  cuspAt x y (cacheFields x y s) = cuspAt x y s.
Proof. unfold cuspAt. rewrite cacheFields_mouse. reflexivity. Qed.





End ExtendFields.

(** ** Rounding of doubles

    What the sums, differences and products of doubles are, from the
    specification of their arithmetic. *)

Section Rounding.

Local Open Scope Z_scope.









(** *** Shifting a mantissa to the right *)













(** *** The order of doubles *)








(** *** Sums and differences *)







Local Open Scope float_scope.


End Rounding.

Section ThicknessSteps.

Import JS.
Local Open Scope float_scope.
Context {E : MathImpl}.


End ThicknessSteps.

Section ThicknessOnDoubles.

Import JS.
Local Open Scope float_scope.
Local Existing Instance Sample.engine.


(** Rounding alone makes the thickness drop.  On the ray through (9, 12),
    with samples at equal distances of 15 and no cusp, the thickness grows
    towards 5.5 for 116 updates; in the 117th the distance moved by the
    smoothed point, and with it the target thickness, is rounded to a value
    below the last thickness, and the thickness decreases. *)
Lemma thickness_drops_by_rounding :
  let s := Sample.run [ call_beginStrokeAt 0 0 (-1) ] in
  forallb (fun d => d =? 15) (distances (0, 0) (alongRay 117)) = true
  /\ updatesComplete s (alongRay 117) = true
  /\ nondecreasing (lineThicknesses s (alongRay 116)) = true
  /\ targetsNotBelow s (alongRay 116) = true
  /\ nondecreasing (lineThicknesses s (alongRay 117)) = false
  /\ targetsNotBelow s (alongRay 117) = false.
Proof.
  intros s.
  repeat match goal with
         | |- _ /\ _ => split
         | |- _ = _ => vm_compute; reflexivity
         end.
Qed.

End ThicknessOnDoubles.

(** ** The theorems at sample inputs *)

Section Witnesses.

Import JS.
Local Open Scope float_scope.
Local Existing Instance Sample.engine.

Lemma eraseStroke_negative_index_witness :
  let s := Sample.run [ call_beginStrokeAt 10 10 (-1);
                        call_endStrokeAt 20 10 ] in
  ((-1 < 0)%Z /\ (1 <= numStrokes s)%nat)
  /\ eraseStroke (-1) s = Throw TypeError s
  /\ numStrokes (after (eraseStroke (-1) s)) = 1%nat.
Proof.
  intros s.
  assert (H0 : (-1 < 0)%Z) by lia.
  assert (H1 : (1 <= numStrokes s)%nat) by (vm_compute; lia).
  split; [split; assumption|].
  destruct (eraseStroke_negative_index s H0 H1) as [Hrun Hn].
  split; [exact Hrun|]. rewrite Hn. vm_compute. reflexivity.
Defined.

Lemma cached_coordinates_witness :
  let s := Sample.run [] in
  cache (inputs s) = true
  /\ (let s' := performAll s
              [ call_beginStrokeAt (ofZ 10) (ofZ 10) (-1);
                call_updateStroke (ofZ 12) (ofZ 11);
                call_updateStroke (ofZ 15) (ofZ 9);
                call_endStrokeAt (ofZ 20) (ofZ 10) ] in
      get_x s' = [ofZ 10; ofZ 12; ofZ 15; ofZ 20]
      /\ get_y s' = [ofZ 10; ofZ 11; ofZ 9; ofZ 10]).
Proof.
  intros s.
  assert (H : cache (inputs s) = true) by (vm_compute; reflexivity).
  split; [exact H|]. exact (cached_coordinates s H).
Defined.

Lemma cusp_detection_witness :
  let s := session [ call_beginStrokeAt 0 0 (-1);
                     call_updateStroke 100 0 ] in
  _mousePressed (mouse s) = true
  /\ exists s1,
       updateStroke 50 0 s = extendStroke 50 0 s1
       /\ _smoothedMouseX (mouse s1) = 100
       /\ _lastRotation (draw s1) = (_lastRotation (draw s) + Math_PI)%num.
Proof.
  intros s.
  assert (H1 : _mousePressed (mouse s) = true) by (vm_compute; reflexivity).
  split; [exact H1|].
  destruct (cusp_detection
              [ call_beginStrokeAt 0 0 (-1); call_updateStroke 100 0 ]
              50 0 H1)
    as (g & drawn & s1 & s2 & _ & _ & Hrun & _ & Hif).
  match type of Hif with
  | if ?c then _ else _ =>
      replace c with true in Hif by (vm_compute; reflexivity)
  end.
  destruct Hif as (_ & Hsx & _ & _ & _ & Hrot & _).
  exists s1. split; [exact Hrun|]. split; [|exact Hrot].
  rewrite Hsx. vm_compute. reflexivity.
Defined.



End Witnesses.

(** * More of the directive, its handlers and the demo component *)

Ltac framed :=
  preserves_with
    ltac:(intros ? ? ?; assumption)
    ltac:(intros ? ?; assumption).

(** ** One stroke, from begin to end *)

Section Strokes.

Context {num : Type} {N : Number num}.

Lemma paintOn_container (h : list (@DisplayObject num)) r cmds c kids :
  nth_error h c = Some (Container kids) ->
  nth_error (paintOn r cmds h) c = Some (Container kids).
Proof.
  intros H. unfold paintOn.
  destruct (nth_error h r) as [[drawn|k]|] eqn:E; try exact H.
  rewrite nth_error_replace.
  destruct (Nat.eqb_spec c r) as [->|]; [congruence | exact H].
Qed.

Lemma updateObjects_container (s : @State num) x y g t h c kids :
  isGraphics h t ->
  nth_error h c = Some (Container kids) ->
  nth_error (updateObjects x y s g t h) c = Some (Container kids).
Proof.
  intros [d Ht] H. unfold updateObjects, extendObjects, cuspObjects.
  cbv zeta. rewrite nth_error_replace.
  destruct (Nat.eqb_spec c t) as [->|]; [congruence|].
  apply paintOn_container.
  destruct (cuspAt _ _ _); [apply paintOn_container|]; exact H.
Qed.

Lemma length_replace {A} (h : list A) i v :
  length (replace i v h) = length h.
Proof.
  revert i; induction h as [|a h IH]; intros [|i]; simpl; try reflexivity.
  f_equal. apply IH.
Qed.

Lemma length_paintOn (h : list (@DisplayObject num)) r cmds :
  length (paintOn r cmds h) = length h.
Proof.
  unfold paintOn.
  destruct (nth_error h r) as [[drawn|kids]|]; try reflexivity.
  apply length_replace.
Qed.

Lemma length_updateObjects (s : @State num) x y g t h :
  length (updateObjects x y s g t h) = length h.
Proof.
  unfold updateObjects, extendObjects, cuspObjects. cbv zeta.
  rewrite length_replace, length_paintOn.
  destruct (cuspAt _ _ _); [apply length_paintOn | reflexivity].
Qed.

Lemma updateFields_emitted (s : @State num) x y :
  emitted (updateFields x y s) = emitted s.
Proof.
  unfold updateFields, extendFields, cuspFields, cacheFields.
  destruct (cache (inputs s)); destruct (cuspAt _ _ _); reflexivity.
Qed.

Lemma withObjects_emitted (h : list (@DisplayObject num)) u :
  emitted (withObjects h u) = emitted u.
Proof. reflexivity. Qed.

Lemma withObjects_strokes (h : list (@DisplayObject num)) u :
  _strokes (scene (withObjects h u)) = _strokes (scene u).
Proof. reflexivity. Qed.

Lemma withObjects_strokeContainer (h : list (@DisplayObject num)) u :
  _strokeContainer (scene (withObjects h u)) = _strokeContainer (scene u).
Proof. reflexivity. Qed.

Lemma withObjects_group (h : list (@DisplayObject num)) u :
  _curStrokeContainer (scene (withObjects h u))
  = _curStrokeContainer (scene u).
Proof. reflexivity. Qed.

(** The tip that an update leaves is the cap at the raw point, computed from
    the fields that the update leaves. *)
Lemma extendObjects_tip (u : @State num) x y g t h :
  isGraphics h t ->
  nth_error (extendObjects x y u g t h) t
  = Some (Graphics (tipCap (extendFields x y u) x y)).
Proof.
  intros [d Ht]. unfold extendObjects. cbv zeta.
  assert (G : isGraphics (paintOn g
            (patch (withMouse (smoothTowards (smoothing (inputs u)) x y) u)
               (segment (withMouse (smoothTowards (smoothing (inputs u)) x y) u)))
            h) t) by (apply paintOn_graphics; exists d; exact Ht).
  destruct G as [d' G].
  erewrite nth_error_replace_same by exact G. reflexivity.
Qed.

Lemma tipCap_withObjects (h : list (@DisplayObject num)) u (x y : num) :
  tipCap (withObjects h u) x y = tipCap u x y.
Proof. reflexivity. Qed.

Lemma updateObjects_tip (s : @State num) x y g t h :
  isGraphics h t ->
  nth_error (updateObjects x y s g t h) t
  = Some (Graphics (tipCap (updateFields x y s) x y)).
Proof.
  intros Gt. unfold updateObjects, updateFields.
  apply extendObjects_tip, cuspObjects_graphics, Gt.
Qed.

Lemma updateStroke_in_stroke (s : @State num) (x y : num) g t c kids :
  InStroke g t c kids s ->
  exists s', updateStroke x y s = Ok tt s'
    /\ InStroke g t c kids s'
    /\ inputs s' = inputs s
    /\ pts s' = pts (cacheFields x y s)
    /\ emitted s' = emitted s
    /\ _strokes (scene s') = _strokes (scene s)
    /\ _strokeContainer (scene s') = _strokeContainer (scene s)
    /\ length (objects (scene s')) = length (objects (scene s))
    /\ objectAt s' t = Some (Graphics (tipCap s' x y)).
Proof.
  intros [Hp Hg Ht Hc Gg Gt Hk].
  exists (withObjects (updateObjects x y s g t (objects (scene s)))
            (updateFields x y s)).
  split; [apply (@updateStroke_run _ _ s x y g t); assumption|].
  split.
  { constructor;
      rewrite ?withObjects_mouse, ?withObjects_stroke, ?withObjects_tip,
        ?withObjects_group, ?withObjects_objects, ?updateFields_pressed,
        ?updateFields_scene.
    - exact Hp.
    - exact Hg.
    - exact Ht.
    - exact Hc.
    - apply updateObjects_graphics; assumption.
    - apply updateObjects_graphics; assumption.
    - apply updateObjects_container; assumption. }
  rewrite withObjects_inputs, withObjects_pts, withObjects_emitted,
    withObjects_strokes, withObjects_strokeContainer,
    updateFields_inputs, updateFields_pts, updateFields_emitted,
    updateFields_scene.
  do 5 (split; [reflexivity|]).
  split; [rewrite withObjects_objects; apply length_updateObjects|].
  unfold objectAt. rewrite withObjects_objects, tipCap_withObjects.
    apply updateObjects_tip, Gt.
Qed.

Lemma tipFields_scene (u : @State num) : scene (tipFields u) = scene u.
Proof. reflexivity. Qed.

Lemma endStrokeAt_run (s : @State num) (x y : num) g t c kids :
  InStroke g t c kids s ->
  endStrokeAt x y s = Ok tt (ended x y g t c kids s).
Proof.
  intros [Hp Hg Ht Hc Gg Gt Hk].
  unfold endStrokeAt.
  rewrite (bind_Ok _ _ _ (cachePoint_Ok s x y)).
  assert (E1 : scene (cacheFields x y s) = scene s)
    by apply cacheFields_scene.
  unfold ended. cbv zeta.
  set (s1 := cacheFields x y s) in *.
  set (h1 := paintOn g (tipCap s1 x y) (objects (scene s))).
  assert (R1 : __drawTip true x y s1 = Ok tt (withObjects h1 (tipFields s1))).
  { rewrite <- (withObjects_self s1) at 1. rewrite E1.
    apply drawTip_final_run; [rewrite E1; exact Hg | exact Gg]. }
  rewrite (bind_Ok _ _ _ R1).
  assert (G1 : isGraphics h1 t) by (apply paintOn_graphics, Gt).
  assert (K1 : nth_error h1 c = Some (Container kids))
    by (apply paintOn_container, Hk).
  unfold bind at 1, get at 1.
  rewrite withObjects_tip, tipFields_scene, E1, Ht.
  rewrite (bind_Ok _ _ _ (run_Graphics_clear (tipFields s1) G1)).
  set (h2 := replace t (Graphics []) h1).
  assert (K2 : nth_error h2 c = Some (Container kids)).
  { unfold h2. rewrite nth_error_replace.
    destruct (Nat.eqb_spec c t) as [->|]; [|exact K1].
    destruct G1 as [d G1]. congruence. }
  unfold bind at 1, get at 1.
  rewrite withObjects_tip, withObjects_group, tipFields_scene, E1, Ht, Hc.
  unfold removeChild.
  erewrite bind_Ok
    by (apply run_onContainer with (kids := kids);
        [unfold objectAt; rewrite withObjects_objects; exact K2 | reflexivity]).
  cbv [bind modify]. f_equal.
Qed.

Lemma begun_in_stroke (s : @State num) (x y : num) :
  let g := length (objects (scene s)) in
  InStroke g (S g) (S (S g)) [g; S g] (begun x y s).
Proof.
  intros g. destruct (begun_live s x y) as (g' & t' & Hg & Ht & Gg & Gt).
  injection Hg as <-. injection Ht as <-.
  constructor; try reflexivity; try assumption.
  subst g. unfold begun. cbn [scene objects].
  rewrite nth_error_app2 by lia.
  replace (S (S (length (objects (scene s)))) - length (objects (scene s)))%nat
    with 2%nat by lia.
  reflexivity.
Qed.

Lemma allComplete_app (s : @State num) (a b : list (@Call num)) :
  allComplete s (a ++ b)
  = allComplete s a && allComplete (performAll s a) b.
Proof.
  revert s. induction a as [|c a IH]; intros s; simpl.
  - reflexivity.
  - rewrite IH, andb_assoc. reflexivity.
Qed.

Lemma performAll_app (s : @State num) (a b : list (@Call num)) :
  performAll s (a ++ b) = performAll (performAll s a) b.
Proof. apply fold_left_app. Qed.

(** The points that a sequence of updates adds to the log. *)
Lemma updates_in_stroke (samples : list (num * num)) :
  forall (s : @State num) g t c kids,
  InStroke g t c kids s ->
  let cs := map (fun p => call_updateStroke (fst p) (snd p)) samples in
  let s' := performAll s cs in
  allComplete s cs = true
  /\ InStroke g t c kids s'
  /\ inputs s' = inputs s
  /\ pts s' = (if cache (inputs s)
              then {| _x := _x (pts s) ++ map fst samples;
                      _y := _y (pts s) ++ map snd samples |}
              else pts s)
  /\ emitted s' = emitted s
  /\ _strokes (scene s') = _strokes (scene s)
  /\ _strokeContainer (scene s') = _strokeContainer (scene s)
  /\ length (objects (scene s')) = length (objects (scene s)).
Proof.
  induction samples as [|[x y] rest IH]; intros s g t c kids J; cbv zeta.
  - cbn [map performAll fold_left allComplete].
    rewrite !app_nil_r.
    repeat (split; [first [reflexivity | exact J]|]).
    split; [destruct (cache (inputs s)), (pts s); reflexivity|].
    repeat (split; [reflexivity|]). reflexivity.
  - cbn [map fst snd allComplete callCompletes].
    change (performAll s (call_updateStroke x y :: ?l))
      with (performAll (perform s (call_updateStroke x y)) l).
    cbn [perform].
    destruct (updateStroke_in_stroke x y J)
      as (s1 & R & J1 & I1 & P1 & E1 & S1 & C1 & L1 & _).
    rewrite R. cbn [completes after andb].
    destruct (IH s1 g t c kids J1) as (A & J2 & I2 & P2 & E2 & S2 & C2 & L2).
    split; [exact A|]. split; [exact J2|].
    rewrite I2, P2, E2, S2, C2, L2, I1, P1, E1, S1, C1, L1.
    split; [reflexivity|].
    split.
    { unfold cacheFields. destruct (cache (inputs s)); [|reflexivity].
      cbn [pts withPts _x _y]. rewrite <- !app_assoc. reflexivity. }
    repeat (split; [reflexivity|]). reflexivity.
Qed.

Lemma ended_scene (s : @State num) (x y : num) g t c kids :
  scene (ended x y g t c kids s)
  = set_tip None
      (set_objects
         (replace c (Container (removeFirst t kids))
            (replace t (Graphics [])
               (paintOn g (tipCap (cacheFields x y s) x y)
                  (objects (scene s)))))
         (scene s)).
Proof.
  unfold ended. cbv zeta.
  cbn [scene withEmitted withMouse withScene withObjects].
  rewrite tipFields_scene, cacheFields_scene. reflexivity.
Qed.

Lemma ended_pts (s : @State num) (x y : num) g t c kids :
  pts (ended x y g t c kids s) = pts (cacheFields x y s).
Proof. reflexivity. Qed.

Lemma ended_emitted (s : @State num) (x y : num) g t c kids :
  emitted (ended x y g t c kids s) = emitted s ++ [endStroke].
Proof.
  unfold ended, cacheFields. destruct (cache (inputs s)); reflexivity.
Qed.

Lemma ended_pressed (s : @State num) (x y : num) g t c kids :
  _mousePressed (mouse (ended x y g t c kids s)) = false.
Proof. reflexivity. Qed.

Lemma ended_objects (s : @State num) (x y : num) g t c kids :
  InStroke g t c kids s ->
  objectAt (ended x y g t c kids s) c
  = Some (Container (removeFirst t kids))
  /\ objectAt (ended x y g t c kids s) t = Some (Graphics []).
Proof.
  intros [Hp Hg Ht Hc Gg Gt Hk].
  unfold objectAt. rewrite ended_scene. cbn [objects set_tip set_objects].
  set (h1 := paintOn g (tipCap (cacheFields x y s) x y) (objects (scene s))).
  assert (G1 : isGraphics h1 t) by (apply paintOn_graphics, Gt).
  assert (K1 : nth_error h1 c = Some (Container kids))
    by (apply paintOn_container, Hk).
  destruct G1 as [d G1].
  assert (Hct : c <> t) by (intros ->; congruence).
  split.
  - eapply nth_error_replace_same.
    rewrite nth_error_replace.
    destruct (Nat.eqb_spec c t); [contradiction | exact K1].
  - rewrite nth_error_replace.
    destruct (Nat.eqb_spec t c) as [E|_]; [symmetry in E; contradiction|].
    eapply nth_error_replace_same, G1.
Qed.

Lemma removeFirst_tip (g : ref) : removeFirst (S g) [g; S g] = [g].
Proof.
  cbn [removeFirst].
  destruct (Nat.eqb_spec g (S g)) as [E|_]; [lia|].
  rewrite Nat.eqb_refl. reflexivity.
Qed.

(** The calls of one stroke, run from any state. *)
Lemma stroke_calls_run (s : @State num) (x0 y0 xe ye : num)
    (samples : list (num * num)) :
  let cs := strokeCalls x0 y0 samples xe ye in
  let g := length (objects (scene s)) in
  exists s1,
    InStroke g (S g) (S (S g)) [g; S g] s1
    /\ allComplete s cs = true
    /\ performAll s cs = ended xe ye g (S g) (S (S g)) [g; S g] s1
    /\ inputs s1 = inputs s
    /\ pts s1 = (if cache (inputs s)
                then {| _x := x0 :: map fst samples;
                        _y := y0 :: map snd samples |}
                else {| _x := []; _y := [] |})
    /\ emitted s1 = emitted s ++ [beginStroke]
    /\ _strokes (scene s1) = _strokes (scene s) ++ [S (S g)]
    /\ _strokeContainer (scene s1) = _strokeContainer (scene s) ++ [S (S g)].
Proof.
  intros cs g.
  pose proof (begun_in_stroke s x0 y0) as J0. cbv zeta in J0. fold g in J0.
  destruct (updates_in_stroke samples J0)
    as (A1 & J1 & I1 & P1 & E1 & S1 & C1 & _). cbv zeta in *.
  set (ups := map (fun p => call_updateStroke (fst p) (snd p)) samples) in *.
  set (s1 := performAll (begun x0 y0 s) ups) in *.
  assert (R : endStrokeAt xe ye s1
              = Ok tt (ended xe ye g (S g) (S (S g)) [g; S g] s1))
    by (apply endStrokeAt_run, J1).
  exists s1. split; [exact J1|].
  split.
  { unfold cs, strokeCalls. cbn [allComplete callCompletes perform].
    rewrite beginStrokeAt_new. cbn [completes after andb].
    rewrite allComplete_app. fold ups. rewrite A1. fold s1.
    cbn [allComplete callCompletes andb]. rewrite R. reflexivity. }
  split.
  { unfold cs, strokeCalls.
    change (performAll s (?c :: ?l)) with (performAll (perform s c) l).
    cbn [perform]. rewrite beginStrokeAt_new. cbn [after].
    rewrite performAll_app. fold ups. fold s1.
    cbn [performAll fold_left perform]. rewrite R. reflexivity. }
  split; [exact I1|].
  split.
  { rewrite P1. unfold begun. cbn [inputs pts].
    destruct (cache (inputs s)); reflexivity. }
  split; [rewrite E1; reflexivity|].
  split; [rewrite S1; reflexivity | rewrite C1; reflexivity].
Qed.

(** X1: one stroke, from any state: [beginStrokeAt(x0, y0)], an update for each
    sample and [endStrokeAt(xe, ye)] all complete.  They add one stroke at
    the end of the collection and of the container of strokes; its group
    holds the body only, the tip is emptied and released; the mouse is no
    longer pressed; one begin and one end notification are emitted; and
    with caching the log holds the points of the stroke in call order,
    without caching it is empty. *)
Theorem stroke_from_begin_to_end (s : @State num) (x0 y0 xe ye : num)
    (samples : list (num * num)) :
  let cs := strokeCalls x0 y0 samples xe ye in
  let s' := performAll s cs in
  let g := length (objects (scene s)) in
  allComplete s cs = true
  /\ numStrokes s' = S (numStrokes s)
  /\ _strokes (scene s') = _strokes (scene s) ++ [S (S g)]
  /\ _strokeContainer (scene s') = _strokeContainer (scene s) ++ [S (S g)]
  /\ objectAt s' (S (S g)) = Some (Container [g])
  /\ _stroke (scene s') = Some g
  /\ _tip (scene s') = None
  /\ objectAt s' (S g) = Some (Graphics [])
  /\ _mousePressed (mouse s') = false
  /\ emitted s' = emitted s ++ [beginStroke; endStroke]
  /\ get_x s'
     = (if cache (inputs s) then x0 :: map fst samples ++ [xe] else [])
  /\ get_y s'
     = (if cache (inputs s) then y0 :: map snd samples ++ [ye] else []).
Proof.
  intros cs s' g.
  destruct (stroke_calls_run s x0 y0 xe ye samples)
    as (s1 & J1 & A & Hs' & I1 & P1 & E1 & S1 & C1).
  fold cs in A, Hs'. fold s' in Hs'. fold g in J1, Hs', S1, C1.
  destruct (ended_objects xe ye J1) as [Oc Ot].
  rewrite removeFirst_tip in Oc.
  split; [exact A|].
  assert (HS : _strokes (scene s') = _strokes (scene s) ++ [S (S g)]).
  { rewrite Hs', ended_scene. cbn [_strokes set_tip set_objects]. exact S1. }
  split; [unfold numStrokes; rewrite HS, length_snoc; reflexivity|].
  split; [exact HS|].
  split.
  { rewrite Hs', ended_scene. cbn [_strokeContainer set_tip set_objects].
    exact C1. }
  split; [rewrite Hs'; exact Oc|].
  split.
  { rewrite Hs', ended_scene. cbn [_stroke set_tip set_objects].
    apply (stroke_body J1). }
  split; [rewrite Hs', ended_scene; reflexivity|].
  split; [rewrite Hs'; exact Ot|].
  split; [rewrite Hs'; apply ended_pressed|].
  split.
  { rewrite Hs', ended_emitted, E1, <- app_assoc. reflexivity. }
  assert (HP : pts s'
               = if cache (inputs s)
                 then {| _x := x0 :: map fst samples ++ [xe];
                         _y := y0 :: map snd samples ++ [ye] |}
                 else {| _x := []; _y := [] |}).
  { rewrite Hs', ended_pts. unfold cacheFields. rewrite I1.
    destruct (cache (inputs s)); [|exact P1].
    cbn [pts withPts]. rewrite P1. reflexivity. }
  unfold get_x, get_y. rewrite HP.
  destruct (cache (inputs s)); split; reflexivity.
Qed.

(** X2: [updateStroke] never throws in a state reached by calls of the public
    operations.  It leaves the collection of strokes, the container of
    strokes, the notifications and the mouse-pressed flag as they are. *)
Theorem updateStroke_keeps_the_collection (cs : list (@Call num))
    (x y : num) :
  let s := session cs in
  exists s',
    updateStroke x y s = Ok tt s'
    /\ _strokes (scene s') = _strokes (scene s)
    /\ _strokeContainer (scene s') = _strokeContainer (scene s)
    /\ emitted s' = emitted s
    /\ _mousePressed (mouse s') = _mousePressed (mouse s).
Proof.
  intros s. destruct (_mousePressed (mouse s)) eqn:Hp.
  - destruct (inProgress_session cs Hp) as (g & t & Hg & Ht & Gg & Gt).
    fold s in Hg, Ht, Gg, Gt.
    exists (withObjects (updateObjects x y s g t (objects (scene s)))
              (updateFields x y s)).
    split; [apply (@updateStroke_run _ _ s x y g t); assumption|].
    rewrite withObjects_strokes, withObjects_strokeContainer,
      withObjects_emitted, withObjects_mouse, updateFields_scene,
      updateFields_emitted, updateFields_pressed.
    do 3 (split; [reflexivity|]). exact Hp.
  - exists s. split; [apply updateStroke_idle, Hp|].
    do 3 (split; [reflexivity|]). exact Hp.
Qed.

(** X3: while a stroke is in progress, every [updateStroke(x, y)] leaves in the
    tip exactly one cap, the one at [(x, y)]: what the tip held before is
    cleared, not drawn over. *)
Theorem tip_is_redrawn_at_every_update (cs : list (@Call num)) (x y : num) :
  let s := session cs in
  _mousePressed (mouse s) = true ->
  exists t s',
    _tip (scene s) = Some t
    /\ updateStroke x y s = Ok tt s'
    /\ _tip (scene s') = Some t
    /\ objectAt s' t = Some (Graphics (tipCap s' x y)).
Proof.
  intros s Hp.
  destruct (inProgress_session cs Hp) as (g & t & Hg & Ht & Gg & Gt).
  fold s in Hg, Ht, Gg, Gt.
  exists t, (withObjects (updateObjects x y s g t (objects (scene s)))
               (updateFields x y s)).
  split; [exact Ht|].
  split; [apply (@updateStroke_run _ _ s x y g t); assumption|].
  rewrite withObjects_tip, updateFields_scene.
  split; [exact Ht|].
  unfold objectAt. rewrite withObjects_objects, tipCap_withObjects.
  apply updateObjects_tip, Gt.
Qed.

End Strokes.

Lemma lastEvent_snoc prev es e : lastEvent prev (es ++ [e]) = Some e.
Proof. unfold lastEvent. rewrite fold_left_app. reflexivity. Qed.

Lemma eachEndFollows_snoc es : forall prev e,
  eachEndFollows prev (es ++ [e])
  = eachEndFollows prev es
    && match e, lastEvent prev es with
       | endStroke, Some beginStroke => true
       | endStroke, _ => false
       | beginStroke, _ => true
       end.
Proof.
  induction es as [|a es IH]; intros prev e.
  - cbn. rewrite andb_true_r. reflexivity.
  - cbn [app eachEndFollows]. rewrite IH, andb_assoc. reflexivity.
Qed.

(** ** The order of the notifications *)

Section Notifications.

Context {num : Type} {N : Number num}.

Lemma sameStroke_refl (s : @State num) : sameStroke s s.
Proof. repeat split. Qed.

Lemma sameStroke_cachePoint (s0 : @State num) (x y : num) :
  preserves (sameStroke s0) (cachePoint x y).
Proof. unfold cachePoint. framed. Qed.

Lemma sameStroke_drawTip (s0 : @State num) isFinal (x y : num) :
  preserves (sameStroke s0) (__drawTip isFinal x y).
Proof. unfold __drawTip. framed. Qed.

Lemma sameStroke_onGraphics (s0 : @State num) g f :
  preserves (sameStroke s0) (onGraphics g f).
Proof. framed. Qed.

Lemma sameStroke_onContainer (s0 : @State num) c f :
  preserves (sameStroke s0) (onContainer c f).
Proof. framed. Qed.

Lemma sameStroke_updateStroke (s0 : @State num) (x y : num) :
  preserves (sameStroke s0) (updateStroke x y).
Proof.
  unfold updateStroke, detectCusp, extendStroke, cachePoint, __drawTip.
  framed.
Qed.

Lemma sameStroke_eraseStroke (s0 : @State num) index :
  preserves (sameStroke s0) (eraseStroke index).
Proof. unfold eraseStroke. framed. Qed.

Lemma sameStroke_ngOnChanges (s0 : @State num) changes :
  preserves (sameStroke s0) (ngOnChanges changes).
Proof.
  induction changes as [|ch rest IH]; simpl; [framed|].
  apply preserves_bind; [|intros _; exact IH].
  destruct ch; simpl; framed.
Qed.

Lemma keptByClear_refl (s : @State num) : keptByClear s s.
Proof. repeat split. Qed.

Lemma keptByClear_clearChildren (s0 : @State num) fuel c :
  preserves (keptByClear s0) (clearChildren fuel c).
Proof. revert c. induction fuel; intros c; simpl; framed. apply IHfuel. Qed.

Lemma keptByClear_forEach (s0 : @State num) cs
    (body : ref -> @Action num unit) :
  (forall c, preserves (keptByClear s0) (body c)) ->
  preserves (keptByClear s0) (forEach cs body).
Proof. intros H. induction cs; simpl; framed; auto. Qed.

Lemma keptByClear_emptyStrokeContainer (s0 : @State num) fuel :
  preserves (keptByClear s0) (emptyStrokeContainer fuel).
Proof. induction fuel; simpl; framed. exact IHfuel. Qed.

Lemma keptByClear_clear (s0 : @State num) :
  preserves (keptByClear s0) clear.
Proof.
  unfold clear. framed.
  - apply keptByClear_forEach. intros c. unfold clearStroke. framed.
    apply keptByClear_clearChildren.
  - apply keptByClear_emptyStrokeContainer.
Qed.

Lemma clear_keeps (s : @State num) : keptByClear s (after (clear s)).
Proof. apply keptByClear_clear, keptByClear_refl. Qed.

Lemma sameStroke_clear (s : @State num) : sameStroke s (after (clear s)).
Proof.
  destruct (clear_keeps s) as (_ & _ & _ & E & C & S & T).
  repeat split; assumption.
Qed.

(** Only [beginStrokeAt] and [endStrokeAt] assign these. *)
Lemma sameStroke_perform (s : @State num) c :
  match c with
  | call_beginStrokeAt _ _ _ | call_endStrokeAt _ _ => False
  | _ => True
  end ->
  sameStroke s (perform s c).
Proof.
  intros Hc. destruct c; try contradiction; cbn [perform].
  - apply sameStroke_clear.
  - apply sameStroke_updateStroke, sameStroke_refl.
  - apply sameStroke_eraseStroke, sameStroke_refl.
  - apply sameStroke_ngOnChanges, sameStroke_refl.
Qed.

Lemma announced_sameStroke (s u : @State num) :
  sameStroke s u -> announced s -> announced u.
Proof.
  intros (Ht & Hc & He & _) [A B]. unfold announced, endable.
  rewrite Ht, Hc, He. split; assumption.
Qed.

(** [endStrokeAt] completes only when a tip and a group are there; it then
    emits [endStroke] and releases the tip.  When it throws, the stroke and
    the notifications are as before. *)
Lemma endStrokeAt_announces (s : @State num) (x y : num) :
  match endStrokeAt x y s with
  | Ok _ s' =>
      endable s
      /\ emitted s' = emitted s ++ [endStroke]
      /\ _tip (scene s') = None
  | Throw _ s' => sameStroke s s'
  end.
Proof.
  unfold endStrokeAt.
  pose proof (@sameStroke_cachePoint s x y s (sameStroke_refl s)) as F1.
  rewrite (bind_Ok _ _ _ (cachePoint_Ok s x y)).
  rewrite cachePoint_Ok in F1. cbn [after] in F1.
  unfold bind at 1.
  pose proof (@sameStroke_drawTip s true x y _ F1) as F2.
  destruct (__drawTip true x y (cacheFields x y s)) as [[] s2|e s2];
    cbn [after] in F2; [|exact F2].
  unfold bind at 1, get at 1. unfold bind at 1.
  pose proof (@sameStroke_onGraphics s (_tip (scene s2)) (fun _ => []) _ F2)
    as F3.
  unfold Graphics_clear.
  destruct (onGraphics (_tip (scene s2)) (fun _ => []) s2) as [[] s3|e s3]
    eqn:R3; cbn [after] in F3; [|exact F3].
  assert (T : _tip (scene s2) <> None).
  { intros T. rewrite T in R3. discriminate R3. }
  unfold bind at 1, get at 1. unfold bind at 1. unfold removeChild.
  match goal with
  | |- match match onContainer ?c ?f s3 with _ => _ end with _ => _ end =>
      pose proof (@sameStroke_onContainer s c f _ F3) as F4;
      destruct (onContainer c f s3) as [[] s4|e s4] eqn:R4;
      cbn [after] in F4; [|exact F4]
  end.
  assert (C : _curStrokeContainer (scene s3) <> None).
  { intros C. rewrite C in R4. discriminate R4. }
  cbv [bind modify].
  destruct F2 as (T2 & _ & _). destruct F3 as (_ & C3 & _).
  destruct F4 as (_ & _ & E4 & _).
  split; [split; congruence|].
  split; [|reflexivity].
  cbn [emitted withEmitted withMouse withScene]. rewrite E4. reflexivity.
Qed.

Lemma announced_endStrokeAt (x y : num) :
  preserves announced (endStrokeAt x y).
Proof.
  intros s [A B]. pose proof (endStrokeAt_announces s x y) as H.
  destruct (endStrokeAt x y s) as [[] s'|e s']; cbn [after].
  - destruct H as (En & E & T). split.
    + unfold endsFollowBegins. rewrite E, eachEndFollows_snoc.
      fold (endsFollowBegins (emitted s)). rewrite A, (B En). reflexivity.
    + intros [T' _]. contradiction.
  - apply (announced_sameStroke H). split; assumption.
Qed.

Lemma announced_begin (s u : @State num) :
  announced s -> emitted u = emitted s ++ [beginStroke] -> announced u.
Proof.
  intros [A B] E. split.
  - unfold endsFollowBegins. rewrite E, eachEndFollows_snoc.
    fold (endsFollowBegins (emitted s)). rewrite A. reflexivity.
  - intros _. rewrite E. apply lastEvent_snoc.
Qed.

(** [beginStrokeAt] with an index that selects no stroke throws when it
    reads the children of the group; by then the log, the mouse fields and
    the references to body and tip are those of the new stroke. *)
Lemma beginStrokeAt_missing_state (s : @State num) (x y : num) i :
  i <> (-1)%Z ->
  arrayGet (_strokes (scene s)) i = None ->
  let g := length (objects (scene s)) in
  beginStrokeAt x y i s
  = Throw TypeError
      {| inputs := inputs s;
         draw := set_lastRotation (Math_PI / ofZ 2)%num (draw s);
         mouse := mouseDownAt x y (mouse s);
         thick := set_lastThickness (Some (ofZ 0)) (thick s);
         pts := if cache (inputs s) then {| _x := [x]; _y := [y] |}
                else {| _x := []; _y := [] |};
         scene := {| objects := objects (scene s)
                                ++ [Graphics []; Graphics []];
                     _strokeContainer := _strokeContainer (scene s);
                     _strokes := _strokes (scene s);
                     _curStrokeContainer := None;
                     _stroke := Some g;
                     _tip := Some (S g) |};
         emitted := emitted s;
         _handlersAssigned := _handlersAssigned s |}.
Proof.
  intros Hi Hc g.
  unfold beginStrokeAt, cachePoint, numChildren, children.
  destruct (Z.eqb_spec i (-1)) as [|_]; [contradiction|].
  cbv [bind modify get ret new]. fields.
  destruct (cache (inputs s)); fields; rewrite Hc; f_equal;
    same_state; rewrite ?length_snoc, <- ?app_assoc; reflexivity.
Qed.

Lemma announced_beginStrokeAt (s : @State num) (x y : num) index :
  wellFormed s -> announced s -> announced (after (beginStrokeAt x y index s)).
Proof.
  intros W A. destruct (Z.eq_dec index (-1)) as [ -> | Hi ].
  - rewrite beginStrokeAt_new. apply (@announced_begin s _ A). reflexivity.
  - destruct (arrayGet (_strokes (scene s)) index) as [c|] eqn:Hc.
    + destruct (W c (arrayGet_In _ _ Hc)) as (kids & Hk & _).
      rewrite (@beginStrokeAt_existing _ _ s x y index c kids Hi Hc Hk).
      apply (@announced_begin s _ A). reflexivity.
    + rewrite (beginStrokeAt_missing_state s x y Hi Hc). cbn [after].
      destruct A as [A B]. split; [exact A|].
      intros [_ C]. cbn in C. contradiction.
Qed.

Lemma announced_perform (s : @State num) c :
  wellFormed s -> announced s -> announced (perform s c).
Proof.
  intros W A.
  destruct c;
    try (refine (announced_sameStroke (sameStroke_perform s _ _) A);
         exact I).
  - apply announced_beginStrokeAt; assumption.
  - apply announced_endStrokeAt, A.
Qed.

(** X4: in the notifications of every sequence of calls of the public
    operations, each [endStroke] comes directly after a [beginStroke]: the
    directive never announces the end of a stroke twice, nor the end of a
    stroke whose begin it did not announce. *)
Theorem every_end_follows_a_begin (cs : list (@Call num)) :
  endsFollowBegins (emitted (session cs)) = true.
Proof.
  unfold session, performAll.
  assert (H0 : wellFormed (newDirective (num := num))
               /\ announced (newDirective (num := num))).
  { split.
    - apply wellFormed_clear. intros r [].
    - apply (announced_sameStroke (sameStroke_clear constructed)).
      split; [reflexivity|]. intros [T _]. contradiction. }
  revert H0. generalize (newDirective (num := num)).
  induction cs as [|c rest IH]; intros s [W A]; simpl.
  - exact (proj1 A).
  - apply IH. split.
    + apply wellFormed_perform, W.
    + apply announced_perform; assumption.
Qed.

End Notifications.

(** ** [beginStrokeAt] with an index, again *)

Section Restart.

Context {num : Type} {N : Number num}.

Lemma arrayGet_outside {A} (a : list A) (i : Z) :
  (i < 0 \/ Z.of_nat (length a) <= i)%Z -> arrayGet a i = None.
Proof.
  intros [H|H]; [apply arrayGet_negative, H|].
  unfold arrayGet. destruct (Z.ltb_spec i 0); [reflexivity|].
  apply nth_error_None. lia.
Qed.

Lemma arrayGet_last {A} (a : list A) (v : A) :
  arrayGet (a ++ [v]) (Z.of_nat (length a)) = Some v.
Proof.
  unfold arrayGet. destruct (Z.ltb_spec (Z.of_nat (length a)) 0); [lia|].
  rewrite Nat2Z.id. apply nth_error_at_length.
Qed.

(** X5: [beginStrokeAt] with an index that selects no stroke (below -1, or at or
    above [numStrokes]) throws a [TypeError].  No stroke is added and no
    notification is emitted, and the mouse-pressed flag is as before; but
    the coordinate log was reset to the new point, and the body and tip
    were replaced by new empty graphics that belong to no group. *)
Theorem beginStrokeAt_without_the_stroke (s : @State num) (x y : num)
    (i : Z) :
  (i < -1 \/ Z.of_nat (numStrokes s) <= i)%Z ->
  let g := length (objects (scene s)) in
  exists s',
    beginStrokeAt x y i s = Throw TypeError s'
    /\ _strokes (scene s') = _strokes (scene s)
    /\ _strokeContainer (scene s') = _strokeContainer (scene s)
    /\ emitted s' = emitted s
    /\ _mousePressed (mouse s') = _mousePressed (mouse s)
    /\ get_x s' = (if cache (inputs s) then [x] else [])
    /\ get_y s' = (if cache (inputs s) then [y] else [])
    /\ _curStrokeContainer (scene s') = None
    /\ _stroke (scene s') = Some g
    /\ _tip (scene s') = Some (S g)
    /\ objectAt s' g = Some (Graphics [])
    /\ objectAt s' (S g) = Some (Graphics []).
Proof.
  intros Hi g.
  assert (Hne : i <> (-1)%Z) by (unfold numStrokes in Hi; lia).
  assert (Hc : arrayGet (_strokes (scene s)) i = None).
  { apply arrayGet_outside. unfold numStrokes in Hi. lia. }
  eexists. split; [apply (beginStrokeAt_missing_state s x y Hne Hc)|].
  cbn [scene _strokes _strokeContainer emitted mouse mouseDownAt
       _mousePressed _curStrokeContainer _stroke _tip].
  do 4 (split; [reflexivity|]).
  unfold get_x, get_y. cbn [pts].
  split; [destruct (cache (inputs s)); reflexivity|].
  split; [destruct (cache (inputs s)); reflexivity|].
  do 3 (split; [reflexivity|]).
  unfold objectAt. cbn [scene objects]. fold g.
  split.
  - apply nth_error_at_length.
  - rewrite nth_error_app2 by (unfold g; lia).
    replace (S g - length (objects (scene s)))%nat with 1%nat
      by (unfold g; lia).
    reflexivity.
Qed.

Lemma restarted_in_stroke (s : @State num) (x y : num) c kids :
  nth_error (objects (scene s)) c = Some (Container kids) ->
  let g := length (objects (scene s)) in
  InStroke g (S g) c (kids ++ [g; S g]) (restarted x y c kids s).
Proof.
  intros Hk g.
  destruct (@restarted_live _ _ s x y c kids Hk) as (g' & t' & Hg & Ht & Gg & Gt).
  injection Hg as <-. injection Ht as <-.
  constructor; try reflexivity; try assumption.
  unfold restarted. cbn [scene objects].
  eapply nth_error_replace_same, nth_error_app_old, Hk.
Qed.

Lemma restarted_keeps_graphics (s : @State num) (x y : num) c kids r cmds :
  nth_error (objects (scene s)) c = Some (Container kids) ->
  nth_error (objects (scene s)) r = Some (Graphics cmds) ->
  objectAt (restarted x y c kids s) r = Some (Graphics cmds).
Proof.
  intros Hk Hr. unfold objectAt, restarted. cbn [scene objects].
  rewrite nth_error_replace.
  destruct (Nat.eqb_spec r c) as [->|_]; [congruence|].
  apply nth_error_app_old, Hr.
Qed.

(** X6: restarting the stroke that is being drawn removes nothing.  After
    [beginStrokeAt(x0, y0)] and any updates, [beginStrokeAt(x, y, i)] with
    the index [i] of that same stroke completes, and the group of the
    stroke keeps the old body and the old tip, with what was drawn into
    them, before the new body and tip: the test on [numChildren] that
    guards the removal never holds.  They are still in the group when the
    stroke has been ended. *)
Theorem restart_in_progress_removes_nothing (s : @State num)
    (x0 y0 x y xe ye : num) (samples : list (num * num)) :
  let g := length (objects (scene s)) in
  let tip := S g in
  let group := S (S g) in
  let s1 := performAll s
              (call_beginStrokeAt x0 y0 (-1)
               :: map (fun p => call_updateStroke (fst p) (snd p)) samples) in
  let i := Z.of_nat (numStrokes s) in
  exists s2 s3,
    beginStrokeAt x y i s1 = Ok tt s2
    /\ endStrokeAt xe ye s2 = Ok tt s3
    /\ numStrokes s2 = S (numStrokes s)
    /\ objectAt s1 group = Some (Container [g; tip])
    /\ objectAt s2 group = Some (Container [g; tip; S group; S (S group)])
    /\ objectAt s3 group = Some (Container [g; tip; S group])
    /\ objectAt s2 g = objectAt s1 g
    /\ objectAt s2 tip = objectAt s1 tip
    /\ _stroke (scene s2) = Some (S group)
    /\ _tip (scene s2) = Some (S (S group)).
Proof.
  intros g tip group s1 i.
  pose proof (begun_in_stroke s x0 y0) as J0. cbv zeta in J0.
  fold g in J0. fold tip in J0. fold group in J0.
  destruct (updates_in_stroke samples J0)
    as (_ & J1 & _ & _ & _ & S1 & _ & L1). cbv zeta in *.
  assert (E1 : s1 = performAll (begun x0 y0 s)
                      (map (fun p => call_updateStroke (fst p) (snd p))
                         samples)).
  { unfold s1.
    change (performAll s (?c :: ?l)) with (performAll (perform s c) l).
    cbn [perform]. rewrite beginStrokeAt_new. reflexivity. }
  rewrite <- E1 in J1, S1, L1.
  assert (Hc : arrayGet (_strokes (scene s1)) i = Some group).
  { rewrite S1. unfold begun. cbn [scene _strokes]. apply arrayGet_last. }
  assert (Hi : i <> (-1)%Z) by (unfold i; lia).
  pose proof (stroke_children J1) as Hk.
  assert (L1' : length (objects (scene s1)) = S group).
  { rewrite L1. unfold begun. cbn [scene objects].
    rewrite length_app. cbn [length]. unfold group, tip, g. lia. }
  pose proof (@beginStrokeAt_existing _ _ s1 x y i group [g; tip] Hi Hc Hk)
    as R2.
  pose proof (@restarted_in_stroke s1 x y group [g; tip] Hk) as J2.
  cbv zeta in J2.
  cbn [app] in J2. rewrite L1' in J2.
  pose proof (@endStrokeAt_run _ _ _ xe ye _ _ _ _ J2) as R3.
  destruct (@ended_objects _ _ _ xe ye _ _ _ _ J2) as [O3 _].
  eexists. eexists.
  split; [exact R2|]. split; [exact R3|].
  split.
  { unfold numStrokes, restarted. cbn [scene _strokes]. rewrite S1.
    unfold begun. cbn [scene _strokes]. apply length_snoc. }
  split; [exact Hk|].
  split; [exact (stroke_children J2)|].
  split.
  { rewrite O3. f_equal. f_equal. cbn [removeFirst].
    repeat match goal with
           | |- context [Nat.eqb ?a ?b] =>
               destruct (Nat.eqb_spec a b); [unfold group, tip in *; lia|]
           end.
    rewrite Nat.eqb_refl. reflexivity. }
  split.
  { destruct (stroke_body_drawn J1) as [d Hd]. unfold objectAt at 2.
    rewrite Hd. apply restarted_keeps_graphics; assumption. }
  split.
  { destruct (stroke_tip_drawn J1) as [d Hd]. unfold objectAt at 2.
    rewrite Hd. apply restarted_keeps_graphics; assumption. }
  split; [exact (stroke_body J2) | exact (stroke_tip J2)].
Qed.

End Restart.

(** ** Strokes that are ended twice, or not at all *)

Section Unended.

Context {num : Type} {N : Number num}.

(** X7: [endStrokeAt] is not a no-op on a stroke that has been ended.  After
    an [endStrokeAt] that completed, from any state, a further
    [endStrokeAt(x, y)] throws: the tip was released by the first.  It
    emits no notification, but with caching its point is appended to the
    log all the same. *)
Theorem endStrokeAt_twice_throws (s s1 : @State num) (x0 y0 x y : num) :
  endStrokeAt x0 y0 s = Ok tt s1 ->
  let s2 := after (endStrokeAt x y s1) in
  completes (endStrokeAt x y s1) = false
  /\ emitted s2 = emitted s1
  /\ get_x s2 = (if cache (inputs s1) then get_x s1 ++ [x] else get_x s1)
  /\ get_y s2 = (if cache (inputs s1) then get_y s1 ++ [y] else get_y s1).
Proof.
  intros R s2.
  pose proof (endStrokeAt_announces s x0 y0) as H. rewrite R in H.
  destruct H as (_ & _ & T).
  destruct (endStrokeAt_without_tip s1 x y T) as [C P].
  split; [exact C|].
  pose proof (endStrokeAt_announces s1 x y) as H2. fold s2 in P.
  destruct (endStrokeAt x y s1) as [[] u|e u] eqn:R2; [discriminate C|].
  split; [apply H2|].
  unfold get_x, get_y. rewrite P. unfold cacheFields.
  destruct (cache (inputs s1)); split; reflexivity.
Qed.

(** X8: a stroke that is not ended keeps its tip.  When a new stroke is begun
    while another is in progress (the mouse-up was missed), from any state,
    the group of the first stroke still holds its body and its tip, and the
    tip still holds the cap that the last update drew; both strokes are in
    the collection. *)
Theorem a_stroke_that_is_not_ended_keeps_its_tip (s : @State num)
    (x0 y0 x y : num) (samples : list (num * num)) :
  let g := length (objects (scene s)) in
  let s1 := performAll s
              (call_beginStrokeAt x0 y0 (-1)
               :: map (fun p => call_updateStroke (fst p) (snd p)) samples) in
  exists s2,
    beginStrokeAt x y (-1) s1 = Ok tt s2
    /\ numStrokes s2 = S (S (numStrokes s))
    /\ objectAt s2 (S (S g)) = Some (Container [g; S g])
    /\ objectAt s2 (S g) = objectAt s1 (S g)
    /\ _stroke (scene s2) = Some (S (S (S g)))
    /\ _tip (scene s2) = Some (S (S (S (S g)))).
Proof.
  intros g s1.
  pose proof (begun_in_stroke s x0 y0) as J0. cbv zeta in J0. fold g in J0.
  destruct (updates_in_stroke samples J0)
    as (_ & J1 & _ & _ & _ & S1 & _ & L1). cbv zeta in *.
  assert (E1 : s1 = performAll (begun x0 y0 s)
                      (map (fun p => call_updateStroke (fst p) (snd p)) samples)).
  { unfold s1.
    change (performAll s (?c :: ?l)) with (performAll (perform s c) l).
    cbn [perform]. rewrite beginStrokeAt_new. reflexivity. }
  rewrite <- E1 in J1, S1, L1.
  assert (L1' : length (objects (scene s1)) = S (S (S g))).
  { rewrite L1. unfold begun. cbn [scene objects].
    rewrite length_app. cbn [length]. unfold g. lia. }
  exists (begun x y s1). split; [apply beginStrokeAt_new|].
  split.
  { unfold numStrokes. unfold begun at 1. cbn [scene _strokes].
    rewrite S1. unfold begun. cbn [scene _strokes].
    rewrite !length_snoc. reflexivity. }
  unfold objectAt, begun. cbn [scene objects _stroke _tip]. rewrite L1'.
  split; [apply nth_error_app_old, (stroke_children J1)|].
  split.
  { destruct (stroke_tip_drawn J1) as [d Hd]. rewrite Hd.
    apply nth_error_app_old, Hd. }
  split; reflexivity.
Qed.

End Unended.

(** ** What [clear] empties *)

Section Clearing.

Context {num : Type} {N : Number num}.

Lemma clearStrokes_empties (strokes : list ref) :
  forall (h : list (@DisplayObject num)) s0,
  groupsOfGraphics h strokes ->
  exists h',
    forEach strokes clearStroke (withObjects h s0)
    = Ok tt (withObjects h' s0)
    /\ (forall r, In r strokes -> nth_error h' r = Some (Container []))
    /\ (forall r, isGraphics h r -> isGraphics h' r)
    /\ (forall r, nth_error h r = Some (Container [])
                  -> nth_error h' r = Some (Container [])).
Proof.
  induction strokes as [|c rest IH]; intros h s0 W.
  - exists h. split; [reflexivity|]. split; [intros r []|]. split; auto.
  - destruct (W c (or_introl eq_refl)) as (kids & Hc & Hk).
    destruct (@clearChildren_run _ kids h s0 c Hc Hk)
      as (h1 & Hrun & Hc1 & Hg1 & Ho1).
    destruct (IH h1 s0) as (h' & Hrest & He & Hg & Hk').
    { intros r Hr. destruct (Nat.eq_dec r c) as [ -> | Hne ].
      - exists []. split; [exact Hc1 | intros k []].
      - destruct (W r (or_intror Hr)) as (v & Hv & Hgv).
        exists v. split; [apply Ho1; assumption|].
        intros k Hin. apply Hg1, Hgv, Hin. }
    exists h'. split; [|split; [|split]].
    + cbn [forEach]. unfold clearStroke at 1.
      unfold bind at 1. erewrite bind_Ok by (apply run_children; exact Hc).
      rewrite Hrun. exact Hrest.
    + intros r [<-|Hr]; [apply Hk', Hc1 | apply He, Hr].
    + intros r Gr. apply Hg, Hg1, Gr.
    + intros r Hr. apply Hk'.
      destruct (Nat.eq_dec r c) as [ -> | Hne ]; [exact Hc1|].
      apply Ho1; assumption.
Qed.

Lemma clear_empties (s : @State num) :
  wellFormed s ->
  exists h',
    clear s = Ok tt (cleared h' s)
    /\ (forall r, In r (_strokes (scene s))
                  -> nth_error h' r = Some (Container [])).
Proof.
  intros W. unfold clear. cbv [bind modify get]. fields.
  set (s0 := withHandlersAssigned false
               (withMouse (fun _ => zeroMouse)
                  (withDraw (fun _ => zeroDraw) s))).
  destruct (@clearStrokes_empties (_strokes (scene s)) (objects (scene s)) s0 W)
    as (h' & Hrun & He & _).
  exists h'. split; [|exact He].
  replace s0 with (withObjects (objects (scene s)) s0)
    by (unfold s0; same_state).
  rewrite Hrun. fields.
  rewrite emptyStrokeContainer_run by reflexivity.
  f_equal; try (unfold cleared, s0; same_state).
Qed.

(** X9: in every state reached by calls of the public operations, [clear()]
    empties the display: the container of strokes has no child left and
    every drawable group of the collection has lost its children.  The
    coordinate log is not among the things it clears: [x()] and [y()]
    return after [clear()] what they returned before; and the flag of the
    mouse handlers is reset. *)
Theorem clear_empties_the_display_not_the_log (cs : list (@Call num)) :
  let s := session cs in
  exists s',
    clear s = Ok tt s'
    /\ _strokeContainer (scene s') = []
    /\ Forall (fun r => objectAt s' r = Some (Container []))
         (_strokes (scene s))
    /\ get_x s' = get_x s
    /\ get_y s' = get_y s
    /\ _handlersAssigned s' = false.
Proof.
  intros s.
  destruct (clear_empties (wellFormed_session cs)) as (h' & Hrun & He).
  exists (cleared h' s). split; [exact Hrun|].
  split; [reflexivity|]. split; [apply Forall_forall; exact He|].
  split; [reflexivity|]. split; reflexivity.
Qed.

Lemma clear_cleared (h : list (@DisplayObject num)) (s : @State num) :
  clear (cleared h s) = Ok tt (cleared h s).
Proof.
  unfold clear. cbv [bind modify get]. fields.
  cbn [cleared scene _strokes forEach ret].
  cbv [ret]. fields. cbn [cleared scene _strokeContainer length].
  cbn [emptyStrokeContainer]. cbv [bind get ret modify]. fields.
  cbn [cleared scene _strokeContainer].
  f_equal.
Qed.

(** X10: [clear()] twice is [clear()] once: on the state that a [clear()]
    leaves, a second [clear()] completes and changes nothing. *)
Theorem clear_is_idempotent (cs : list (@Call num)) :
  let s1 := after (clear (session cs)) in
  clear s1 = Ok tt s1.
Proof.
  intros s1.
  destruct (clear_run (wellFormed_session cs)) as (h' & Hrun).
  unfold s1. rewrite Hrun. cbn [after]. apply clear_cleared.
Qed.

End Clearing.

(** ** The container of strokes and the collection *)

Section Mirror.

Context {num : Type} {N : Number num}.

Lemma sameLists_refl (s : @State num) : sameLists s s.
Proof. split; reflexivity. Qed.

Lemma sameLists_updateStroke (s0 : @State num) (x y : num) :
  preserves (sameLists s0) (updateStroke x y).
Proof.
  unfold updateStroke, detectCusp, extendStroke, cachePoint, __drawTip.
  framed.
Qed.

Lemma sameLists_endStrokeAt (s0 : @State num) (x y : num) :
  preserves (sameLists s0) (endStrokeAt x y).
Proof. unfold endStrokeAt, cachePoint, __drawTip. framed. Qed.

Lemma sameLists_ngOnChanges (s0 : @State num) changes :
  preserves (sameLists s0) (ngOnChanges changes).
Proof.
  induction changes as [|ch rest IH]; simpl; [framed|].
  apply preserves_bind; [|intros _; exact IH].
  destruct ch; simpl; framed.
Qed.

Lemma mirrored_sameLists (s u : @State num) :
  sameLists s u -> mirrored s -> mirrored u.
Proof. intros [A B] [C D]. unfold mirrored. rewrite A, B. split; assumption. Qed.

Lemma strokes_below (s : @State num) r :
  wellFormed s -> In r (_strokes (scene s)) ->
  (r < length (objects (scene s)))%nat.
Proof.
  intros W H. destruct (W r H) as (kids & Hk & _).
  apply nth_error_Some. congruence.
Qed.

Lemma new_group_is_new (s : @State num) :
  wellFormed s ->
  ~ In (S (S (length (objects (scene s))))) (_strokes (scene s)).
Proof. intros W H. pose proof (@strokes_below s _ W H). lia. Qed.

Lemma mirrored_begun (s : @State num) (x y : num) :
  wellFormed s -> mirrored s -> mirrored (begun x y s).
Proof.
  intros W [A D]. unfold mirrored, begun. cbn [scene _strokes _strokeContainer].
  rewrite A. split; [reflexivity|].
  apply NoDup_app; [exact D | repeat constructor; intros [] |].
  intros r Hr [<-|[]]. exact (@new_group_is_new s W Hr).
Qed.

Lemma mirrored_beginStrokeAt (s : @State num) (x y : num) index :
  wellFormed s -> mirrored s -> mirrored (after (beginStrokeAt x y index s)).
Proof.
  intros W A. destruct (Z.eq_dec index (-1)) as [ -> | Hi ].
  - rewrite beginStrokeAt_new. apply mirrored_begun; assumption.
  - destruct (arrayGet (_strokes (scene s)) index) as [c|] eqn:Hc.
    + destruct (W c (arrayGet_In _ _ Hc)) as (kids & Hk & _).
      rewrite (@beginStrokeAt_existing _ _ s x y index c kids Hi Hc Hk).
      exact A.
    + rewrite (beginStrokeAt_missing_state s x y Hi Hc). exact A.
Qed.

Lemma mirrored_perform (s : @State num) c :
  wellFormed s -> mirrored s -> mirrored (perform s c).
Proof.
  intros W A. destruct c; simpl in *.
  - destruct (clear_run W) as (h' & R). rewrite R. cbn [after].
    split; [reflexivity | constructor].
  - apply mirrored_beginStrokeAt; assumption.
  - apply (mirrored_sameLists
             (@sameLists_updateStroke s x y s (sameLists_refl s)) A).
  - apply (mirrored_sameLists
             (@sameLists_endStrokeAt s x y s (sameLists_refl s)) A).
  - rewrite eraseStroke_state. exact A.
  - apply (mirrored_sameLists
             (@sameLists_ngOnChanges s changes s (sameLists_refl s)) A).
Qed.

Lemma mirrored_session (cs : list (@Call num)) :
  wellFormed (session cs) /\ mirrored (session cs).
Proof.
  unfold session, performAll.
  assert (H0 : wellFormed (newDirective (num := num))
               /\ mirrored (newDirective (num := num))).
  { assert (W0 : wellFormed (constructed (num := num))) by (intros r []).
    split; [apply wellFormed_clear, W0|].
    unfold newDirective. destruct (clear_run W0) as (h' & R). rewrite R.
    split; [reflexivity | constructor]. }
  revert H0. generalize (newDirective (num := num)).
  induction cs as [|c rest IH]; intros s [W A]; simpl in *.
  - split; assumption.
  - apply IH. split.
    + apply wellFormed_perform, W.
    + apply mirrored_perform; assumption.
Qed.

(** X11: in every state reached by calls of the public operations, the
    container of strokes holds exactly the drawable groups of the
    collection, in the same order and each once: what [numStrokes] counts
    is what is displayed. *)
Theorem container_mirrors_the_collection (cs : list (@Call num)) :
  _strokeContainer (scene (session cs)) = _strokes (scene (session cs))
  /\ NoDup (_strokes (scene (session cs))).
Proof. exact (proj2 (mirrored_session cs)). Qed.

End Mirror.

(** ** A stroke without an update *)

Section Clicks.

Context {num : Type} {N : Number num}.
Local Open Scope num_scope.

Lemma ended_body (s : @State num) (x y : num) g t c kids drawn :
  InStroke g t c kids s ->
  g <> t ->
  nth_error (objects (scene s)) g = Some (Graphics drawn) ->
  objectAt (ended x y g t c kids s) g
  = Some (Graphics (drawn ++ tipCap (cacheFields x y s) x y)).
Proof.
  intros [Hp Hg Ht Hc Gg Gt Hk] Hgt Hd.
  unfold objectAt. rewrite ended_scene. cbn [objects set_tip set_objects].
  rewrite !nth_error_replace.
  destruct (Nat.eqb_spec g c) as [->|_]; [congruence|].
  destruct (Nat.eqb_spec g t) as [E|_]; [contradiction|].
  unfold paintOn. rewrite Hd.
  eapply nth_error_replace_same, Hd.
Qed.

(** X13: a stroke that is ended before any update, as by a click without a move:
    from any state, [beginStrokeAt(x, y)] and [endStrokeAt(xe, ye)] complete
    and leave in the body of the new stroke one tip cap.  [beginStrokeAt]
    resets neither [_lineThickness] nor [_L1Cos1] and [_L1Sin1]: the radius
    of the disc and the widths of the quadrilateral are computed from the
    values that these fields had before the stroke began. *)
Theorem stroke_without_update_is_drawn_from_old_fields (s : @State num)
    (x y xe ye : num) :
  let g := length (objects (scene s)) in
  let s' := performAll s [ call_beginStrokeAt x y (-1);
                           call_endStrokeAt xe ye ] in
  let fill := fillColor (inputs s) in
  let taper := _tipTaperFactor (thick s) in
  let c1 := _L1Cos1 (draw s) in
  let s1 := _L1Sin1 (draw s) in
  allComplete s [ call_beginStrokeAt x y (-1); call_endStrokeAt xe ye ] = true
  /\ objectAt s' g
     = Some (Graphics
         [ beginFill fill (ofZ 1);
           drawCircle xe ye (taper * toNumber (_lineThickness (thick s)));
           endFill;
           beginFill fill (ofZ 1);
           moveTo (x + c1) (y + s1);
           lineTo (xe + taper * c1) (ye + taper * s1);
           lineTo (xe - taper * c1) (ye - taper * s1);
           lineTo (x - c1) (y - s1);
           lineTo (x + c1) (y + s1);
           endFill ]).
Proof.
  intros g s' fill taper c1 s1.
  pose proof (begun_in_stroke s x y) as J. cbv zeta in J. fold g in J.
  pose proof (@endStrokeAt_run _ _ _ xe ye _ _ _ _ J) as R.
  assert (Hd : nth_error (objects (scene (begun x y s))) g = Some (Graphics [])).
  { unfold begun. cbn [scene objects]. apply nth_error_at_length. }
  assert (Hgt : g <> S g) by lia.
  pose proof (@ended_body _ xe ye _ _ _ _ _ J Hgt Hd) as B.
  split.
  - cbn [allComplete callCompletes perform].
    rewrite beginStrokeAt_new. cbn [completes after andb]. rewrite R.
    reflexivity.
  - unfold s'. cbn [performAll fold_left perform].
    rewrite beginStrokeAt_new. cbn [after]. rewrite R. cbn [after].
    rewrite B. cbn [app]. unfold tipCap, cacheFields, begun.
    cbn [inputs]. destruct (cache (inputs s)); reflexivity.
Qed.

Lemma thickness_kept_by_calls (v : option num) (s : @State num) c :
  isUpdate c = false ->
  _lineThickness (thick s) = v ->
  _lineThickness (thick (perform s c)) = v.
Proof.
  intros Hc. destruct c; try discriminate Hc; cbn [perform];
    match goal with
    | |- _ -> _lineThickness (thick (after (?m s))) = v =>
        revert s;
        change (preserves (fun u => _lineThickness (thick u) = v) m)
    end.
  - intros s Hs. destruct (clear_keeps s) as (_ & T & _).
    rewrite T. exact Hs.
  - unfold beginStrokeAt, cachePoint. framed.
  - unfold endStrokeAt, cachePoint, __drawTip. framed.
  - unfold eraseStroke. framed.
  - clear Hc. induction changes as [|ch rest IH]; simpl; [framed|].
    apply preserves_bind; [|intros _; exact IH].
    destruct ch; simpl; framed.
Qed.

Lemma thickness_unassigned (cs : list (@Call num)) :
  existsb isUpdate cs = false ->
  _lineThickness (thick (session cs)) = None.
Proof.
  unfold session, performAll.
  assert (H0 : _lineThickness (thick (newDirective (num := num))) = None).
  { apply (@thickness_kept_by_calls None constructed call_clear);
      reflexivity. }
  revert H0. generalize (newDirective (num := num)).
  induction cs as [|c rest IH]; intros s Hs H; simpl in *.
  - exact Hs.
  - apply orb_false_elim in H. destruct H as [Hc Hrest].
    apply IH; [|exact Hrest]. apply thickness_kept_by_calls; assumption.
Qed.

End Clicks.

Section ClicksOnDoubles.

Import JS.
Local Open Scope float_scope.
Context {E : MathImpl}.

Lemma times_NaN (a : float) : PrimFloat.is_nan (a * nan) = true.
Proof.
  unfold PrimFloat.is_nan. rewrite eqb_spec, mul_spec.
  change (Prim2SF nan) with S754_nan.
  destruct (Prim2SF a) as [[]|[]| |[] ? ?]; reflexivity.
Qed.

(** X14: until the first [updateStroke] of a stroke in progress,
    [_lineThickness] is undefined.  On doubles, a stroke that is begun and
    ended after calls among which there was no [updateStroke] therefore
    gets a tip disc whose radius is NaN. *)
Theorem first_click_draws_a_disc_of_radius_NaN (cs : list (@Call float))
    (x y xe ye : float) :
  existsb isUpdate cs = false ->
  let s := session cs in
  let g := length (objects (scene s)) in
  let s' := performAll s [ call_beginStrokeAt x y (-1);
                           call_endStrokeAt xe ye ] in
  exists fill radius rest,
    objectAt s' g
    = Some (Graphics (beginFill fill 1 :: drawCircle xe ye radius :: rest))
    /\ PrimFloat.is_nan radius = true.
Proof.
  intros H s g s'.
  pose proof (thickness_unassigned cs H) as T. fold s in T.
  pose proof (begun_in_stroke s x y) as J. cbv zeta in J. fold g in J.
  pose proof (@endStrokeAt_run _ _ _ xe ye _ _ _ _ J) as R.
  assert (Hd : nth_error (objects (scene (begun x y s))) g = Some (Graphics [])).
  { unfold begun. cbn [scene objects]. apply nth_error_at_length. }
  assert (Hgt : g <> S g) by lia.
  pose proof (@ended_body _ _ _ xe ye _ _ _ _ _ J Hgt Hd) as B.
  eexists. eexists. eexists. split.
  - unfold s'. cbn [performAll fold_left perform].
    rewrite beginStrokeAt_new. cbn [after]. rewrite R. cbn [after].
    rewrite B. cbn [app]. unfold tipCap. reflexivity.
  - unfold cacheFields, begun. cbn [inputs].
    destruct (cache (inputs s)); cbn [thick withPts set_lastThickness _lineThickness _tipTaperFactor];
      rewrite T; apply times_NaN.
Qed.

End ClicksOnDoubles.

(** ** The input properties *)

Section InputsKept.

Context {num : Type} {N : Number num}.

(** Only [ngOnChanges] assigns the input properties. *)
Lemma inputs_kept_by_calls (s : @State num) c :
  match c with call_ngOnChanges _ => False | _ => True end ->
  inputs (perform s c) = inputs s.
Proof.
  intros Hc. destruct c; try contradiction; cbn [perform].
  - apply (proj1 (clear_keeps s)).
  - apply (preserved_component (@inputs num)). intro b.
    unfold beginStrokeAt, cachePoint. framed.
  - apply (preserved_component (@inputs num)). intro b.
    unfold updateStroke, detectCusp, extendStroke, cachePoint, __drawTip.
    framed.
  - apply (preserved_component (@inputs num)). intro b.
    unfold endStrokeAt, cachePoint, __drawTip. framed.
  - apply (preserved_component (@inputs num)). intro b.
    unfold eraseStroke. framed.
Qed.

Lemma inputs_newDirective :
  inputs (newDirective (num := num)) = inputs constructed
  /\ thick (newDirective (num := num)) = thick constructed.
Proof. split; vm_compute; reflexivity. Qed.

End InputsKept.

Section InputsOnDoubles.

Import JS.
Local Open Scope float_scope.
Context {E : MathImpl}.

Lemma validInputs_applyChange (ch : @Change float) :
  preserves (fun u => validInputs (inputs u)) (applyChange ch).
Proof.
  destruct ch as [v|v|v|v]; cbn [applyChange].
  - intros s H. exact H.
  - intros s H. cbv [bind modify]. destruct v; exact H.
  - intros s H.
    change (isNaN v) with (PrimFloat.is_nan v).
    change (nlt (ofZ 0) v) with (0 <? v).
    change (nlt v (ratio 75 100)) with (v <? 0.75).
    destruct (PrimFloat.is_nan v); [exact H|].
    destruct (0 <? v) eqn:H0; [|exact H].
    destruct (v <? 0.75) eqn:H1; [|exact H].
    destruct H as (_ & _ & F). cbn. repeat split; assumption.
  - intros s H.
    change (isNaN v) with (PrimFloat.is_nan v).
    destruct (PrimFloat.is_nan v) eqn:Hn; [exact H|].
    destruct H as (A & B & _). cbn. repeat split; assumption.
Qed.

Lemma validInputs_ngOnChanges (changes : list (@Change float)) :
  preserves (fun u => validInputs (inputs u)) (ngOnChanges changes).
Proof.
  induction changes as [|ch rest IH]; simpl.
  - intros s H. exact H.
  - apply preserves_bind; [apply validInputs_applyChange | intros _; exact IH].
Qed.

(** X15: the input properties stay valid.  On doubles, in every state reached by
    calls of the public operations, [ngOnChanges] among them with any
    values, the smoothing factor is above 0 and below 0.75 and the fill
    colour is not NaN: a value outside leaves the property as it was. *)
Theorem inputs_stay_valid (cs : list (@Call float)) :
  let i := inputs (session cs) in
  (0 <? smoothing i) = true
  /\ (smoothing i <? 0.75) = true
  /\ PrimFloat.is_nan (fillColor i) = false.
Proof.
  cbv zeta. change (validInputs (inputs (session cs))).
  unfold session, performAll.
  assert (H0 : validInputs (inputs (newDirective (num := float)))).
  { rewrite (proj1 inputs_newDirective). repeat split. }
  revert H0. generalize (newDirective (num := float)).
  induction cs as [|c rest IH]; intros s Hs; simpl.
  - exact Hs.
  - apply IH. destruct c;
      try (rewrite inputs_kept_by_calls by exact I; exact Hs).
    apply validInputs_ngOnChanges, Hs.
Qed.

End InputsOnDoubles.

(** ** The directive in its page *)

Section PageAndDirective.

Context {num : Type} {N : Number num}.

(** The directive without its page is what the page leaves of the directive:
    a call of a public operation in the page does to the directive what the
    call does without the page. *)
Lemma directive_applyChange (ch : @Change num) (h : @Page.Hosted num) :
  Page.directive (after (Page.applyChange ch h))
  = after (applyChange ch (Page.directive h)).
Proof.
  destruct ch as [v|v|v|v]; cbn [Page.applyChange applyChange].
  - reflexivity.
  - destruct h as [d r c [md|] [mu|] [mm|] a]; destruct v; reflexivity.
  - destruct (_ && _); reflexivity.
  - destruct (negb _); reflexivity.
Qed.

Lemma completes_applyChange (ch : @Change num) (h : @Page.Hosted num) :
  completes (Page.applyChange ch h) = true
  /\ completes (applyChange ch (Page.directive h)) = true.
Proof.
  destruct ch as [v|v|v|v]; cbn [Page.applyChange applyChange].
  - split; reflexivity.
  - destruct h as [d r c [md|] [mu|] [mm|] a]; destruct v; split;
      reflexivity.
  - destruct (_ && _); split; reflexivity.
  - destruct (negb _); split; reflexivity.
Qed.

Lemma directive_ngOnChanges (changes : list (@Change num)) :
  forall h : @Page.Hosted num,
  Page.directive (after (Page.ngOnChanges changes h))
  = after (ngOnChanges changes (Page.directive h)).
Proof.
  induction changes as [|ch rest IH]; intros h; [reflexivity|].
  cbn [Page.ngOnChanges ngOnChanges]. unfold bind.
  pose proof (directive_applyChange ch h) as D.
  destruct (completes_applyChange ch h) as [C1 C2].
  destruct (Page.applyChange ch h) as [[] h1|e h1]; [|discriminate C1].
  destruct (applyChange ch (Page.directive h)) as [[] s1|e s1]; [|discriminate C2].
  cbn [after] in D. rewrite <- D. apply IH.
Qed.

Lemma directive_step_call (h : @Page.Hosted num) (c : @Call num) :
  Page.directive (Page.step h (Page.step_call c))
  = perform (Page.directive h) c.
Proof.
  destruct c; try reflexivity. cbn [Page.step perform].
  apply directive_ngOnChanges.
Qed.

End PageAndDirective.

Section PageProofs.

Context {num : Type} {N : Number num}.
Local Open Scope num_scope.

Import Page.

Lemma sameType_eq a b : sameType a b = true <-> a = b.
Proof. destruct a, b; simpl; split; intros H; congruence. Qed.

Lemma sameHandler_eq f g : sameHandler f g = true <-> f = g.
Proof.
  destruct f, g; simpl; split; intros H; try congruence;
    try (apply Nat.eqb_eq in H; congruence);
    try (injection H as ->; apply Nat.eqb_refl).
Qed.

Lemma addEventListener_again ty f ls :
  In (ty, f) ls -> addEventListener ty f ls = ls.
Proof.
  intros H. unfold addEventListener.
  replace (existsb _ ls) with true; [reflexivity|].
  symmetry. apply existsb_exists. exists (ty, f). split; [exact H|].
  cbn [fst snd]. apply andb_true_intro.
  split; [apply sameType_eq | apply sameHandler_eq]; reflexivity.
Qed.

Lemma addEventListener_new ty f ls :
  ~ In (ty, f) ls -> addEventListener ty f ls = ls ++ [(ty, f)].
Proof.
  intros H. unfold addEventListener.
  destruct (existsb _ ls) eqn:E; [|reflexivity].
  exfalso. apply H. apply existsb_exists in E.
  destruct E as ([ty' f'] & Hin & Heq). cbn [fst snd] in Heq.
  apply andb_prop in Heq. destruct Heq as [A B].
  apply sameType_eq in A. apply sameHandler_eq in B. subst. exact Hin.
Qed.

Lemma listenersOf_S n : listenersOf (S n) = listenersOf n ++ handlersOf n.
Proof.
  unfold listenersOf. rewrite seq_S, flat_map_app. cbn [flat_map plus].
  rewrite app_nil_r. reflexivity.
Qed.

Lemma length_listenersOf n : length (listenersOf n) = (3 * n)%nat.
Proof.
  induction n as [|n IH]; [reflexivity|].
  rewrite listenersOf_S, length_app, IH. cbn [handlersOf length]. lia.
Qed.

Lemma listenersOf_below n l :
  In l (listenersOf n) -> (assignmentOf (snd l) < n)%nat.
Proof.
  unfold listenersOf. intros H. apply in_flat_map in H.
  destruct H as (k & Hk & Hl). apply in_seq in Hk.
  destruct Hl as [<-|[<-|[<-|[]]]]; cbn; lia.
Qed.

Lemma In_handlersOf k l : In l (handlersOf k) -> In l (listenersOf (S k)).
Proof. intros H. rewrite listenersOf_S. apply in_or_app. right. exact H. Qed.

(** Three listeners more for every call of [__assignMouseHandlers]. *)
Lemma listen_new n :
  addEventListener mousemove (mouseMoveHandler n)
    (addEventListener mouseup (mouseUpHandler n)
       (addEventListener mousedown (mouseDownHandler n) (listenersOf n)))
  = listenersOf (S n).
Proof.
  rewrite (@addEventListener_new mousedown).
  2:{ intros H. apply listenersOf_below in H. cbn in H. lia. }
  rewrite (@addEventListener_new mouseup).
  2:{ intros H. apply in_app_or in H. destruct H as [H|[H|[]]].
      - apply listenersOf_below in H. cbn in H. lia.
      - discriminate H. }
  rewrite (@addEventListener_new mousemove).
  2:{ intros H. apply in_app_or in H. destruct H as [H|[H|[]]].
      - apply in_app_or in H. destruct H as [H|[H|[]]].
        + apply listenersOf_below in H. cbn in H. lia.
        + discriminate H.
      - discriminate H. }
  rewrite listenersOf_S, <- !app_assoc. reflexivity.
Qed.

Lemma Hosted_ext (a b : @Hosted num) :
  directive a = directive b -> _rect a = _rect b ->
  _container a = _container b -> _mouseDown a = _mouseDown b ->
  _mouseUp a = _mouseUp b -> _mouseMove a = _mouseMove b ->
  assignments a = assignments b -> a = b.
Proof. destruct a, b; simpl; intros; subst; reflexivity. Qed.

Lemma assign_run (h : @Hosted num) :
  registered h ->
  __assignMouseHandlers h
  = Ok tt {| directive := withHandlersAssigned true (directive h);
             _rect := _rect h;
             _container := listenersOf (S (assignments h));
             _mouseDown := Some (mouseDownHandler (assignments h));
             _mouseUp := Some (mouseUpHandler (assignments h));
             _mouseMove := Some (mouseMoveHandler (assignments h));
             assignments := S (assignments h) |}.
Proof.
  intros [C _]. unfold __assignMouseHandlers, listen, onDirective.
  cbv [bind modify get newHandlers withListeners withDirective].
  cbn [_mouseDown _mouseUp _mouseMove _container directive _rect assignments].
  f_equal. apply Hosted_ext; cbn; try reflexivity.
  rewrite C. apply listen_new.
Qed.

Lemma remove_run (h : @Hosted num) :
  registered h ->
  __removeMouseHandlers h
  = Ok tt (withDirective (withHandlersAssigned false) h).
Proof.
  intros [C F]. destruct h as [d r c md mu mm a].
  cbn [_container assignments _mouseDown _mouseUp _mouseMove] in C, F.
  unfold __removeMouseHandlers, listen, onDirective.
  cbv [bind get]. cbn [_mouseDown _mouseUp _mouseMove].
  destruct a as [|k]; destruct F as (-> & -> & ->); subst c.
  - reflexivity.
  - cbv [modify withListeners withDirective].
    cbn [_container directive _rect _mouseDown _mouseUp _mouseMove
         assignments].
    rewrite (@addEventListener_again mousedown (mouseDownHandler k))
      by (apply In_handlersOf; simpl; auto).
    rewrite (@addEventListener_again mouseup (mouseUpHandler k))
      by (apply In_handlersOf; simpl; auto).
    rewrite (@addEventListener_again mousemove (mouseMoveHandler k))
      by (apply In_handlersOf; simpl; auto).
    reflexivity.
Qed.

Lemma registered_assign (h : @Hosted num) :
  registered h -> registered (after (__assignMouseHandlers h)).
Proof.
  intros R. rewrite (assign_run R). cbn [after]. split; cbn; auto.
Qed.

Lemma registered_withDirective (f : @State num -> @State num) h :
  registered h -> registered (withDirective f h).
Proof. intros R. exact R. Qed.

Lemma registered_remove (h : @Hosted num) :
  registered h -> registered (after (__removeMouseHandlers h)).
Proof. intros R. rewrite (remove_run R). exact R. Qed.

Lemma registered_onDirective {A} (m : @Action num A) :
  preserves registered (onDirective m).
Proof.
  intros h R. unfold onDirective.
  destruct (m (directive h)); exact R.
Qed.

Lemma registered_applyChange (ch : @Change num) :
  preserves registered (applyChange ch).
Proof.
  destruct ch as [v|v|v|v]; cbn [applyChange].
  - apply registered_onDirective.
  - apply preserves_bind; [apply registered_onDirective|intros _].
    destruct v; intros h R;
      [apply registered_assign | apply registered_remove]; exact R.
  - destruct (_ && _); [apply registered_onDirective | apply preserves_ret].
  - destruct (negb _); [apply registered_onDirective | apply preserves_ret].
Qed.

Lemma registered_ngOnChanges (changes : list (@Change num)) :
  preserves registered (Page.ngOnChanges changes).
Proof.
  induction changes as [|ch rest IH]; simpl.
  - apply preserves_ret.
  - apply preserves_bind; [apply registered_applyChange | intros _; exact IH].
Qed.

Lemma registered_handle f (evt : @MouseEvent num) :
  preserves registered (handle f evt).
Proof.
  unfold handle. apply preserves_bind; [apply preserves_get|intros h].
  destruct f; apply registered_onDirective.
Qed.

Lemma registered_dispatchEvent (evt : @MouseEvent num) h :
  registered h -> registered (dispatchEvent evt h).
Proof.
  unfold dispatchEvent. generalize (_container h). intros l. revert h.
  induction l as [|a l IH]; intros h R; simpl; [exact R|].
  apply IH. destruct (sameType _ _); [apply registered_handle|]; exact R.
Qed.

Lemma registered_step (h : @Hosted num) c :
  registered h -> registered (step h c).
Proof.
  intros R. destruct c as [| changes | | evt | c]; cbn [step].
  - unfold Page.ngAfterViewInit. cbv [bind get].
    destruct (_ && _); [apply registered_assign | ]; exact R.
  - apply registered_ngOnChanges, R.
  - unfold Page.ngOnDestroy. cbv [bind get].
    destruct (interactive _); [apply registered_remove | ]; exact R.
  - apply registered_dispatchEvent, R.
  - destruct c; try exact R. apply registered_ngOnChanges, R.
Qed.

Lemma registered_run rect (cs : list (@Step num)) : registered (run rect cs).
Proof.
  unfold run.
  assert (H0 : registered (constructedIn rect)) by (split; cbn; auto).
  revert H0. generalize (constructedIn rect).
  induction cs as [|c rest IH]; intros h R; simpl; [exact R|].
  apply IH, registered_step, R.
Qed.

(** X16: the mouse handlers are never removed.  In every state of a directive in
    its page, [__removeMouseHandlers] leaves the listeners of the host
    element and the handler fields as they are and only resets the flag;
    so do [ngOnDestroy] and a change of [interactive] to false, which call
    it. *)
Theorem mouse_handlers_are_never_removed (rect : @ClientRect num)
    (cs : list (@Step num)) :
  let h := run rect cs in
  let detached := withDirective (withHandlersAssigned false) h in
  Page.__removeMouseHandlers h = Ok tt detached
  /\ _container detached = _container h
  /\ Page.ngOnDestroy h
     = Ok tt (if interactive (inputs (directive h)) then detached else h)
  /\ _container (after (Page.ngOnChanges [change_interactive false] h))
     = _container h.
Proof.
  intros h detached.
  pose proof (registered_run rect cs) as R. fold h in R.
  split; [apply remove_run, R|].
  split; [reflexivity|].
  split.
  { unfold Page.ngOnDestroy. cbv [bind get].
    destruct (interactive (inputs (directive h)));
      [apply remove_run, R | reflexivity]. }
  assert (E : Page.ngOnChanges [change_interactive false] h
              = Ok tt (withDirective (withHandlersAssigned false)
                         (withDirective (withInputs (set_interactive false)) h))).
  { cbn [Page.ngOnChanges applyChange]. unfold onDirective at 1.
    cbv [bind modify ret]. cbn [directive].
    rewrite remove_run by exact R. reflexivity. }
  rewrite E. reflexivity.
Qed.

Lemma after_onDirective {A} (m : @Action num A) (h : @Hosted num) :
  after (onDirective m h)
  = withDirective (fun _ => after (m (directive h))) h.
Proof. unfold onDirective. destruct (m (directive h)); reflexivity. Qed.

(** The listeners of one assignment at a mouse-down event: the first begins
    a stroke, the other two are not called. *)
Lemma mousedown_on_handlers (cx cy : num) : forall n a (h : @Hosted num),
  let down := {| eventType := mousedown; clientX := cx; clientY := cy |} in
  let h' := fold_left
              (fun h' (l : Listener) =>
                 if sameType (fst l) (eventType down)
                 then after (handle (snd l) down h') else h')
              (flat_map handlersOf (seq a n)) h in
  numStrokes (directive h') = (numStrokes (directive h) + n)%nat.
Proof.
  induction n as [|n IH]; intros a h; cbv zeta.
  - cbn. lia.
  - cbn [seq flat_map]. rewrite fold_left_app.
    cbn [handlersOf fold_left fst snd eventType sameType].
    cbv zeta in IH. rewrite IH.
    unfold handle. cbv [bind get]. rewrite after_onDirective.
    cbn [directive withDirective]. rewrite beginStrokeAt_new. cbn [after].
    unfold numStrokes, begun. cbn [scene _strokes]. rewrite length_snoc. lia.
Qed.

(** X17: every call of [__assignMouseHandlers] registers three more listeners,
    whether handlers are registered already or not, and none is ever
    removed: in every state of a directive in its page a mouse-down event
    begins as many strokes as there were such calls.  In particular, after
    [interactive] has been set to true once more, a mouse-down begins one
    stroke more than before. *)
Theorem every_assignment_adds_a_stroke_per_mouse_down
    (rect : @ClientRect num) (cs : list (@Step num)) (cx cy : num) :
  let h := run rect cs in
  let down := {| eventType := mousedown; clientX := cx; clientY := cy |} in
  let again := after (Page.ngOnChanges [change_interactive true] h) in
  length (_container h) = (3 * assignments h)%nat
  /\ numStrokes (directive (dispatchEvent down h))
     = (numStrokes (directive h) + assignments h)%nat
  /\ assignments again = S (assignments h)
  /\ numStrokes (directive (dispatchEvent down again))
     = (numStrokes (directive h) + S (assignments h))%nat.
Proof.
  intros h down again.
  pose proof (registered_run rect cs) as R. fold h in R.
  assert (D : forall k : @Hosted num, registered k ->
            numStrokes (directive (dispatchEvent down k))
            = (numStrokes (directive k) + assignments k)%nat).
  { intros k [C _]. unfold dispatchEvent. rewrite C.
    apply (mousedown_on_handlers cx cy (assignments k) 0 k). }
  split; [rewrite (proj1 R); apply length_listenersOf|].
  split; [apply D, R|].
  assert (E : again
              = {| directive := withHandlersAssigned true
                                  (withInputs (set_interactive true)
                                     (directive h));
                   _rect := _rect h;
                   _container := listenersOf (S (assignments h));
                   _mouseDown := Some (mouseDownHandler (assignments h));
                   _mouseUp := Some (mouseUpHandler (assignments h));
                   _mouseMove := Some (mouseMoveHandler (assignments h));
                   assignments := S (assignments h) |}).
  { unfold again. cbn [Page.ngOnChanges applyChange].
    unfold onDirective at 1. cbv [bind modify ret]. cbn [directive].
    rewrite assign_run by exact R. reflexivity. }
  split; [rewrite E; reflexivity|].
  rewrite D.
  - rewrite E. reflexivity.
  - unfold again.
    apply (@registered_ngOnChanges [change_interactive true] h R).
Qed.

(** With one set of handlers, a mouse event is the call of the matching
    operation at the position relative to the rectangle. *)
Lemma dispatch_on_one_set (evt : @MouseEvent num) (h : @Hosted num) :
  _container h = handlersOf 0 ->
  dispatchEvent evt h
  = withDirective (fun s => perform s (callOf (_rect h) evt)) h.
Proof.
  intros C. unfold dispatchEvent. rewrite C.
  cbn [handlersOf fold_left fst snd]. unfold callOf, handle.
  destruct (eventType evt); cbn [sameType]; cbv [bind get];
    rewrite after_onDirective; reflexivity.
Qed.

Lemma events_on_one_set (evts : list (@MouseEvent num)) :
  forall h : @Hosted num,
  _container h = handlersOf 0 ->
  directive (fold_left step (map step_event evts) h)
  = performAll (directive h) (map (callOf (_rect h)) evts).
Proof.
  induction evts as [|evt rest IH]; intros h C; [reflexivity|].
  cbn [map fold_left step].
  rewrite (@dispatch_on_one_set evt h C).
  rewrite IH by exact C. reflexivity.
Qed.

Lemma newDirective_is_cleared :
  exists h', newDirective (num := num) = cleared h' constructed.
Proof.
  assert (W0 : wellFormed (constructed (num := num))) by (intros r []).
  destruct (clear_run W0) as (h' & R). exists h'.
  unfold newDirective. rewrite R. reflexivity.
Qed.

Lemma gesture_calls (rect : @ClientRect num) down moves up :
  map (callOf rect) (gesture down moves up)
  = strokeCalls (fst down - rect_left rect) (snd down - rect_top rect)
      (map (fun p => (fst p - rect_left rect, snd p - rect_top rect)) moves)
      (fst up - rect_left rect) (snd up - rect_top rect).
Proof.
  unfold gesture, strokeCalls. cbn [map]. rewrite map_app, !map_map.
  reflexivity.
Qed.

Lemma newDirective_facts :
  interactive (inputs (newDirective (num := num))) = true
  /\ cache (inputs (newDirective (num := num))) = true
  /\ _handlersAssigned (newDirective (num := num)) = false
  /\ _strokes (scene (newDirective (num := num))) = []
  /\ emitted (newDirective (num := num)) = [].
Proof.
  destruct newDirective_is_cleared as (h' & Hnew).
  split; [rewrite (proj1 inputs_newDirective); reflexivity|].
  split; [rewrite (proj1 inputs_newDirective); reflexivity|].
  rewrite Hnew. repeat split.
Qed.

(** [ngAfterViewInit] on the directive that was just created registers the
    first set of handlers. *)
Lemma afterViewInit_run (rect : @ClientRect num) :
  step (constructedIn rect) step_ngAfterViewInit
  = {| directive := withHandlersAssigned true newDirective;
       _rect := rect;
       _container := handlersOf 0;
       _mouseDown := Some (mouseDownHandler 0);
       _mouseUp := Some (mouseUpHandler 0);
       _mouseMove := Some (mouseMoveHandler 0);
       assignments := 1 |}.
Proof.
  destruct newDirective_facts as (Hi & _ & Hf & _).
  cbn [step]. unfold Page.ngAfterViewInit. cbv [bind get].
  cbn [constructedIn directive]. rewrite Hi, Hf. cbn [andb negb].
  rewrite assign_run by (split; cbn; auto). reflexivity.
Qed.

Lemma run_cons (rect : @ClientRect num) c (cs : list (@Step num)) :
  run rect (c :: cs) = fold_left step cs (step (constructedIn rect) c).
Proof. reflexivity. Qed.

Lemma events_after_viewInit (rect : @ClientRect num)
    (evts : list (@MouseEvent num)) :
  directive (run rect (step_ngAfterViewInit :: map step_event evts))
  = performAll (withHandlersAssigned true newDirective)
      (map (callOf rect) evts).
Proof.
  rewrite run_cons, afterViewInit_run.
  apply events_on_one_set. reflexivity.
Qed.

(** X18: a stroke drawn with the mouse.  On a directive that was just created,
    after [ngAfterViewInit], the events of a gesture (mouse down, moves,
    mouse up) add one stroke and emit one begin and one end notification,
    and the log holds the positions of the events relative to the corner of
    the rectangle that the constructor took, in the order of the events. *)
Theorem a_mouse_gesture_is_one_stroke (rect : @ClientRect num)
    (down : num * num) (moves : list (num * num)) (up : num * num) :
  let h := run rect (step_ngAfterViewInit
                     :: map step_event (gesture down moves up)) in
  let d := directive h in
  numStrokes d = 1%nat
  /\ emitted d = [beginStroke; endStroke]
  /\ get_x d = map (fun p => fst p - rect_left rect) (down :: moves ++ [up])
  /\ get_y d = map (fun p => snd p - rect_top rect) (down :: moves ++ [up])
  /\ _mousePressed (mouse d) = false.
Proof.
  intros h d.
  assert (Hd : d = performAll (withHandlersAssigned true newDirective)
                     (map (callOf rect) (gesture down moves up)))
    by apply events_after_viewInit.
  clearbody d. clear h.
  rewrite gesture_calls in Hd.
  destruct newDirective_facts as (_ & C0 & _ & N0 & M0).
  set (s0 := withHandlersAssigned true (newDirective (num := num))) in *.
  change (cache (inputs s0) = true) in C0.
  change (_strokes (scene s0) = []) in N0.
  change (emitted s0 = []) in M0.
  clearbody s0.
  destruct (stroke_calls_run s0 (fst down - rect_left rect)
              (snd down - rect_top rect) (fst up - rect_left rect)
              (snd up - rect_top rect)
              (map (fun p => (fst p - rect_left rect,
                              snd p - rect_top rect)) moves))
    as (s1 & J1 & _ & Hs' & I1 & P1 & E1 & S1 & _).
  cbv zeta in Hs'. rewrite <- Hd in Hs'. clear Hd.
  rewrite C0 in P1.
  split.
  { unfold numStrokes. rewrite Hs', ended_scene.
    cbn [_strokes set_tip set_objects]. rewrite S1, N0. reflexivity. }
  split.
  { rewrite Hs', ended_emitted, E1, M0. reflexivity. }
  assert (HP : pts d
               = {| _x := map (fun p => fst p - rect_left rect)
                            (down :: moves ++ [up]);
                    _y := map (fun p => snd p - rect_top rect)
                            (down :: moves ++ [up]) |}).
  { rewrite Hs', ended_pts. unfold cacheFields. rewrite I1, C0.
    cbn [pts withPts]. rewrite P1. cbn [_x _y map].
    rewrite !map_app, !map_map. cbn [map fst snd]. reflexivity. }
  unfold get_x, get_y. rewrite HP.
  split; [reflexivity|]. split; [reflexivity|].
  rewrite Hs'. apply ended_pressed.
Qed.

End PageProofs.

Section Hovering.

Context {num : Type} {N : Number num}.
Local Open Scope num_scope.

Import Page.

Lemma listenersOf_matched n ty f :
  In (ty, f) (listenersOf n) ->
  match ty with
  | mousedown => exists k, f = mouseDownHandler k
  | mouseup => exists k, f = mouseUpHandler k
  | mousemove => exists k, f = mouseMoveHandler k
  end.
Proof.
  unfold listenersOf. intros H. apply in_flat_map in H.
  destruct H as (k & _ & Hl).
  destruct Hl as [E|[E|[E|[]]]]; injection E as <- <-; exists k; reflexivity.
Qed.

(** X19: moving the mouse without pressing it draws nothing.  In every state
    of a directive in its page in which the mouse is not pressed, however
    many handlers are registered, a mouse-move event leaves the directive
    and its page exactly as they are. *)
Theorem moving_the_mouse_without_pressing_changes_nothing
    (rect : @ClientRect num) (cs : list (@Step num)) (cx cy : num) :
  let h := run rect cs in
  _mousePressed (mouse (directive h)) = false ->
  dispatchEvent {| eventType := mousemove; clientX := cx; clientY := cy |} h
  = h.
Proof.
  intros h Hp. unfold dispatchEvent.
  pose proof (proj1 (registered_run rect cs)) as C. fold h in C.
  assert (M : forall ty f, In (ty, f) (_container h) ->
                match ty with
                | mousemove => exists k, f = mouseMoveHandler k
                | _ => True
                end).
  { intros ty f Hin. rewrite C in Hin.
    apply listenersOf_matched in Hin. destruct ty; auto. }
  revert M. generalize (_container h). intros l.
  induction l as [|[ty f] l IH]; intros M; [reflexivity|].
  cbn [fold_left fst snd eventType].
  assert (IH' := IH (fun ty' f' Hin => M ty' f' (or_intror Hin))).
  destruct ty; cbn [sameType]; try exact IH'.
  destruct (M mousemove f (or_introl eq_refl)) as [k ->].
  replace (after (handle (mouseMoveHandler k)
                    {| eventType := mousemove;
                       clientX := cx; clientY := cy |} h)) with h;
    [exact IH'|].
  unfold handle. cbv [bind get]. rewrite after_onDirective.
  rewrite updateStroke_idle by exact Hp.
  destruct h; reflexivity.
Qed.

End Hovering.

(** ** The demo component *)

Section AppProofs.

Context {num : Type} {N : Number num}.

(** X20: the two arrays of coordinates that the demo component keeps have the
    same length, in whatever order its handlers and the operations of the
    directive are called. *)
Theorem component_arrays_have_equal_length (cs : list (@App.Step num)) :
  let a := fst (App.run cs) in
  length (App._freehandX a) = length (App._freehandY a).
Proof.
  cbv zeta. unfold App.run.
  assert (H0 : length (App._freehandX (App.created (num := num)))
               = length (App._freehandY (App.created (num := num)))
               /\ logsAligned (newDirective (num := num))).
  { split; [reflexivity|]. apply logsAligned_clear. reflexivity. }
  revert H0.
  generalize (newDirective (num := num)) (App.created (num := num)).
  induction cs as [|c rest IH]; intros d a [Ha Hd]; [exact Ha|].
  cbn [fold_left App.step].
  destruct c as [| | |v|c]; apply IH; split; try assumption.
  - unfold App.onBeginStroke. destruct (App.cacheStrokes a);
      [reflexivity | exact Ha].
  - unfold App.onEndStroke. destruct (App.cacheStrokes a);
      [exact Hd | exact Ha].
  - apply logsAligned_clear, Hd.
  - apply logsAligned_perform, Hd.
Qed.

End AppProofs.

(** ** The stroke count and the body of a stroke *)

Section Counting.

Context {num : Type} {N : Number num}.

Lemma sameLists_beginStrokeAt_at (s0 : @State num) (x y : num) index :
  index <> (-1)%Z ->
  preserves (sameLists s0) (beginStrokeAt x y index).
Proof.
  intros Hi. unfold beginStrokeAt, cachePoint.
  destruct (Z.eqb_spec index (-1)) as [|_]; [contradiction|].
  framed.
Qed.

(** X22: the stroke count, call by call.  In every state reached by calls
    of the public operations, [clear()] leaves no stroke, [beginStrokeAt]
    without an index adds one, and nothing else changes the count: not
    [beginStrokeAt] with an index, not [updateStroke], [endStrokeAt] or
    [ngOnChanges], and not [eraseStroke] either, whether they complete or
    throw. *)
Theorem stroke_count_after_a_call (cs : list (@Call num)) (c : @Call num) :
  let s := session cs in
  numStrokes (perform s c) = countAfter (numStrokes s) c.
Proof.
  intros s. unfold numStrokes.
  destruct c as [|x y index|x y|x y|index|changes]; cbn [perform countAfter].
  - destruct (clear_run (wellFormed_session cs)) as (h' & R).
    fold s in R. rewrite R. reflexivity.
  - destruct (Z.eqb_spec index (-1)) as [->|Hi].
    + rewrite beginStrokeAt_new. unfold begun. cbn [after scene _strokes].
      apply length_snoc.
    + rewrite (proj1 (@sameLists_beginStrokeAt_at s x y index Hi s
                        (sameLists_refl s))).
      reflexivity.
  - rewrite (proj1 (@sameLists_updateStroke _ _ s x y s (sameLists_refl s))).
    reflexivity.
  - rewrite (proj1 (@sameLists_endStrokeAt _ _ s x y s (sameLists_refl s))).
    reflexivity.
  - rewrite eraseStroke_state. reflexivity.
  - rewrite (proj1 (@sameLists_ngOnChanges _ _ s changes s (sameLists_refl s))).
    reflexivity.
Qed.

Lemma tipApart_sameStroke (s u : @State num) :
  sameStroke s u -> tipApart s -> tipApart u.
Proof. intros (T & _ & _ & S) H g t Hg Ht. apply H; congruence. Qed.

Lemma tipApart_perform (s : @State num) c :
  wellFormed s -> tipApart s -> tipApart (perform s c).
Proof.
  intros W A.
  destruct c as [|x y index|x y|x y|index|changes];
    try (refine (tipApart_sameStroke (sameStroke_perform s _ _) A);
         exact I).
  - cbn [perform]. destruct (Z.eq_dec index (-1)) as [ -> | Hi ].
    + rewrite beginStrokeAt_new. intros g t [= <-] [= <-]. lia.
    + destruct (arrayGet (_strokes (scene s)) index) as [c|] eqn:Hc.
      * destruct (W c (arrayGet_In _ _ Hc)) as (kids & Hk & _).
        rewrite (@beginStrokeAt_existing _ _ s x y index c kids Hi Hc Hk).
        intros g t [= <-] [= <-]. lia.
      * rewrite (beginStrokeAt_missing_state s x y Hi Hc).
        intros g t [= <-] [= <-]. lia.
  - cbn [perform]. pose proof (endStrokeAt_announces s x y) as H.
    destruct (endStrokeAt x y s) as [[] s'|e s']; cbn [after] in *.
    + destruct H as (_ & _ & T). intros g t _ Ht. congruence.
    + apply (tipApart_sameStroke H A).
Qed.

Lemma tipApart_session (cs : list (@Call num)) : tipApart (session cs).
Proof.
  unfold session, performAll.
  assert (H0 : wellFormed (newDirective (num := num))
               /\ tipApart (newDirective (num := num))).
  { split.
    - apply wellFormed_clear. intros r [].
    - apply (tipApart_sameStroke (sameStroke_clear constructed)).
      intros g t Hg. discriminate Hg. }
  revert H0. generalize (newDirective (num := num)).
  induction cs as [|c rest IH]; intros s [W A]; simpl.
  - exact A.
  - apply IH. split.
    + apply wellFormed_perform, W.
    + apply tipApart_perform; assumption.
Qed.

Lemma paintOn_at (h : list (@DisplayObject num)) g cmds drawn :
  nth_error h g = Some (Graphics drawn) ->
  nth_error (paintOn g cmds h) g = Some (Graphics (drawn ++ cmds)).
Proof.
  intros H. unfold paintOn. rewrite H. eapply nth_error_replace_same, H.
Qed.

(** X23: the body of a stroke only grows.  While a stroke is in progress, an
    [updateStroke] keeps every command that the body holds and appends the
    seven commands of one patch, after the ten commands of a final tip cap
    when a cusp was detected. *)
Theorem body_only_grows (cs : list (@Call num)) (x y : num) :
  let s := session cs in
  _mousePressed (mouse s) = true ->
  exists g drawn more s',
    _stroke (scene s) = Some g
    /\ objectAt s g = Some (Graphics drawn)
    /\ updateStroke x y s = Ok tt s'
    /\ objectAt s' g = Some (Graphics (drawn ++ more))
    /\ length more = (if cuspAt x y s then 17 else 7)%nat.
Proof.
  intros s Hp.
  destruct (inProgress_session cs Hp) as (g & t & Hg & Ht & [drawn Gg] & Gt).
  fold s in Hg, Ht, Gg, Gt.
  pose proof (@tipApart_session cs g t Hg Ht) as Hgt.
  pose proof (@updateStroke_run _ _ s x y g t Hp Hg Ht
                (ex_intro _ drawn Gg) Gt) as R.
  set (s1 := cacheFields x y s) in *.
  set (u := cuspFields x y s1).
  set (s5 := withMouse (smoothTowards (smoothing (inputs u)) x y) u).
  set (cap := if cuspAt x y s
              then tipCap (withMouse (mouseMovedTo x y) s1)
                     (_lastMouseX (mouse s1)) (_lastMouseY (mouse s1))
              else []).
  exists g, drawn, (cap ++ patch s5 (segment s5)). eexists.
  split; [exact Hg|]. split; [exact Gg|]. split; [exact R|].
  split.
  - unfold objectAt. rewrite withObjects_objects.
    unfold updateObjects, extendObjects. cbv zeta. fold s1. fold u. fold s5.
    rewrite nth_error_replace.
    destruct (Nat.eqb_spec g t) as [E|_]; [contradiction|].
    rewrite app_assoc. apply paintOn_at.
    unfold cuspObjects, cap. fold s1.
    replace (cuspAt x y s1) with (cuspAt x y s)
      by (symmetry; apply cuspAt_cacheFields).
    destruct (cuspAt x y s).
    + apply paintOn_at, Gg.
    + rewrite app_nil_r. exact Gg.
  - rewrite length_app. unfold cap.
    destruct (cuspAt x y s); reflexivity.
Qed.

End Counting.

(** ** The further theorems at sample inputs *)

Section MoreWitnesses.

Import JS.
Local Open Scope float_scope.
Local Existing Instance Sample.engine.

Lemma tip_is_redrawn_at_every_update_witness :
  let s := session [ call_beginStrokeAt 0 0 (-1); call_updateStroke 10 0 ] in
  _mousePressed (mouse s) = true
  /\ exists s',
       updateStroke 20 5 s = Ok tt s'
       /\ objectAt s' 1%nat = Some (Graphics (tipCap s' 20 5)).
Proof.
  intros s.
  assert (H : _mousePressed (mouse s) = true) by (vm_compute; reflexivity).
  split; [exact H|].
  destruct (tip_is_redrawn_at_every_update
              [ call_beginStrokeAt 0 0 (-1); call_updateStroke 10 0 ] 20 5 H)
    as (t & s' & Ht & Hrun & _ & Hcap).
  assert (E : Some t = Some 1%nat).
  { rewrite <- Ht. vm_compute. reflexivity. }
  injection E as ->.
  exists s'. split; [exact Hrun | exact Hcap].
Defined.

Lemma body_only_grows_witness :
  let s := session [ call_beginStrokeAt 0 0 (-1); call_updateStroke 10 0 ] in
  _mousePressed (mouse s) = true
  /\ exists drawn more s',
       objectAt s 0%nat = Some (Graphics drawn)
       /\ updateStroke 5 0 s = Ok tt s'
       /\ objectAt s' 0%nat = Some (Graphics (drawn ++ more))
       /\ length more = 17%nat.
Proof.
  intros s.
  assert (H : _mousePressed (mouse s) = true) by (vm_compute; reflexivity).
  split; [exact H|].
  destruct (body_only_grows
              [ call_beginStrokeAt 0 0 (-1); call_updateStroke 10 0 ] 5 0 H)
    as (g & drawn & more & s' & Hg & Hd & Hrun & Hd' & Hlen).
  assert (E : Some g = Some 0%nat).
  { rewrite <- Hg. vm_compute. reflexivity. }
  injection E as ->.
  exists drawn, more, s'.
  split; [exact Hd|]. split; [exact Hrun|]. split; [exact Hd'|].
  rewrite Hlen. vm_compute. reflexivity.
Defined.

Lemma beginStrokeAt_without_the_stroke_witness :
  let s := Sample.run [] in
  (3 < -1 \/ Z.of_nat (numStrokes s) <= 3)%Z
  /\ exists s',
       beginStrokeAt 1 2 3 s = Throw TypeError s'
       /\ emitted s' = emitted s
       /\ get_x s' = [1].
Proof.
  intros s.
  assert (H : (3 < -1 \/ Z.of_nat (numStrokes s) <= 3)%Z).
  { right. replace (numStrokes s) with 0%nat by (vm_compute; reflexivity).
    simpl. lia. }
  split; [exact H|].
  destruct (beginStrokeAt_without_the_stroke s 1 2 H)
    as (s' & Hrun & _ & _ & He & _ & Hx & _).
  exists s'. split; [exact Hrun|]. split; [exact He|].
  rewrite Hx. vm_compute. reflexivity.
Defined.

Lemma first_click_draws_a_disc_of_radius_NaN_witness :
  existsb isUpdate (@nil (@Call float)) = false
  /\ exists fill radius rest,
       objectAt (performAll (session [])
                   [ call_beginStrokeAt 10 10 (-1); call_endStrokeAt 10 10 ])
         0%nat
       = Some (Graphics (beginFill fill 1 :: drawCircle 10 10 radius :: rest))
       /\ PrimFloat.is_nan radius = true.
Proof.
  assert (H : existsb isUpdate (@nil (@Call float)) = false) by reflexivity.
  split; [exact H|].
  destruct (first_click_draws_a_disc_of_radius_NaN (E := seriesMath)
              [] 10 10 10 10 H)
    as (fill & radius & rest & Hd & Hn).
  exists fill, radius, rest. split; [|exact Hn].
  replace 0%nat with (length (objects (scene (session (@nil (@Call float))))))
    by (vm_compute; reflexivity).
  exact Hd.
Defined.

Lemma endStrokeAt_twice_throws_witness :
  let s := Sample.run [ call_beginStrokeAt 0 0 (-1) ] in
  let s1 := after (endStrokeAt 1 1 s) in
  endStrokeAt 1 1 s = Ok tt s1
  /\ completes (endStrokeAt 2 2 s1) = false
  /\ get_x (after (endStrokeAt 2 2 s1)) = [0; 1; 2].
Proof.
  intros s s1.
  assert (H : endStrokeAt 1 1 s = Ok tt s1) by (vm_compute; reflexivity).
  split; [exact H|].
  destruct (@endStrokeAt_twice_throws _ _ s s1 1 1 2 2 H) as (C & _ & Hx & _).
  split; [exact C|].
  rewrite Hx. vm_compute. reflexivity.
Defined.

Lemma moving_the_mouse_without_pressing_changes_nothing_witness :
  let rect := {| Page.rect_left := 8; Page.rect_top := 8 |} in
  let h := Page.run rect [ Page.step_ngAfterViewInit ] in
  _mousePressed (mouse (Page.directive h)) = false
  /\ Page.dispatchEvent {| Page.eventType := Page.mousemove;
                           Page.clientX := 100; Page.clientY := 50 |} h
     = h.
Proof.
  intros rect h.
  assert (H : _mousePressed (mouse (Page.directive h)) = false)
    by (vm_compute; reflexivity).
  split; [exact H|].
  exact (moving_the_mouse_without_pressing_changes_nothing
           rect [ Page.step_ngAfterViewInit ] 100 50 H).
Defined.

End MoreWitnesses.


